(** * DataLift rule-based extraction: a shallow embedding

    This development embeds the extraction core of react-native-datalift
    (the primitives of the rule-based parser, [RuleBasedParser] and
    [ConfidenceEngine]) and states the properties of its specification
    against it.

    Conventions of the embedding:
    - a JavaScript string is the list of its UTF-16 code units ([N]);
    - a regular expression literal is a term of [Regex.regex], run by a
      backtracking matcher that follows the ECMAScript matching rules
      (leftmost start, alternatives in order, greedy quantifiers); where a
      source pattern is quoted in a comment, a blank separates a star from a
      closing parenthesis that follows it;
    - a JavaScript number is a [JS.number]: an exact rational, or one of
      [NaN], [+Infinity], [-Infinity].  Binary rounding of IEEE doubles
      and the sign of zero are not represented;
    - [undefined] / [null] are [None]. *)

From Stdlib Require Import List NArith ZArith QArith Qround Qabs Bool Arith Lia String Ascii.
From Stdlib Require Import Lqa.
Import ListNotations.

Set Implicit Arguments.

Close Scope Q_scope.

Abbreviation length := List.length (only parsing).

(* ================================================================== *)
(** * JavaScript strings *)

Module JS.

Definition char := N.
Definition jsstring := list char.

(** An ASCII literal as a JavaScript string. *)
Definition str (s : string) : jsstring :=
  List.map N_of_ascii (list_ascii_of_string s).

Definition ch (s : string) : char :=
  match str s with c :: _ => c | [] => 0%N end.

Arguments str s%_string.
Arguments ch s%_string.

Local Open Scope N_scope.

Definition between (lo hi c : char) : bool := (lo <=? c) && (c <=? hi).

Definition is_digit (c : char) : bool := between 48 57 c.
Definition is_upper (c : char) : bool := between 65 90 c.
Definition is_lower (c : char) : bool := between 97 122 c.
Definition is_alpha (c : char) : bool := is_upper c || is_lower c.
(** [\w] *)
Definition is_word (c : char) : bool := is_alpha c || is_digit c || (c =? 95).

(** LineTerminator: LF, CR, LS, PS. *)
Definition is_line_terminator (c : char) : bool :=
  (c =? 10) || (c =? 13) || (c =? 8232) || (c =? 8233).

(** [\s]: WhiteSpace and LineTerminator of ECMAScript. *)
Definition is_space (c : char) : bool :=
  between 9 13 c || (c =? 32) || (c =? 160) || (c =? 5760)
  || between 8192 8202 c || (c =? 8232) || (c =? 8233) || (c =? 8239)
  || (c =? 8287) || (c =? 12288) || (c =? 65279).

Definition newline : char := 10.

Definition one_of (s : string) (c : char) : bool := existsb (N.eqb c) (str s).
Arguments one_of s%_string c.

(** Case folding of the [i] flag (without [u]): only ASCII letters fold onto
    ASCII letters. *)
Definition upcase (c : char) : char := if is_lower c then c - 32 else c.
Definition downcase (c : char) : char := if is_upper c then c + 32 else c.
Definition eq_ci (a c : char) : bool := upcase a =? upcase c.
Definition one_of_ci (s : string) (c : char) : bool := existsb (fun a => eq_ci a c) (str s).
Arguments one_of_ci s%_string c.

(** [String.prototype.toLowerCase], on the ASCII letters; the other code
    units are left as they are (the Unicode case tables are not embedded). *)
Definition toLowerCase (s : jsstring) : jsstring := List.map downcase s.

Fixpoint eqb (a b : jsstring) : bool :=
  match a, b with
  | [], [] => true
  | x :: a', y :: b' => (x =? y) && eqb a' b'
  | _, _ => false
  end.

Fixpoint starts_with (p s : jsstring) : bool :=
  match p, s with
  | [], _ => true
  | x :: p', y :: s' => (x =? y) && starts_with p' s'
  | _ :: _, [] => false
  end.

(** [s.includes(p)] *)
Fixpoint includes (s p : jsstring) : bool :=
  starts_with p s || match s with [] => false | _ :: s' => includes s' p end.

Fixpoint drop_while (p : char -> bool) (s : jsstring) : jsstring :=
  match s with
  | c :: s' => if p c then drop_while p s' else s
  | [] => []
  end.

Definition trimStart (s : jsstring) : jsstring := drop_while is_space s.
Definition trimEnd (s : jsstring) : jsstring := rev (drop_while is_space (rev s)).
(** [String.prototype.trim] *)
Definition trim (s : jsstring) : jsstring := trimEnd (trimStart s).

(** [s.split(sep)] where [sep] is a one-unit string. *)
Fixpoint split_on (sep : char) (s : jsstring) : list jsstring :=
  match s with
  | [] => [[]]
  | c :: s' =>
      if c =? sep then [] :: split_on sep s'
      else match split_on sep s' with
           | l :: ls => (c :: l) :: ls
           | [] => [[c]]
           end
  end.

(** [a.join(sep)] *)
Fixpoint join (sep : jsstring) (l : list jsstring) : jsstring :=
  match l with
  | [] => []
  | [x] => x
  | x :: l' => x ++ sep ++ join sep l'
  end.

(** [a.slice(lo, hi)] for [0 <= lo], [0 <= hi]. *)
Definition slice {A} (lo hi : nat) (l : list A) : list A :=
  firstn (hi - lo) (skipn lo l).

(** [s.padStart(n, "0")] *)
Definition padStart0 (n : nat) (s : jsstring) : jsstring :=
  repeat 48 (n - length s) ++ s.

(** Truthiness of a string. *)
Definition nonempty (s : jsstring) : bool :=
  match s with [] => false | _ => true end.

Definition count (c : char) (s : jsstring) : nat :=
  length (filter (N.eqb c) s).

End JS.

(* ================================================================== *)
(** * JavaScript numbers *)

Module Num.
Import JS.
Local Open Scope Q_scope.

Inductive number : Type :=
| Fin (q : Q)
| PInf
| NInf
| NaN.

Definition of_Z (z : Z) : number := Fin (inject_Z z).
Definition of_nat (n : nat) : number := of_Z (Z.of_nat n).

Definition Qltb (a b : Q) : bool := negb (Qle_bool b a).

Definition sign_inf (pos : bool) : number := if pos then PInf else NInf.

Definition add (a b : number) : number :=
  match a, b with
  | NaN, _ | _, NaN => NaN
  | Fin x, Fin y => Fin (Qred (x + y))
  | PInf, NInf | NInf, PInf => NaN
  | PInf, _ | _, PInf => PInf
  | NInf, _ | _, NInf => NInf
  end.

Definition neg (a : number) : number :=
  match a with
  | Fin x => Fin (Qred (- x))
  | PInf => NInf
  | NInf => PInf
  | NaN => NaN
  end.

Definition sub (a b : number) : number := add a (neg b).

Definition is_neg (a : number) : bool :=
  match a with
  | Fin x => Qltb x 0
  | NInf => true
  | _ => false
  end.

Definition is_zero (a : number) : bool :=
  match a with Fin x => Qeq_bool x 0 | _ => false end.

Definition mul (a b : number) : number :=
  match a, b with
  | NaN, _ | _, NaN => NaN
  | Fin x, Fin y => Fin (Qred (x * y))
  | _, _ =>
      if is_zero a || is_zero b then NaN
      else sign_inf (Bool.eqb (is_neg a) (is_neg b))
  end.

Definition div (a b : number) : number :=
  match a, b with
  | NaN, _ | _, NaN => NaN
  | Fin x, Fin y =>
      if Qeq_bool y 0
      then (if Qeq_bool x 0 then NaN else sign_inf (negb (Qltb x 0)))
      else Fin (Qred (x / y))
  | Fin _, _ => Fin 0
  | _, Fin _ => sign_inf (Bool.eqb (is_neg a) (is_neg b))
  | _, _ => NaN
  end.

Definition abs (a : number) : number :=
  match a with
  | Fin x => Fin (Qred (Qabs x))
  | PInf | NInf => PInf
  | NaN => NaN
  end.

(** [a < b] *)
Definition lt (a b : number) : bool :=
  match a, b with
  | NaN, _ | _, NaN => false
  | Fin x, Fin y => Qltb x y
  | NInf, NInf | PInf, _ | _, NInf => false
  | _, _ => true
  end.

(** [a === b] *)
Definition eq (a b : number) : bool :=
  match a, b with
  | Fin x, Fin y => Qeq_bool x y
  | PInf, PInf | NInf, NInf => true
  | _, _ => false
  end.

Definition gt (a b : number) : bool := lt b a.
Definition le (a b : number) : bool := lt a b || eq a b.
Definition ge (a b : number) : bool := le b a.

(** [Math.max(a, b)], [Math.min(a, b)] *)
Definition max (a b : number) : number :=
  match a, b with
  | NaN, _ | _, NaN => NaN
  | _, _ => if lt a b then b else a
  end.

Definition min (a b : number) : number :=
  match a, b with
  | NaN, _ | _, NaN => NaN
  | _, _ => if lt b a then b else a
  end.

Definition isNaN (a : number) : bool :=
  match a with NaN => true | _ => false end.

Definition isFinite (a : number) : bool :=
  match a with Fin _ => true | _ => false end.

(** [Number.isInteger] *)
Definition isInteger (a : number) : bool :=
  match a with
  | Fin x => Qeq_bool x (inject_Z (Qfloor x))
  | _ => false
  end.

(** Truthiness of a number. *)
Definition truthy (a : number) : bool :=
  match a with
  | Fin x => negb (Qeq_bool x 0)
  | NaN => false
  | _ => true
  end.

(** [parseFloat(a.toFixed(d))]: the magnitude is rounded to [d] decimals,
    halves upwards; from 10^21 on [toFixed] prints the number itself. *)
Definition round_to (d : nat) (a : number) : number :=
  match a with
  | Fin x =>
      let m := Qabs x in
      if Qle_bool (inject_Z (10 ^ 21)%Z) m then a
      else
        let p := inject_Z (10 ^ Z.of_nat d)%Z in
        let r := (inject_Z (Qfloor (m * p + (1 # 2)))) / p in
        Fin (Qred (if Qltb x 0 then - r else r))
  | _ => a
  end.

Local Close Scope Q_scope.
Local Open Scope N_scope.

Fixpoint take_digits (s : jsstring) : jsstring * jsstring :=
  match s with
  | c :: s' =>
      if is_digit c
      then let (d, r) := take_digits s' in (c :: d, r)
      else ([], s)
  | [] => ([], [])
  end.

Definition digits_value (d : jsstring) : Z :=
  fold_left (fun acc c => (acc * 10 + Z.of_N (c - 48))%Z) d 0%Z.

(** [parseFloat] on the strings the program passes to it, which are made of
    decimal digits and dots: the longest prefix that is a decimal literal
    ("12", "12.5", "12.", ".5"), [NaN] when there is none.  Signs, exponents
    and leading blanks do not occur at the call sites and are not read. *)
Definition parseFloat (s : jsstring) : number :=
  let (ip, r) := take_digits s in
  let fp :=
    match r with
    | c :: r' => if c =? 46 then fst (take_digits r') else []
    | [] => []
    end in
  match ip, fp with
  | [], [] => NaN
  | _, _ =>
      Fin (Qred (inject_Z (digits_value ip)
                 + inject_Z (digits_value fp) / inject_Z (10 ^ Z.of_nat (length fp))%Z))
  end.

End Num.

(* ================================================================== *)
(** * Exceptions *)

Module Exn.

(** The outcome of code that may throw. *)
Inductive result (A : Type) : Type :=
| Ok (a : A)
| Throw.

Arguments Ok {A} a.
Arguments Throw {A}.

Definition bind {A B} (m : result A) (k : A -> result B) : result B :=
  match m with
  | Ok a => k a
  | Throw => Throw
  end.

(** Reading a property of a value that may be [undefined]: a [TypeError]
    when it is. *)
Definition must {A} (o : option A) : result A :=
  match o with
  | Some a => Ok a
  | None => Throw
  end.

Definition succeeds {A} (m : result A) : Prop := exists a, m = Ok a.

End Exn.

Notation "x <- m ;; k" := (Exn.bind m (fun x => k))
  (at level 61, m at next level, right associativity).

(* ================================================================== *)
(** * Regular expressions *)

Module Regex.
Import JS.

(** The fragment of the ECMAScript pattern language the program uses.
    A class, an escape such as [\d] or a literal character is a [Chr] with
    its predicate; [Grp i r] is the capture group number [i]. *)
Inductive regex : Type :=
| Eps
| Chr (p : char -> bool)
| Cat (r1 r2 : regex)
| Alt (r1 r2 : regex)
| Rep (lo : nat) (hi : option nat) (r : regex)
| Grp (i : nat) (r : regex)
| Bol (multiline : bool)
| Eol (multiline : bool)
| Wordb
| Ahead (r : regex)
| NotAhead (r : regex)
| Behind (p : char -> bool).

(** A position in the subject: the units before it (nearest first) and the
    units after it. *)
Record cursor : Type := Cursor { before : list char; after : list char }.

Definition caps := list (nat * jsstring).

Fixpoint lookup (i : nat) (cs : caps) : option jsstring :=
  match cs with
  | [] => None
  | (j, s) :: cs' => if Nat.eqb i j then Some s else lookup i cs'
  end.

Definition consumed (z z' : cursor) : jsstring :=
  firstn (length (after z) - length (after z')) (after z).

Definition at_bol (ml : bool) (z : cursor) : bool :=
  match before z with
  | [] => true
  | c :: _ => ml && is_line_terminator c
  end.

Definition at_eol (ml : bool) (z : cursor) : bool :=
  match after z with
  | [] => true
  | c :: _ => ml && is_line_terminator c
  end.

Definition prev_is (p : char -> bool) (z : cursor) : bool :=
  match before z with c :: _ => p c | [] => false end.

Definition next_is (p : char -> bool) (z : cursor) : bool :=
  match after z with c :: _ => p c | [] => false end.

Definition at_wordb (z : cursor) : bool :=
  xorb (prev_is is_word z) (next_is is_word z).

Definition below (hi : option nat) (n : nat) : bool :=
  match hi with None => true | Some h => Nat.ltb n h end.

Definition result := option (cursor * caps).

Definition ret (z : cursor) (cs : caps) : result := Some (z, cs).

(** The loop of a quantifier [{lo,hi}] over a matcher [body]: [n] iterations
    are done.  It is greedy; once the minimum is reached an iteration that
    consumes nothing is not taken (RepeatMatcher).  [fuel] bounds the number
    of iterations, which is at most the number of units left plus [lo]. *)
Section RepLoop.
Variable body : cursor -> caps -> (cursor -> caps -> result) -> result.
Variables (lo : nat) (hi : option nat).
Variable k : cursor -> caps -> result.

Fixpoint rep_loop (fuel n : nat) (z : cursor) (cs : caps) {struct fuel} : result :=
  let stop := if Nat.leb lo n then k z cs else None in
  match fuel with
  | O => stop
  | S fuel' =>
      if below hi n then
        match body z cs (fun z1 cs1 =>
                 if Nat.ltb (length (after z1)) (length (after z)) || Nat.ltb n lo
                 then rep_loop fuel' (S n) z1 cs1 else None) with
        | Some x => Some x
        | None => stop
        end
      else stop
  end.
End RepLoop.

(** The backtracking matcher, in continuation-passing style.  No pattern of
    the program has a capture group under a quantifier that can iterate
    twice, so captures are not reset between iterations. *)
Fixpoint run (r : regex) (z : cursor) (cs : caps)
             (k : cursor -> caps -> result) {struct r} : result :=
  match r with
  | Eps => k z cs
  | Chr p =>
      match after z with
      | c :: rest => if p c then k (Cursor (c :: before z) rest) cs else None
      | [] => None
      end
  | Cat a b => run a z cs (fun z1 cs1 => run b z1 cs1 k)
  | Alt a b =>
      match run a z cs k with
      | Some x => Some x
      | None => run b z cs k
      end
  | Rep lo hi a => rep_loop (run a) lo hi k (length (after z) + lo) 0 z cs
  | Grp i a => run a z cs (fun z1 cs1 => k z1 ((i, consumed z z1) :: cs1))
  | Bol ml => if at_bol ml z then k z cs else None
  | Eol ml => if at_eol ml z then k z cs else None
  | Wordb => if at_wordb z then k z cs else None
  | Ahead a =>
      match run a z cs ret with
      | Some (_, cs1) => k z cs1
      | None => None
      end
  | NotAhead a =>
      match run a z cs ret with
      | Some _ => None
      | None => k z cs
      end
  | Behind p => if prev_is p z then k z cs else None
  end.

(** A match anchored at the cursor. *)
Definition match_at (r : regex) (z : cursor) : result := run r z [] ret.

(** What [exec] returns: the index, the matched text and the captures. *)
Record rmatch : Type := RMatch { index : nat; whole : jsstring; groups : caps }.

(** [m[i]] for [i >= 1] ([None] is [undefined]). *)
Definition group (m : rmatch) (i : nat) : option jsstring := lookup i (groups m).

(** The leftmost match at or after the cursor. *)
Fixpoint search_from (r : regex) (pre post : list char) {struct post} : option rmatch :=
  match match_at r (Cursor pre post) with
  | Some (z', cs) =>
      Some (RMatch (length pre) (consumed (Cursor pre post) z') cs)
  | None =>
      match post with
      | [] => None
      | c :: post' => search_from r (c :: pre) post'
      end
  end.

(** [s.match(r)] for a pattern without the [g] flag, and [r.exec(s)]. *)
Definition exec (r : regex) (s : jsstring) : option rmatch := search_from r [] s.

(** [r.test(s)] *)
Definition test (r : regex) (s : jsstring) : bool :=
  match exec r s with Some _ => true | None => false end.

(** The successive results of [r.exec(s)] for a pattern with the [g] flag
    whose matches are not empty ([while ((m = r.exec(s)) !== null)]). *)
Fixpoint exec_all_go (r : regex) (skip : nat) (pre post : list char) {struct post}
  : list rmatch :=
  match skip with
  | S k =>
      match post with
      | [] => []
      | c :: post' => exec_all_go r k (c :: pre) post'
      end
  | O =>
      match match_at r (Cursor pre post) with
      | Some (z', cs) =>
          let w := consumed (Cursor pre post) z' in
          RMatch (length pre) w cs ::
          match post with
          | [] => []
          | c :: post' => exec_all_go r (length w - 1) (c :: pre) post'
          end
      | None =>
          match post with
          | [] => []
          | c :: post' => exec_all_go r 0 (c :: pre) post'
          end
      end
  end.

Definition exec_all (r : regex) (s : jsstring) : list rmatch := exec_all_go r 0 [] s.

(** [s.match(r)] for a pattern with the [g] flag: the matched texts
    ([[]] stands for [null]). *)
Definition match_all (r : regex) (s : jsstring) : list jsstring :=
  List.map whole (exec_all r s).

(** [s.replace(r, f)] for a pattern with the [g] flag: the subject is scanned
    once, left to right; every match is replaced by [f] of it and the scan
    resumes after it.  [skip] counts the units of the current match still to
    pass over. *)
Fixpoint replace_go (r : regex) (f : rmatch -> jsstring) (skip : nat)
                    (pre post : list char) {struct post} : jsstring :=
  match skip with
  | S k =>
      match post with
      | [] => []
      | c :: post' => replace_go r f k (c :: pre) post'
      end
  | O =>
      match match_at r (Cursor pre post) with
      | Some (z', cs) =>
          let w := consumed (Cursor pre post) z' in
          f (RMatch (length pre) w cs) ++
          match post with
          | [] => []
          | c :: post' =>
              match length w with
              | O => c :: replace_go r f 0 (c :: pre) post'
              | S k => replace_go r f k (c :: pre) post'
              end
          end
      | None =>
          match post with
          | [] => []
          | c :: post' => c :: replace_go r f 0 (c :: pre) post'
          end
      end
  end.

Definition replace_all (r : regex) (f : rmatch -> jsstring) (s : jsstring) : jsstring :=
  replace_go r f 0 [] s.

(** [s.replace(r, f)] for a pattern without the [g] flag. *)
Definition replace_first (r : regex) (f : rmatch -> jsstring) (s : jsstring) : jsstring :=
  match exec r s with
  | Some m =>
      firstn (index m) s ++ f m ++ skipn (index m + length (whole m)) s
  | None => s
  end.

(** [s.split(r)] for a pattern that has no capture group and matches no
    empty string. *)
Fixpoint split_go (r : regex) (skip : nat) (cur : jsstring) (pre post : list char)
                  {struct post} : list jsstring :=
  match skip with
  | S k =>
      match post with
      | [] => [rev cur]
      | c :: post' => split_go r k cur (c :: pre) post'
      end
  | O =>
      match post with
      | [] => [rev cur]
      | c :: post' =>
          match match_at r (Cursor pre post) with
          | Some (z', _) =>
              match length (consumed (Cursor pre post) z') with
              | O => split_go r 0 (c :: cur) (c :: pre) post'
              | S k => rev cur :: split_go r k [] (c :: pre) post'
              end
          | None => split_go r 0 (c :: cur) (c :: pre) post'
          end
      end
  end.

Definition split (r : regex) (s : jsstring) : list jsstring := split_go r 0 [] [] s.

(** ** Replacement templates (GetSubstitution)

    [$$] is a dollar sign, [$&] the match, [$n] and [$nn] a capture when the
    pattern has that many groups: with fewer than [nn] groups, [$nn] is [$n]
    followed by the digit. *)
Definition digit_val (c : char) : nat := N.to_nat (c - 48).

Definition group_text (m : rmatch) (i : nat) : jsstring :=
  match group m i with Some s => s | None => [] end.

Fixpoint subst (ngroups : nat) (m : rmatch) (t : jsstring) (fuel : nat) : jsstring :=
  match fuel with
  | O => t
  | S fuel' =>
      match t with
      | [] => []
      | c :: t1 =>
          if negb (N.eqb c 36) then c :: subst ngroups m t1 fuel'
          else
            match t1 with
            | [] => [c]
            | d :: t2 =>
                if N.eqb d 36 then 36%N :: subst ngroups m t2 fuel'
                else if N.eqb d 38 then whole m ++ subst ngroups m t2 fuel'
                else if is_digit d then
                  let one := digit_val d in
                  let two :=
                    match t2 with
                    | e :: _ => if is_digit e then Some (one * 10 + digit_val e)%nat else None
                    | [] => None
                    end in
                  match two with
                  | Some nn =>
                      if Nat.leb 1 nn && Nat.leb nn ngroups
                      then group_text m nn ++ subst ngroups m (tl t2) fuel'
                      else if Nat.leb 1 one && Nat.leb one ngroups
                      then group_text m one ++ subst ngroups m t2 fuel'
                      else c :: subst ngroups m t1 fuel'
                  | None =>
                      if Nat.leb 1 one && Nat.leb one ngroups
                      then group_text m one ++ subst ngroups m t2 fuel'
                      else c :: subst ngroups m t1 fuel'
                  end
                else c :: subst ngroups m t1 fuel'
            end
      end
  end.

(** The number of capture groups of a pattern. *)
Fixpoint ngroups (r : regex) : nat :=
  match r with
  | Cat a b | Alt a b => ngroups a + ngroups b
  | Rep _ _ a | Ahead a | NotAhead a => ngroups a
  | Grp _ a => S (ngroups a)
  | _ => 0
  end.

(** [s.replace(r, template)] with the [g] flag. *)
Definition replace_all_with (r : regex) (template : jsstring) (s : jsstring) : jsstring :=
  replace_all r (fun m => subst (ngroups r) m template (length template)) s.

Definition replace_first_with (r : regex) (template : jsstring) (s : jsstring) : jsstring :=
  replace_first r (fun m => subst (ngroups r) m template (length template)) s.

(** ** Pattern notation *)

Definition lit1 (c : char) : regex := Chr (N.eqb c).
Definition lit1i (c : char) : regex := Chr (eq_ci c).

Fixpoint cat (l : list regex) : regex :=
  match l with
  | [] => Eps
  | [r] => r
  | r :: l' => Cat r (cat l')
  end.

Fixpoint alt (l : list regex) : regex :=
  match l with
  | [] => Chr (fun _ => false)
  | [r] => r
  | r :: l' => Alt r (alt l')
  end.

(** A literal, and a literal under the [i] flag. *)
Definition lit (s : string) : regex := cat (List.map lit1 (str s)).
Definition liti (s : string) : regex := cat (List.map lit1i (str s)).
Arguments lit s%_string.
Arguments liti s%_string.

Definition star (r : regex) : regex := Rep 0 None r.
Definition plus (r : regex) : regex := Rep 1 None r.
Definition opt (r : regex) : regex := Rep 0 (Some 1) r.
Definition rep (lo hi : nat) (r : regex) : regex := Rep lo (Some hi) r.
Definition atleast (lo : nat) (r : regex) : regex := Rep lo None r.
Definition times (n : nat) (r : regex) : regex := Rep n (Some n) r.

Definition digit : regex := Chr is_digit.
Definition space : regex := Chr is_space.
Definition word : regex := Chr is_word.
(** [.] *)
Definition dot : regex := Chr (fun c => negb (is_line_terminator c)).
Definition set (s : string) : regex := Chr (one_of s).
Arguments set s%_string.
Definition non (p : char -> bool) (c : char) : bool := negb (p c).

(** ** What a successful run means

    [den r z cs z' cs']: from the cursor [z] with the captures [cs], the
    pattern [r] can end at [z'] with the captures [cs']. *)

Definition step := cursor -> caps -> cursor -> caps -> Prop.

Fixpoint iter (n : nat) (R : step) : step :=
  fun z cs z' cs' =>
    match n with
    | O => z' = z /\ cs' = cs
    | S n' => exists z1 cs1, R z cs z1 cs1 /\ iter n' R z1 cs1 z' cs'
    end.

Definition upto (hi : option nat) (n : nat) : Prop :=
  match hi with None => True | Some h => n <= h end.

Fixpoint den (r : regex) : step :=
  fun z cs z' cs' =>
    match r with
    | Eps => z' = z /\ cs' = cs
    | Chr p =>
        exists c rest, after z = c :: rest /\ p c = true /\
                       z' = Cursor (c :: before z) rest /\ cs' = cs
    | Cat a b => exists z1 cs1, den a z cs z1 cs1 /\ den b z1 cs1 z' cs'
    | Alt a b => den a z cs z' cs' \/ den b z cs z' cs'
    | Rep lo hi a => exists n, lo <= n /\ upto hi n /\ iter n (den a) z cs z' cs'
    | Grp i a => exists cs1, den a z cs z' cs1 /\ cs' = (i, consumed z z') :: cs1
    | Bol ml => at_bol ml z = true /\ z' = z /\ cs' = cs
    | Eol ml => at_eol ml z = true /\ z' = z /\ cs' = cs
    | Wordb => at_wordb z = true /\ z' = z /\ cs' = cs
    | Ahead a => z' = z /\ exists z1, den a z cs z1 cs'
    | NotAhead a => run a z cs ret = None /\ z' = z /\ cs' = cs
    | Behind p => prev_is p z = true /\ z' = z /\ cs' = cs
    end.

(** A run only moves forward: what it passes over is a prefix of what was
    left. *)
Definition advances (z z' : cursor) : Prop :=
  exists w, after z = w ++ after z' /\ before z' = rev w ++ before z.

(** A capture, once set, stays set. *)
Definition keeps (cs cs' : caps) : Prop :=
  forall i, lookup i cs <> None -> lookup i cs' <> None.

(** [avoids x r]: no class of [r] that consumes a unit accepts [x]
    (assertions consume nothing). *)
Fixpoint avoids (x : char) (r : regex) : Prop :=
  match r with
  | Chr p => p x = false
  | Cat a b | Alt a b => avoids x a /\ avoids x b
  | Rep _ _ a | Grp _ a => avoids x a
  | _ => True
  end.

(** The texts a pattern can pass over, whatever the assertions say. *)
Fixpoint lang_iter (n : nat) (L : jsstring -> Prop) (w : jsstring) : Prop :=
  match n with
  | O => w = []
  | S n' => exists w1 w2, w = w1 ++ w2 /\ L w1 /\ lang_iter n' L w2
  end.

Fixpoint lang (r : regex) (w : jsstring) : Prop :=
  match r with
  | Chr p => exists c, w = [c] /\ p c = true
  | Cat a b => exists w1 w2, w = w1 ++ w2 /\ lang a w1 /\ lang b w2
  | Alt a b => lang a w \/ lang b w
  | Rep lo hi a => exists n, lo <= n /\ upto hi n /\ lang_iter n (lang a) w
  | Grp _ a => lang a w
  | _ => w = []
  end.

(** The texts the capture [i] of a pattern can hold. *)
Fixpoint group_lang (i : nat) (r : regex) (w : jsstring) : Prop :=
  match r with
  | Cat a b | Alt a b => group_lang i a w \/ group_lang i b w
  | Rep _ _ a | Ahead a => group_lang i a w
  | Grp j a => (i = j /\ lang a w) \/ group_lang i a w
  | _ => False
  end.

(** [sets i r]: every successful run of [r] sets the capture [i]. *)
Fixpoint sets (i : nat) (r : regex) : bool :=
  match r with
  | Cat a b => sets i a || sets i b
  | Alt a b => sets i a && sets i b
  | Rep lo _ a => Nat.leb 1 lo && sets i a
  | Grp j a => Nat.eqb i j || sets i a
  | Ahead a => sets i a
  | _ => false
  end.

End Regex.

(* ================================================================== *)
(** * The response schema (DataLiftResponse) *)

Module Schema.
Import JS Num.

Inductive DataLiftDocumentType : Type :=
| invoice | receipt | purchase_order | work_order | bill | statement
| quote | cmms | supplier_document | contract | generic.

Record DataLiftPart : Type := Part {
  itemName : jsstring;
  description : option jsstring;
  sku : option jsstring;
  partNumber : option jsstring;
  quantity : number;
  unitPrice : option number;
  taxPercentage : option number;
  taxAmount : option number;
  totalAmount : number
}.

Record DataLiftTotals : Type := Totals {
  subtotal : option number;
  totalTax : option number;
  shippingCost : option number;
  discount : option number;
  tip : option number;
  serviceCharge : option number;
  grandTotal : number;
  amountPaid : option number;
  balanceDue : option number
}.

Record DataLiftAddress : Type := Address {
  street : option jsstring;
  city : option jsstring;
  state : option jsstring;
  postalCode : option jsstring;
  country : option jsstring;
  fullAddress : option jsstring
}.

Record DataLiftContact : Type := Contact {
  phone : option jsstring;
  email : option jsstring;
  website : option jsstring
}.

Record DataLiftTaxInformation : Type := TaxInformation {
  taxId : option jsstring;
  gstNumber : option jsstring;
  vatNumber : option jsstring;
  abnNumber : option jsstring;
  acnNumber : option jsstring
}.

Record DataLiftSupplier : Type := Supplier {
  supplierName : jsstring;
  supplierAddress : DataLiftAddress;
  supplierContact : DataLiftContact;
  taxInformation : option DataLiftTaxInformation
}.

(** A buyer: [{}] has none of the three members. *)
Record DataLiftBuyer : Type := Buyer {
  buyerName : option jsstring;
  buyerAddress : option DataLiftAddress;
  buyerContact : option DataLiftContact
}.

Record DataLiftTransaction : Type := Transaction {
  invoiceNumber : option jsstring;
  purchaseOrderNumber : option jsstring;
  quoteNumber : option jsstring;
  txInvoiceDate : option jsstring;
  txDueDate : option jsstring;
  transactionDate : option jsstring;
  transactionTime : option jsstring;
  paymentMode : option jsstring;
  paymentTerms : option jsstring;
  currency : jsstring
}.

(** The metadata [parse] builds.  [documentType] is a string: the caller's
    hint is cast to the type without a check.  [warnings] is the optional
    member of [DataLiftMetadata]. *)
Record DataLiftMetadata : Type := Metadata {
  documentType : jsstring;
  confidenceScore : number;
  extractionTimestamp : jsstring;
  languageDetected : jsstring;
  ocrProvider : option jsstring;
  processingTimeMs : option number;
  warnings : option (list jsstring)
}.

Record DataLiftResponse : Type := Response {
  metadata : DataLiftMetadata;
  supplier : DataLiftSupplier;
  buyer : DataLiftBuyer;
  transaction : DataLiftTransaction;
  parts : list DataLiftPart;
  totals : DataLiftTotals
}.

Definition docTypeName (t : DataLiftDocumentType) : jsstring :=
  match t with
  | invoice => str "invoice"
  | receipt => str "receipt"
  | purchase_order => str "purchase_order"
  | work_order => str "work_order"
  | bill => str "bill"
  | statement => str "statement"
  | quote => str "quote"
  | cmms => str "cmms"
  | supplier_document => str "supplier_document"
  | contract => str "contract"
  | generic => str "generic"
  end.

End Schema.

(* ================================================================== *)
(** * The parser primitives *)

Module Primitives.
Import JS Regex Num Schema.
Local Open Scope N_scope.

(** The class "[ \t]". *)
Definition is_sp_tab (c : char) : bool := (c =? 32) || (c =? 9).
(** The class of U+2013 (en dash) and U+2014 (em dash). *)
Definition is_dash (c : char) : bool := (c =? 8211) || (c =? 8212).
(** The class of U+200B..U+200D and U+FEFF. *)
Definition is_zero_width (c : char) : bool := between 8203 8205 c || (c =? 65279).

(** [a ?? b] *)
Definition orElse {A} (a b : option A) : option A :=
  match a with Some _ => a | None => b end.

(** ** OCR text normalisation *)

(** "/(\$\s* )[lI](\d)/g" *)
Definition RX_DOLLAR_L : regex :=
  cat [Grp 1 (cat [lit "$"; star space]); set "lI"; Grp 2 digit].
(** "/(\d)[Oo](\d)/g" *)
Definition RX_DIGIT_O : regex :=
  cat [Grp 1 digit; set "Oo"; Grp 2 digit].
(** "/(?<=\s)S(\d{1,3}(?:,\d{3})*\.\d{2})\b/g" *)
Definition RX_S_AMOUNT : regex :=
  cat [Behind is_space; lit "S";
       Grp 1 (cat [rep 1 3 digit; star (cat [lit ","; times 3 digit]); lit "."; times 2 digit]);
       Wordb].
(** "/[ \t]{2,}/g" *)
Definition RX_BLANKS : regex := atleast 2 (Chr is_sp_tab).
(** "/(?<=\d) (?=\d{3}(?:[.,]|\b))/g" *)
Definition RX_DIGIT_GAP : regex :=
  cat [Behind is_digit; lit " "; Ahead (cat [times 3 digit; alt [set ".,"; Wordb]])].
(** "/[\u2013\u2014]/g", written with the two dash characters in the source *)
Definition RX_DASH : regex := Chr is_dash.
(** "/[\u200B-\u200D\uFEFF]/g" *)
Definition RX_ZERO_WIDTH : regex := Chr is_zero_width.
(** "/[ \t]+$/gm" *)
Definition RX_TRAILING : regex := cat [plus (Chr is_sp_tab); Eol true].

(** [normaliseOCRText].  The third replacement is the string literal
    "\$$1" in the source, whose value is a dollar sign, a dollar sign and the
    digit 1: as a replacement pattern, a dollar sign followed by "1". *)
Definition normaliseOCRText (raw : jsstring) : jsstring :=
  let t := raw in
  let t := replace_all_with RX_DOLLAR_L (str "$11$2") t in
  let t := replace_all_with RX_DIGIT_O (str "$10$2") t in
  let t := replace_all_with RX_S_AMOUNT (str "$$1") t in
  let t := replace_all_with RX_BLANKS (str "  ") t in
  let t := replace_all_with RX_DIGIT_GAP (str "") t in
  let t := replace_all_with RX_DASH (str "-") t in
  let t := replace_all_with RX_ZERO_WIDTH (str "") t in
  let t := replace_all_with RX_TRAILING (str "") t in
  t.

(** ** The pattern library (PATTERNS) *)

(** The class of the currency signs: dollar, euro, pound, rupee, yen. *)
Definition is_currency_sign (c : char) : bool :=
  (c =? 36) || (c =? 8364) || (c =? 163) || (c =? 8377) || (c =? 165).

Definition is_alnum_ci (c : char) : bool := is_alpha c || is_digit c.
Definition is_upper_or_digit (c : char) : bool := is_upper c || is_digit c.

(** "[\s:.]" *)
Definition is_sep (c : char) : bool := is_space c || one_of ":." c.

(** SKU_LABELED:
    "/(?:SKU|Part\s*(?:No|#)|Item\s*(?:No|#)|PN|Catalog\s*(?:No|#))[\s:.]*([A-Z0-9][A-Z0-9\-_.]{2,})/i" *)
Definition SKU_LABELED : regex :=
  cat [alt [liti "SKU";
            cat [liti "Part"; star space; alt [liti "No"; lit "#"]];
            cat [liti "Item"; star space; alt [liti "No"; lit "#"]];
            liti "PN";
            cat [liti "Catalog"; star space; alt [liti "No"; lit "#"]]];
       star (Chr is_sep);
       Grp 1 (cat [Chr is_alnum_ci;
                   atleast 2 (Chr (fun c => is_alnum_ci c || one_of "-_." c))])].

(** SKU_BARE: "/\b([A-Z]{2,6}-[A-Z0-9]{2,}-[A-Z0-9]{2,})\b/" *)
Definition SKU_BARE : regex :=
  cat [Wordb;
       Grp 1 (cat [rep 2 6 (Chr is_upper); lit "-";
                   atleast 2 (Chr is_upper_or_digit); lit "-";
                   atleast 2 (Chr is_upper_or_digit)]);
       Wordb].

(** TAX_PERCENT: "/\b(\d{1,3}(?:\.\d{1,2})?)\s*(?:%|percent|pct)\b/i" *)
Definition TAX_PERCENT : regex :=
  cat [Wordb;
       Grp 1 (cat [rep 1 3 digit; opt (cat [lit "."; rep 1 2 digit])]);
       star space;
       alt [lit "%"; liti "percent"; liti "pct"];
       Wordb].

(** DATE_ISO: "/\b(\d{4}[-/]\d{2}[-/]\d{2})\b/g" *)
Definition DATE_ISO : regex :=
  cat [Wordb;
       Grp 1 (cat [times 4 digit; set "-/"; times 2 digit; set "-/"; times 2 digit]);
       Wordb].

(** ** Dates *)

(** "/^\d{4}-\d{2}-\d{2}$/" *)
Definition RX_ISO_EXACT : regex :=
  cat [Bol false; times 4 digit; lit "-"; times 2 digit; lit "-"; times 2 digit; Eol false].

(** "/^(\d{1,2})[-/.](\d{1,2})[-/.](\d{4})$/" *)
Definition RX_DMY_EXACT : regex :=
  cat [Bol false; Grp 1 (rep 1 2 digit); set "-/."; Grp 2 (rep 1 2 digit); set "-/.";
       Grp 3 (times 4 digit); Eol false].

(** [parseInt] of a string of decimal digits. *)
Definition parseInt (s : jsstring) : number :=
  match take_digits s with
  | ([], _) => NaN
  | (d, _) => of_Z (digits_value d)
  end.

(** [normaliseDateString].  The second test repeats the pattern of the first
    and is kept as the source has it. *)
Definition normaliseDateString (raw : jsstring) : Exn.result jsstring :=
  if test RX_ISO_EXACT raw then Exn.Ok raw
  else
    match exec RX_DMY_EXACT raw with
    | Some dmy =>
        g2 <- Exn.must (group dmy 2) ;;
        g1 <- Exn.must (group dmy 1) ;;
        Exn.Ok (group_text dmy 3 ++ str "-" ++ padStart0 2 g2 ++ str "-" ++ padStart0 2 g1)
    | None =>
        match exec RX_DMY_EXACT raw with
        | Some mdy =>
            if gt (parseInt (group_text mdy 1)) (Fin 12) then
              g1 <- Exn.must (group mdy 1) ;;
              g2 <- Exn.must (group mdy 2) ;;
              Exn.Ok (group_text mdy 3 ++ str "-" ++ padStart0 2 g1 ++ str "-" ++ padStart0 2 g2)
            else Exn.Ok raw
        | None => Exn.Ok raw
        end
    end.

(** "(\d{1,4}[-/. ]\d{1,2}[-/. ]\d{2,4})" *)
Definition RX_DATE_VALUE : regex :=
  Grp 1 (cat [rep 1 4 digit; set "-/. "; rep 1 2 digit; set "-/. "; rep 2 4 digit]).

(** "\s*[:\-]?\s*" *)
Definition RX_LABEL_SEP : regex := cat [star space; opt (set ":-"); star space].

(** invDateRx:
    "/(?:invoice\s*date|date\s*of\s*invoice|date\s*issued|issued|date)\s*[:\-]?\s*(\d{1,4}[-/. ]\d{1,2}[-/. ]\d{2,4})/i" *)
Definition invDateRx : regex :=
  cat [alt [cat [liti "invoice"; star space; liti "date"];
            cat [liti "date"; star space; liti "of"; star space; liti "invoice"];
            cat [liti "date"; star space; liti "issued"];
            liti "issued"; liti "date"];
       RX_LABEL_SEP; RX_DATE_VALUE].

(** dueDateRx:
    "/(?:due\s*date|payment\s*due|pay\s*by|payable\s*(?:by|on)|due\s*on)\s*[:\-]?\s*(\d{1,4}[-/. ]\d{1,2}[-/. ]\d{2,4})/i" *)
Definition dueDateRx : regex :=
  cat [alt [cat [liti "due"; star space; liti "date"];
            cat [liti "payment"; star space; liti "due"];
            cat [liti "pay"; star space; liti "by"];
            cat [liti "payable"; star space; alt [liti "by"; liti "on"]];
            cat [liti "due"; star space; liti "on"]];
       RX_LABEL_SEP; RX_DATE_VALUE].

(** txDateRx:
    "/(?:transaction|sale|purchase|order)\s*date\s*[:\-]?\s*(\d{1,4}[-/. ]\d{1,2}[-/. ]\d{2,4})/i" *)
Definition txDateRx : regex :=
  cat [alt [liti "transaction"; liti "sale"; liti "purchase"; liti "order"];
       star space; liti "date"; RX_LABEL_SEP; RX_DATE_VALUE].

Record Dates : Type := MkDates {
  invoiceDate : option jsstring;
  dueDate : option jsstring;
  txDate : option jsstring
}.

(** The value a date label captures ([m[1]] when it is truthy). *)
Definition labeledValue (rx : regex) (text : jsstring) : option jsstring :=
  match exec rx text with
  | Some m =>
      match group m 1 with
      | Some v => if nonempty v then Some v else None
      | None => None
      end
  | None => None
  end.

(** [td]: the match of a date label, normalised. *)
Definition td (rx : regex) (text : jsstring) : Exn.result (option jsstring) :=
  match labeledValue rx text with
  | Some v => d <- normaliseDateString v ;; Exn.Ok (Some d)
  | None => Exn.Ok None
  end.

(** [extractDates] *)
Definition extractDates (text : jsstring) : Exn.result Dates :=
  inv <- td invDateRx text ;;
  due <- td dueDateRx text ;;
  tx <- td txDateRx text ;;
  inv <-
    (if match inv with Some v => nonempty v | None => false end then Exn.Ok inv
     else
       match match_all DATE_ISO text with
       | iso :: _ =>
           if nonempty iso then d <- normaliseDateString iso ;; Exn.Ok (Some d)
           else Exn.Ok inv
       | [] => Exn.Ok inv
       end) ;;
  Exn.Ok (MkDates inv due tx).

(** ** Line items *)

(** SUMMARY_LINE_RX:
    "/^(?:sub\s*total|subtotal|total|tax|gst|vat|hst|pst|shipping|delivery|freight|discount|rebate|balance|amount\s+due|amount\s+paid|total\s+amount|change\s+due|rounding|tip|gratuity|net\s+amount|gross|payment|paid|tendered|change|due|owing)\b/i" *)
Definition SUMMARY_LINE_RX : regex :=
  cat [Bol false;
       alt [cat [liti "sub"; star space; liti "total"]; liti "subtotal"; liti "total";
            liti "tax"; liti "gst"; liti "vat"; liti "hst"; liti "pst"; liti "shipping";
            liti "delivery"; liti "freight"; liti "discount"; liti "rebate"; liti "balance";
            cat [liti "amount"; plus space; liti "due"];
            cat [liti "amount"; plus space; liti "paid"];
            cat [liti "total"; plus space; liti "amount"];
            cat [liti "change"; plus space; liti "due"];
            liti "rounding"; liti "tip"; liti "gratuity";
            cat [liti "net"; plus space; liti "amount"];
            liti "gross"; liti "payment"; liti "paid"; liti "tendered"; liti "change";
            liti "due"; liti "owing"];
       Wordb].

(** HEADER_LINE_RX:
    "/(?:description|item\s*name|item|qty|quantity|unit\s*price|unit\s*cost|price|amount|total|tax|sku|product|service|particular|uom|unit\s*of\s*measure|rate|no\.?)\b/i" *)
Definition HEADER_LINE_RX : regex :=
  cat [alt [liti "description"; cat [liti "item"; star space; liti "name"]; liti "item";
            liti "qty"; liti "quantity";
            cat [liti "unit"; star space; liti "price"];
            cat [liti "unit"; star space; liti "cost"];
            liti "price"; liti "amount"; liti "total"; liti "tax"; liti "sku";
            liti "product"; liti "service"; liti "particular"; liti "uom";
            cat [liti "unit"; star space; liti "of"; star space; liti "measure"];
            liti "rate"; cat [liti "no"; opt (lit ".")]];
       Wordb].

(** numPattern: "/([\$EUR GBP INR JPY]\s* )?(\d{1,3}(?:,\d{3})*(?:\.\d{1,4})?)\s*(%)?/g",
    the class holding the five currency signs. *)
Definition numPattern : regex :=
  cat [opt (Grp 1 (cat [Chr is_currency_sign; star space]));
       Grp 2 (cat [rep 1 3 digit; star (cat [lit ","; times 3 digit]);
                   opt (cat [lit "."; rep 1 4 digit])]);
       star space;
       opt (Grp 3 (lit "%"))].

(** "/,/g" *)
Definition RX_COMMA : regex := lit ",".
(** "/\d/" *)
Definition RX_DIGIT : regex := digit.
(** "/\s{2,}/" *)
Definition RX_GAP : regex := atleast 2 space.
(** "/[A-Za-z]{2,}/" *)
Definition RX_ALPHA2 : regex := atleast 2 (Chr is_alpha).

(** The class "[\d,.\s%xX@*]" with the multiplication sign U+00D7. *)
Definition is_num_cluster (c : char) : bool :=
  is_digit c || one_of ",." c || is_space c || one_of "%" c || (c =? 215) || one_of "xX@*" c.

(** "[currency]?\s*\d[\d,.\s%xX@*]*" *)
Definition RX_NUM_CHUNK : regex :=
  cat [opt (Chr is_currency_sign); star space; digit; star (Chr is_num_cluster)].

(** The trailing numeric cluster:
    "/[\s]*(?:[currency]?\s*\d[\d,.\s%xX@*]* )(?:\s+(?:[currency]?\s*\d[\d,.\s%xX@*]* ))*\s*$/" *)
Definition RX_TRAILING_NUMS : regex :=
  cat [star space; RX_NUM_CHUNK; star (cat [plus space; RX_NUM_CHUNK]); star space; Eol false].

(** "/^\d{1,3}[.)\s]+\s*/" *)
Definition RX_ROW_NUMBER : regex :=
  cat [Bol false; rep 1 3 digit; plus (Chr (fun c => one_of ".)" c || is_space c)); star space].

(** "/[-_.]/g" *)
Definition RX_SKU_META : regex := set "-_.".

(** [new RegExp(`(?:SKU|Part\\s*(?:No|#))\\s*[:.]?\\s*${escapedSku}`, "i")]
    where [escapedSku] is the SKU with a backslash before each of "-_.": the
    SKU as a literal. *)
Definition RX_SKU_IN_NAME (escapedSku : jsstring) : regex :=
  cat [alt [liti "SKU"; cat [liti "Part"; star space; alt [liti "No"; lit "#"]]];
       star space; opt (set ":."); star space;
       cat (List.map lit1i (filter (fun c => negb (c =? 92)) escapedSku))].

Record NumToken : Type := Token {
  value : number; tindex : nat; raw : jsstring; isPct : bool
}.

(** [a !== b] for a number and a possibly undefined number *)
Definition differs (a : number) (b : option number) : bool :=
  match b with
  | Some y => negb (Num.eq a y)
  | None => true
  end.

(** The numeric tokens of a line: the [while] loop over [numPattern.exec]. *)
Definition numTokens (rx : regex) (line : jsstring) : list NumToken :=
  flat_map (fun m =>
      let amountText := match group m 2 with Some t => t | None => [] end in
      let v := parseFloat (replace_all_with RX_COMMA [] amountText) in
      if negb (isNaN v) && Num.gt v (Fin 0)
      then [Token v (index m) (whole m)
                  (match group m 3 with Some t => JS.eqb t (str "%") | None => false end)]
      else [])
    (exec_all rx line).

(** [s.replace(p, "")] for a string pattern [p]: the first occurrence. *)
Fixpoint remove_first (p s : jsstring) : jsstring :=
  if starts_with p s then skipn (length p) s
  else match s with
       | [] => []
       | c :: s' => c :: remove_first p s'
       end.

(** The best pair found so far by the double loop of the math validation. *)
Record Best : Type := MkBest { qi : nat; pi : nat; err : number }.

Definition nth_num (l : list number) (i : nat) : number := nth i l NaN.

(** The body of the double loop: the pair ([q], [p]) replaces the best one
    when its error is below 0.05 and below the error of the best. *)
Definition tryPair (nums : list number) (total : number) (q : nat)
                   (best : option Best) (p : nat) : option Best :=
  if Nat.eqb q p then best
  else
    let product := mul (nth_num nums q) (nth_num nums p) in
    let e := div (abs (sub product total)) (max total (Fin 1)) in
    if lt e (Fin (5 # 100)) &&
       match best with None => true | Some b => lt e (err b) end
    then Some (MkBest q p e) else best.

(** The loop over [qi] and [pi]: the first pair of least error below 0.05. *)
Definition find_pair (nums : list number) (total : number) : option Best :=
  fold_left (fun best q => fold_left (tryPair nums total q) (seq 0 (length nums)) best)
            (seq 0 (length nums)) None.

(** The elements whose index is neither [a] nor [b]. *)
Definition others (nums : list number) (a b : nat) : list number :=
  List.map snd
    (filter (fun ix => negb (Nat.eqb (fst ix) a) && negb (Nat.eqb (fst ix) b))
            (combine (seq 0 (length nums)) nums)).

(** The rightmost element that satisfies [keep] (the downward [for] loop). *)
Definition last_such (keep : number -> bool) (nums : list number) : option number :=
  find keep (rev nums).

Definition small_int (n : number) : bool := isInteger n && lt n (Fin 10000).

(** The quantity, unit price and tax amount read from the numbers before the
    total.  [guard] is the extra test of the positional branch
    ([n !== taxPercentage] in [parseLineItem], none in the column table). *)
Definition disambiguate (guard : number -> bool) (nums : list number) (total : number)
  : number * option number * option number :=
  match nums with
  | [] => (Fin 1, None, None)
  | [n] =>
      if isInteger n && lt n (Fin 10000) && gt n (Fin 0) then
        let inferredPrice := div total n in
        if ge inferredPrice (Fin (1 # 100)) && isFinite inferredPrice
        then (n, Some (round_to 4 inferredPrice), None)
        else (Fin 1, Some n, None)
      else (Fin 1, Some n, None)
  | _ =>
      match find_pair nums total with
      | Some b =>
          let remaining := others nums (qi b) (pi b) in
          (nth_num nums (qi b), Some (nth_num nums (pi b)),
           match remaining with [x] => Some x | _ => None end)
      | None =>
          match find (fun n => small_int n && guard n) nums with
          | Some qtyCandidate =>
              (qtyCandidate,
               last_such (fun n => negb (Num.eq n qtyCandidate) && guard n) nums,
               None)
          | None => (Fin 1, Some (last nums NaN), None)
          end
      end
  end.

(** The tax percentage of a line: the first token with a percent sign, or
    else the match of TAX_PERCENT. *)
Definition lineTaxPercentage (trimmed : jsstring) : option number :=
  match find isPct (numTokens numPattern trimmed) with
  | Some pctToken => Some (value pctToken)
  | None =>
      match exec TAX_PERCENT trimmed with
      | Some m => Some (parseFloat (group_text m 1))
      | None => None
      end
  end.

(** [candidateNums]: the numbers of a line that are neither percentages nor
    equal to the tax percentage. *)
Definition lineCandidates (trimmed : jsstring) : list number :=
  List.map value
    (filter (fun t => negb (isPct t) && differs (value t) (lineTaxPercentage trimmed))
            (numTokens numPattern trimmed)).

(** [parseLineItem(line, _lineNum, defaultTaxPct)] *)
Definition parseLineItem (line : jsstring) (_lineNum : nat) (defaultTaxPct : option number)
  : option DataLiftPart :=
  let trimmed := trim line in
  if negb (nonempty trimmed) || Nat.ltb (length trimmed) 4 then None
  else if test SUMMARY_LINE_RX trimmed then None
  else if test HEADER_LINE_RX trimmed && negb (test RX_DIGIT trimmed) then None
  else
  let toks := numTokens numPattern trimmed in
  match toks with
  | [] => None
  | _ =>
  let taxPercentage := lineTaxPercentage trimmed in
  (* SKU *)
  let sku :=
    match exec SKU_LABELED trimmed with
    | Some m => group m 1
    | None =>
        match exec SKU_BARE trimmed with
        | Some m => group m 1
        | None => None
        end
    end in
  let candidateNums := lineCandidates trimmed in
  match candidateNums with
  | [] => None
  | _ =>
  let totalAmount := last candidateNums NaN in
  if le totalAmount (Fin 0) || gt totalAmount (Fin 9999999) then None
  else
  (* item name *)
  let segments := split RX_GAP trimmed in
  let first_segment := match segments with s0 :: _ => s0 | [] => firstn 40 trimmed end in
  let itemName :=
    match find (test RX_ALPHA2) segments with
    | Some seg => trim seg
    | None => []
    end in
  let itemName :=
    if Nat.ltb (length itemName) 2
    then trim (replace_first_with RX_TRAILING_NUMS [] trimmed)
    else itemName in
  let itemName :=
    match sku with
    | Some k =>
        if nonempty k && includes itemName k then
          let escapedSku :=
            replace_all RX_SKU_META (fun m => 92 :: whole m) k in
          let n1 := trim (replace_first_with (RX_SKU_IN_NAME escapedSku) [] itemName) in
          let n2 := if includes n1 k then trim (remove_first k n1) else n1 in
          if nonempty n2 then n2 else first_segment
        else itemName
    | None => itemName
    end in
  let itemName := trim (replace_first_with RX_ROW_NUMBER [] itemName) in
  let itemName := if Nat.ltb (length itemName) 2 then first_segment else itemName in
  (* quantity, unit price, tax amount *)
  let nums := removelast candidateNums in
  let '(quantity, unitPrice, taxAmount) :=
    disambiguate (fun n => differs n taxPercentage) nums totalAmount in
  let unitPrice :=
    match unitPrice with
    | None =>
        if gt quantity (Fin 0) && gt totalAmount (Fin 0)
        then Some (round_to 4 (div totalAmount quantity)) else None
    | Some _ => unitPrice
    end in
  let taxAmount :=
    match taxAmount, taxPercentage, unitPrice with
    | None, Some pct, Some up =>
        Some (round_to 4 (mul (mul quantity up) (div pct (Fin 100))))
    | _, _, _ => taxAmount
    end in
  let '(taxPercentage, taxAmount) :=
    match taxAmount, defaultTaxPct, unitPrice with
    | None, Some pct, Some up =>
        (Some pct, Some (round_to 4 (mul (mul quantity up) (div pct (Fin 100)))))
    | _, _, _ => (taxPercentage, taxAmount)
    end in
  Some (Part itemName None sku None
             (if isNaN quantity then Fin 1 else quantity)
             (option_map (round_to 4) unitPrice)
             taxPercentage taxAmount
             (round_to 4 totalAmount))
  end end.

(** ** Currency, language and document type *)

Record CurrencyInfo : Type := MkCurrency { code : jsstring; symbol : jsstring }.

Definition euro : char := 8364.
Definition pound : char := 163.
Definition rupee : char := 8377.
Definition yen : char := 165.

(** CURRENCY_MAP, each pattern under the [i] flag:
    "A\$|AUD|australian\s+dollar", "\$|USD|US\$|US\s+dollar", "EUR-sign|EUR|euro",
    "GBP-sign|GBP|sterling", "INR-sign|INR|Rs\.", "JPY-sign|JPY|yen", "NZD|NZ\$",
    "CAD|C\$", "SGD|S\$", "AED|dirham". *)
Definition CURRENCY_MAP : list (regex * CurrencyInfo) :=
  [(alt [cat [liti "A"; lit "$"]; liti "AUD"; cat [liti "australian"; plus space; liti "dollar"]],
    MkCurrency (str "AUD") (str "A$"));
   (alt [lit "$"; liti "USD"; cat [liti "US"; lit "$"]; cat [liti "US"; plus space; liti "dollar"]],
    MkCurrency (str "USD") (str "$"));
   (alt [lit1 euro; liti "EUR"; liti "euro"], MkCurrency (str "EUR") [euro]);
   (alt [lit1 pound; liti "GBP"; liti "sterling"], MkCurrency (str "GBP") [pound]);
   (alt [lit1 rupee; liti "INR"; cat [liti "Rs"; lit "."]], MkCurrency (str "INR") [rupee]);
   (alt [lit1 yen; liti "JPY"; liti "yen"], MkCurrency (str "JPY") [yen]);
   (alt [liti "NZD"; cat [liti "NZ"; lit "$"]], MkCurrency (str "NZD") (str "NZ$"));
   (alt [liti "CAD"; cat [liti "C"; lit "$"]], MkCurrency (str "CAD") (str "C$"));
   (alt [liti "SGD"; cat [liti "S"; lit "$"]], MkCurrency (str "SGD") (str "S$"));
   (alt [liti "AED"; liti "dirham"], MkCurrency (str "AED") (str "AED"))].

(** [detectCurrency] *)
Definition detectCurrency (text : jsstring) : CurrencyInfo :=
  match find (fun entry => test (fst entry) text) CURRENCY_MAP with
  | Some entry => snd entry
  | None => MkCurrency (str "USD") (str "$")
  end.

(** "\b(w1|w2|...)\b" *)
Definition words (ws : list regex) : regex := cat [Wordb; Grp 1 (alt ws); Wordb].

(** [detectLanguage] *)
Definition detectLanguage (text : jsstring) : jsstring :=
  let s := toLowerCase (firstn 800 text) in
  if test (words [lit "the"; lit "and"; lit "for"; lit "with"; lit "from"; lit "this";
                  lit "that"; lit "are"; lit "have"; lit "not"; lit "invoice"; lit "receipt";
                  lit "payment"; lit "shipping"; lit "price"; lit "quantity"; lit "amount";
                  lit "order"; lit "discount"; lit "street"; lit "phone"; lit "terms"]) s
  then str "en"
  else if test (words [lit "le"; lit "la"; lit "les"; lit "de"; lit "du"; lit "un";
                       lit "une"; lit "avec"; lit "pour"; lit "pas"]) s
  then str "fr"
  else if test (words [lit "der"; lit "die"; lit "das"; lit "und";
                       cat [lit "f"; lit1 252; lit "r"];
                       lit "mit"; lit "nicht"; lit "ein"; lit "eine"]) s
  then str "de"
  else if test (words [lit "el"; lit "la"; lit "los"; lit "de"; lit "del"; lit "un";
                       lit "una"; lit "con"; lit "para"; lit "que"]) s
  then str "es"
  else if test (words [lit "il"; lit "lo"; lit "la"; lit "e"; lit "di"; lit "del";
                       lit "un"; lit "una"; lit "con"; lit "per"]) s
  then str "it"
  else str "en".

(** The keyword table of [classifyDocumentType], in the order of the keys of
    [scores]; [statement] comes after [bill] and [generic] has no keyword. *)
Definition CLASSIFY_KEYWORDS : list (DataLiftDocumentType * list jsstring) :=
  [(invoice, [str "invoice"; str "inv #"; str "inv no"; str "bill to"; str "amount due";
              str "tax invoice"]);
   (receipt, [str "receipt"; str "thank you for your purchase"; str "cash";
              str "change due"; str "transaction"]);
   (purchase_order, [str "purchase order"; str "p.o."; str "po#"; str "po number";
                     str "ship to"; str "ordered by"]);
   (work_order, [str "work order"; str "wo#"; str "technician"; str "labour";
                 str "asset id"; str "fault"]);
   (bill, [str "bill"; str "billing period"; str "account no"; str "utility";
           str "electricity"; str "gas"]);
   (statement, [str "statement"; str "opening balance"; str "closing balance";
                str "transactions"]);
   (quote, [str "quotation"; str "quote"; str "estimate"; str "valid until"; str "quoted"]);
   (cmms, [str "cmms"; str "maintenance"; str "work request"; str "preventive maintenance"]);
   (supplier_document, [str "vendor"; str "supplier"; str "packing list";
                        str "delivery note"; str "delivery docket"]);
   (contract, [str "contract"; str "agreement"; str "whereas"; str "parties"; str "signed"]);
   (generic, [])].

(** [classifyDocumentType]: [reduce] without an initial value starts from
    the first entry and throws on an empty array. *)
Definition classifyDocumentType (text : jsstring) : Exn.result DataLiftDocumentType :=
  let lower := toLowerCase text in
  let scores :=
    List.map (fun e => (fst e, length (filter (fun kw => includes lower kw) (snd e))))
             CLASSIFY_KEYWORDS in
  match scores with
  | [] => Exn.Throw
  | first :: others =>
      let best := fold_left (fun a b => if Nat.ltb (snd a) (snd b) then b else a) others first in
      Exn.Ok (if Nat.ltb 0 (snd best) then fst best else generic)
  end.

(** ** Labeled amounts *)

(** "[\d,]" *)
Definition is_digit_or_comma (c : char) : bool := is_digit c || one_of "," c.

(** sameLineRx, after the label:
    "(?:\s*\([^)]*\))?[\s\-:]*[A-Z$ and the currency signs]*\s*([\d,]+\.\d+|[\d,]{2,}(?![/\-]))"
    under the [i] flag. *)
Definition sameLineRx (label : regex) : regex :=
  cat [label;
       opt (cat [star space; lit "("; star (Chr (fun c => negb (one_of ")" c))); lit ")"]);
       star (Chr (fun c => is_space c || one_of "-:" c));
       star (Chr (fun c => is_alpha c || is_currency_sign c));
       star space;
       Grp 1 (alt [cat [plus (Chr is_digit_or_comma); lit "."; plus digit];
                   cat [atleast 2 (Chr is_digit_or_comma); NotAhead (set "/-")]])].

(** "/[currency]?\s*([\d,]+\.\d{1,4})/" *)
Definition RX_INLINE_AMOUNT : regex :=
  cat [opt (Chr is_currency_sign); star space;
       Grp 1 (cat [plus (Chr is_digit_or_comma); lit "."; rep 1 4 digit])].

(** "/^(?:sub\s*total|subtotal|total|tax|amount|discount|shipping|net|gross|balance|paid|tender|grand)\b/i" *)
Definition RX_STOP_LABEL : regex :=
  cat [Bol false;
       alt [cat [liti "sub"; star space; liti "total"]; liti "subtotal"; liti "total";
            liti "tax"; liti "amount"; liti "discount"; liti "shipping"; liti "net";
            liti "gross"; liti "balance"; liti "paid"; liti "tender"; liti "grand"];
       Wordb].

(** "/^[currency]?\s*([\d,]+\.\d{1,4})\s*$/" *)
Definition RX_AMOUNT_LINE : regex :=
  cat [Bol false; opt (Chr is_currency_sign); star space;
       Grp 1 (cat [plus (Chr is_digit_or_comma); lit "."; rep 1 4 digit]);
       star space; Eol false].

(** [parseFloat(t.replace(/,/g, ""))] *)
Definition amountOf (t : jsstring) : number :=
  parseFloat (replace_all_with RX_COMMA [] t).

(** The look-ahead of the multi-line phase: up to four following lines. *)
Fixpoint aheadAmount (cands : list jsstring) : option number :=
  match cands with
  | [] => None
  | l :: rest =>
      let trimJ := trim l in
      if test RX_STOP_LABEL trimJ then None
      else
        match exec RX_AMOUNT_LINE trimJ with
        | Some m =>
            match group m 1 with
            | Some t =>
                if nonempty t then
                  let n := amountOf t in
                  if negb (isNaN n) && gt n (Fin 0) then Some n else aheadAmount rest
                else aheadAmount rest
            | None => aheadAmount rest
            end
        | None => aheadAmount rest
        end
  end.

(** The multi-line phase of [extractLabeledAmount]. *)
Fixpoint multiLineAmount (label : regex) (lines : list jsstring) : option number :=
  match lines with
  | [] => None
  | l :: rest =>
      if negb (test label l) then multiLineAmount label rest
      else
        let afterLabel := replace_all_with label [] l in
        let inline :=
          match exec RX_INLINE_AMOUNT afterLabel with
          | Some m =>
              match group m 1 with
              | Some t =>
                  if nonempty t then
                    let n := amountOf t in
                    if negb (isNaN n) && gt n (Fin 0) then Some n else None
                  else None
              | None => None
              end
          | None => None
          end in
        match inline with
        | Some n => Some n
        | None =>
            match aheadAmount (firstn 4 rest) with
            | Some n => Some n
            | None => multiLineAmount label rest
            end
        end
  end.

(** [extractLabeledAmount(text, labelPattern)]; [label] is the pattern
    "(?:labelPattern)" under the [i] flag. *)
Definition extractLabeledAmount (text : jsstring) (label : regex) : option number :=
  let same :=
    match exec (sameLineRx label) text with
    | Some m =>
        match group m 1 with
        | Some t =>
            if nonempty t then
              let n := amountOf t in
              if negb (isNaN n) && ge n (Fin 0) then Some n else None
            else None
        | None => None
        end
    | None => None
    end in
  match same with
  | Some n => Some n
  | None => multiLineAmount label (split_on newline text)
  end.

(** ** Phones, e-mails, URLs *)

(** "[ \t\-.]" *)
Definition is_phone_sep (c : char) : bool := is_sp_tab c || one_of "-." c.

(** PHONE:
    "/(?:\+\d{1,3}[ \t\-.]?)(?:\(?\d{1,4}\)?[ \t\-.]){1,4}\d{2,6}|(?:\(?\d{2,4}\)?[ \t\-.]?\d{3,4}[ \t\-.]?\d{3,4})/g" *)
Definition PHONE : regex :=
  alt [cat [lit "+"; rep 1 3 digit; opt (Chr is_phone_sep);
            rep 1 4 (cat [opt (lit "("); rep 1 4 digit; opt (lit ")"); Chr is_phone_sep]);
            rep 2 6 digit];
       cat [opt (lit "("); rep 2 4 digit; opt (lit ")"); opt (Chr is_phone_sep);
            rep 3 4 digit; opt (Chr is_phone_sep); rep 3 4 digit]].

(** EMAIL: "/[\w.+\-]+@[\w\-]+\.[\w.]{2,}/gi" *)
Definition EMAIL : regex :=
  cat [plus (Chr (fun c => is_word c || one_of ".+-" c)); lit "@";
       plus (Chr (fun c => is_word c || one_of "-" c)); lit ".";
       atleast 2 (Chr (fun c => is_word c || one_of "." c))].

(** URL: "/https?:\/\/[^\s]+|www\.[^\s]+/gi" *)
Definition URL : regex :=
  alt [cat [liti "http"; opt (liti "s"); lit "://"; plus (Chr (non is_space))];
       cat [liti "www"; lit "."; plus (Chr (non is_space))]].

(** [Array.from(new Set(l))] *)
Fixpoint dedupe (l : list jsstring) : list jsstring :=
  match l with
  | [] => []
  | x :: l' => x :: filter (fun y => negb (JS.eqb x y)) (dedupe l')
  end.

(** [p.replace(/\D/g, "")] *)
Definition digitsOf (p : jsstring) : jsstring := replace_all_with (Chr (non is_digit)) [] p.

(** "/^\d{5}-\d{4}$/" *)
Definition RX_ZIP4 : regex := cat [Bol false; times 5 digit; lit "-"; times 4 digit; Eol false].

(** [extractPhones] *)
Definition extractPhones (text : jsstring) : list jsstring :=
  dedupe (filter (fun p => negb (test RX_ZIP4 p))
            (filter (fun p => Nat.leb 7 (length (digitsOf p)))
               (List.map trim (match_all PHONE text)))).

(** [extractEmails] *)
Definition extractEmails (text : jsstring) : list jsstring :=
  dedupe (List.map toLowerCase (match_all EMAIL text)).

(** [extractURLs] *)
Definition extractURLs (text : jsstring) : list jsstring :=
  dedupe (List.map trim (match_all URL text)).

(** ** Addresses *)

Definition AU_STATE_NAMES : regex :=
  alt [lit "NSW"; lit "VIC"; lit "QLD"; lit "SA"; lit "WA"; lit "TAS"; lit "ACT"; lit "NT"].

(** AU_STATES: "/\b(NSW|VIC|QLD|SA|WA|TAS|ACT|NT)\b/" *)
Definition AU_STATES : regex := cat [Wordb; Grp 1 AU_STATE_NAMES; Wordb].

(** AU_SUBURB_STATE_PC:
    "/([A-Za-z][A-Za-z\s]{1,30})\s+(NSW|VIC|QLD|SA|WA|TAS|ACT|NT)\s+(\d{4})/" *)
Definition AU_SUBURB_STATE_PC : regex :=
  cat [Grp 1 (cat [Chr is_alpha; rep 1 30 (Chr (fun c => is_alpha c || is_space c))]);
       plus space; Grp 2 AU_STATE_NAMES; plus space; Grp 3 (times 4 digit)].

Definition COUNTRY_CODES : list (jsstring * jsstring) :=
  [(str "australia", str "AU"); (str "united states", str "US"); (str "usa", str "US");
   (str "u.s.a", str "US"); (str "united kingdom", str "GB"); (str "uk", str "GB");
   (str "india", str "IN"); (str "canada", str "CA"); (str "new zealand", str "NZ");
   (str "nz", str "NZ"); (str "germany", str "DE"); (str "france", str "FR");
   (str "singapore", str "SG")].

(** "/\b(\d{5}(?:-\d{4})?)\b/" *)
Definition RX_ZIP : regex :=
  cat [Wordb; Grp 1 (cat [times 5 digit; opt (cat [lit "-"; times 4 digit])]); Wordb].

(** "/([A-Za-z ]{2,30}),\s*([A-Z]{2})\s+\d{5}/" *)
Definition RX_CITY_STATE_ZIP : regex :=
  cat [Grp 1 (rep 2 30 (Chr (fun c => is_alpha c || one_of " " c))); lit ","; star space;
       Grp 2 (times 2 (Chr is_upper)); plus space; times 5 digit].

(** "/^\d{1,5}\s+\w/" *)
Definition RX_STREET : regex := cat [Bol false; rep 1 5 digit; plus space; word].

(** Truthiness of a possibly undefined string. *)
Definition truthy_str (o : option jsstring) : bool :=
  match o with Some v => nonempty v | None => false end.

(** [block.split("\n").map(l => l.trim()).filter(Boolean)] *)
Definition nonblank_lines (block : jsstring) : list jsstring :=
  filter nonempty (List.map trim (split_on newline block)).

(** [parseAddress] *)
Definition parseAddress (block : jsstring) : Exn.result DataLiftAddress :=
  let lines := nonblank_lines block in
  au <-
    (match exec AU_SUBURB_STATE_PC block with
     | Some auMatch =>
         c <- Exn.must (group auMatch 1) ;;
         Exn.Ok (Some (trim c), group auMatch 2, group auMatch 3, Some (str "AU"))
     | None => Exn.Ok (None, None, None, None)
     end) ;;
  let '(city0, state0, postal0, country0) := au in
  let country1 :=
    if negb (truthy_str country0) then
      match find (fun nc => includes (toLowerCase block) (fst nc)) COUNTRY_CODES with
      | Some nc => Some (snd nc)
      | None => country0
      end
    else country0 in
  us <-
    (if negb (truthy_str postal0) then
       let postal1 :=
         match exec RX_ZIP block with
         | Some zipMatch => group zipMatch 1
         | None => postal0
         end in
       match exec RX_CITY_STATE_ZIP block with
       | Some csz =>
           c <- Exn.must (group csz 1) ;;
           let st := group csz 2 in
           let country2 :=
             if match country1 with Some k => JS.eqb k (str "AU") | None => false end
                && negb (test AU_STATES (match st with Some v => v | None => str "undefined" end))
             then Some (str "US") else country1 in
           let country3 := if negb (truthy_str country2) then Some (str "US") else country2 in
           Exn.Ok (Some (trim c), st, postal1, country3)
       | None => Exn.Ok (city0, state0, postal1, country1)
       end
     else Exn.Ok (city0, state0, postal0, country1)) ;;
  let '(city, state, postalCode, country) := us in
  let street := find (fun line => test RX_STREET line && Nat.ltb 5 (length line)) lines in
  let cityState :=
    if truthy_str city && truthy_str state
    then Some (match city with Some v => v | None => [] end ++ str " "
               ++ match state with Some v => v | None => [] end)
    else orElse city state in
  let parts := filter nonempty
                 (flat_map (fun o => match o with Some v => [v] | None => [] end)
                           [street; cityState; postalCode; country]) in
  Exn.Ok (Address street city state postalCode country
                  (match parts with [] => None | _ => Some (join (str ", ") parts) end)).

(** ** Tax information *)

(** "[\s:#.]*" *)
Definition RX_ID_SEP : regex := star (Chr (fun c => is_space c || one_of ":#." c)).

(** ABN: "/\bABN[\s:#.]*(\d{2}\s?\d{3}\s?\d{3}\s?\d{3})\b/i" *)
Definition ABN : regex :=
  cat [Wordb; liti "ABN"; RX_ID_SEP;
       Grp 1 (cat [times 2 digit; opt space; times 3 digit; opt space; times 3 digit;
                   opt space; times 3 digit]);
       Wordb].

(** ACN: "/\bACN[\s:#.]*(\d{3}\s?\d{3}\s?\d{3})\b/i" *)
Definition ACN : regex :=
  cat [Wordb; liti "ACN"; RX_ID_SEP;
       Grp 1 (cat [times 3 digit; opt space; times 3 digit; opt space; times 3 digit]);
       Wordb].

(** GST_AU: "/\bGST[\s#:.-]*(?:No\.?|Number)?[\s:#.]*([A-Z0-9\-]+)/i" *)
Definition GST_AU : regex :=
  cat [Wordb; liti "GST"; star (Chr (fun c => is_space c || one_of "#:.-" c));
       opt (alt [cat [liti "No"; opt (lit ".")]; liti "Number"]);
       RX_ID_SEP;
       Grp 1 (plus (Chr (fun c => is_alnum_ci c || one_of "-" c)))].

(** EIN: "/\b(?:EIN|Tax\s*ID|Federal\s*Tax)[\s:#.]*(\d{2}-\d{7})\b/i" *)
Definition EIN : regex :=
  cat [Wordb;
       alt [liti "EIN"; cat [liti "Tax"; star space; liti "ID"];
            cat [liti "Federal"; star space; liti "Tax"]];
       RX_ID_SEP; Grp 1 (cat [times 2 digit; lit "-"; times 7 digit]); Wordb].

(** VAT: "/\b(?:VAT|VAT\s*No\.?)[\s:#.]*([A-Z]{2}[\s]?\d{7,12})\b/i" *)
Definition VAT : regex :=
  cat [Wordb;
       alt [liti "VAT"; cat [liti "VAT"; star space; liti "No"; opt (lit ".")]];
       RX_ID_SEP; Grp 1 (cat [times 2 (Chr is_alpha); opt space; rep 7 12 digit]); Wordb].

(** GSTIN:
    "/\b(?:GSTIN|GST\s*No\.?)[\s:#.]*([0-9]{2}[A-Z]{5}[0-9]{4}[A-Z]{1}[1-9A-Z]{1}Z[0-9A-Z]{1})\b/i" *)
Definition GSTIN : regex :=
  cat [Wordb;
       alt [liti "GSTIN"; cat [liti "GST"; star space; liti "No"; opt (lit ".")]];
       RX_ID_SEP;
       Grp 1 (cat [times 2 digit; times 5 (Chr is_alpha); times 4 digit; times 1 (Chr is_alpha);
                   times 1 (Chr (fun c => between 49 57 c || is_alpha c)); liti "Z";
                   times 1 (Chr is_alnum_ci)]);
       Wordb].

(** [t.replace(/\s+/g, " ")] and [t.replace(/\s/g, "")] *)
Definition squeeze (t : jsstring) : jsstring := replace_all_with (plus space) (str " ") t.
Definition unspace (t : jsstring) : jsstring := replace_all_with space [] t.

(** [extractTaxInformation]: [None] when no key was set. *)
Definition extractTaxInformation (text : jsstring) : Exn.result (option DataLiftTaxInformation) :=
  let abn :=
    match exec ABN text with
    | Some m => if truthy_str (group m 1)
                then Some (str "ABN: " ++ trim (squeeze (group_text m 1))) else None
    | None => None
    end in
  let acn :=
    match exec ACN text with
    | Some m => if truthy_str (group m 1) then Some (trim (squeeze (group_text m 1))) else None
    | None => None
    end in
  gst <-
    (match exec GST_AU text with
     | Some m => g <- Exn.must (group m 1) ;; Exn.Ok (Some (trim g))
     | None => Exn.Ok None
     end) ;;
  let ein := match exec EIN text with Some m => group m 1 | None => None end in
  let vat :=
    match exec VAT text with
    | Some m => if truthy_str (group m 1) then Some (unspace (group_text m 1)) else None
    | None => None
    end in
  let gst := match exec GSTIN text with Some m => group m 1 | None => gst end in
  match abn, acn, gst, ein, vat with
  | None, None, None, None, None => Exn.Ok None
  | _, _, _, _, _ => Exn.Ok (Some (TaxInformation ein gst vat abn acn))
  end.

(** ** Supplier and buyer *)

(** "/\d{8,}/" *)
Definition RX_DIGIT8 : regex := atleast 8 digit.

Definition isPhoneLike (p : jsstring) : bool :=
  let digits := digitsOf p in
  if Nat.ltb (length digits) 7 || Nat.ltb 15 (length digits) then false
  else if test RX_DIGIT8 p then false
  else true.

(** [buildSupplier] *)
Definition buildSupplier (nameHint : option jsstring) (headerBlock : jsstring)
  : Exn.result DataLiftSupplier :=
  let phones := extractPhones headerBlock in
  let emails := extractEmails headerBlock in
  let urls := extractURLs headerBlock in
  address <- parseAddress headerBlock ;;
  taxInfo <- extractTaxInformation headerBlock ;;
  let formattedPhone :=
    find (fun p => test (set "()-. ") p && Nat.leb 10 (length (digitsOf p)) && isPhoneLike p)
         phones in
  let fallbackPhone := find isPhoneLike phones in
  Exn.Ok (Supplier (match nameHint with Some n => n | None => [] end)
                   address
                   (Contact (orElse formattedPhone fallbackPhone) (hd_error emails) (hd_error urls))
                   taxInfo).

Definition RX_BUYER_LABELS : regex :=
  alt [cat [liti "bill"; star space; liti "to"]; cat [liti "billed"; star space; liti "to"];
       liti "customer"; liti "buyer";
       cat [liti "sold"; star space; liti "to"]; cat [liti "ship"; star space; liti "to"];
       cat [liti "deliver"; star space; liti "to"]; liti "attn"; liti "attention";
       liti "client";
       cat [liti "account"; star space; alt [liti "name"; liti "holder"]];
       liti "purchaser";
       cat [liti "customer"; star space;
            alt [liti "name"; cat [liti "detail"; opt (liti "s")];
                 cat [liti "info"; opt (liti "rmation")]]]].

(** skipRx of [buildBuyer]:
    "/^(bill\s*to|billed\s*to|customer|buyer|sold\s*to|ship\s*to|deliver\s*to|attn|attention|client|account\s*(?:name|holder)|purchaser|customer\s*(?:name|details?|info(?:rmation)?))\s*[:.]?\s*$/i" *)
Definition buyerSkipRx : regex :=
  cat [Bol false; Grp 1 RX_BUYER_LABELS; star space; opt (set ":."); star space; Eol false].

(** inlineLabelRx of [buildBuyer]:
    "/^(?:bill\s*to|billed\s*to|customer(?:\s*name)?|buyer|sold\s*to|ship\s*to|deliver\s*to|attn|attention|client|account\s*(?:name|holder)|purchaser)\s*[:.]\s*(.+)/i" *)
Definition buyerInlineLabelRx : regex :=
  cat [Bol false;
       alt [cat [liti "bill"; star space; liti "to"]; cat [liti "billed"; star space; liti "to"];
            cat [liti "customer"; opt (cat [star space; liti "name"])]; liti "buyer";
            cat [liti "sold"; star space; liti "to"]; cat [liti "ship"; star space; liti "to"];
            cat [liti "deliver"; star space; liti "to"]; liti "attn"; liti "attention";
            liti "client";
            cat [liti "account"; star space; alt [liti "name"; liti "holder"]];
            liti "purchaser"];
       star space; set ":."; star space; Grp 1 (plus dot)].

(** "/^[\d\s\-().+$,]+$/", the class with the euro, pound, rupee and yen signs *)
Definition RX_NUMERIC_LINE : regex :=
  cat [Bol false;
       plus (Chr (fun c => is_digit c || is_space c || one_of "-().+$," c
                           || (c =? euro) || (c =? pound) || (c =? rupee) || (c =? yen)));
       Eol false].

(** "/^[\w.+-]+@[\w.-]+$/" *)
Definition RX_EMAIL_LINE : regex :=
  cat [Bol false; plus (Chr (fun c => is_word c || one_of ".+-" c)); lit "@";
       plus (Chr (fun c => is_word c || one_of ".-" c)); Eol false].

(** "/^https?:\/\//" and "/^www\./" *)
Definition RX_HTTP_LINE : regex := cat [Bol false; lit "http"; opt (lit "s"); lit "://"].
Definition RX_WWW_LINE : regex := cat [Bol false; lit "www."].

(** "/^(?:attn|attention)[:.]\s*/i" *)
Definition RX_ATTN_PREFIX : regex :=
  cat [Bol false; alt [liti "attn"; liti "attention"]; set ":."; star space].

(** [buildBuyer] *)
Definition buildBuyer (block : jsstring) : Exn.result DataLiftBuyer :=
  let lines := nonblank_lines block in
  let phones := extractPhones block in
  let emails := extractEmails block in
  address <- parseAddress block ;;
  let inline :=
    find (fun v => Nat.ltb 2 (length (trim v)))
         (flat_map (fun line =>
                      match exec buyerInlineLabelRx line with
                      | Some m => match group m 1 with
                                  | Some v => if nonempty v then [v] else []
                                  | None => []
                                  end
                      | None => []
                      end) lines) in
  let name :=
    match inline with
    | Some v => Some (trim v)
    | None => None
    end in
  let name :=
    if negb (truthy_str name) then
      find (fun l =>
              if test buyerSkipRx l then false
              else if Nat.leb (length l) 2 then false
              else if test RX_NUMERIC_LINE l then false
              else if test RX_EMAIL_LINE l then false
              else if test RX_HTTP_LINE l || test RX_WWW_LINE l then false
              else true) lines
    else name in
  let name :=
    match name with
    | Some n => if nonempty n then Some (trim (replace_first_with RX_ATTN_PREFIX [] n)) else name
    | None => None
    end in
  Exn.Ok (Buyer name
                (Some (Address None None None None None
                               (Some (match fullAddress address with
                                      | Some f => f
                                      | None => join (str ", ") lines
                                      end))))
                (Some (Contact (hd_error phones) (hd_error emails) None))).

End Primitives.

(* ================================================================== *)
(** * The rule-based parser (RuleBasedParser) *)

Module Parser.
Import JS Regex Num Schema Primitives.
Local Open Scope N_scope.

(** The first index in [lo, hi) that satisfies [f]. *)
Definition first_index (f : nat -> bool) (lo hi : nat) : option nat :=
  find f (seq lo (hi - lo)).

(** [lines[i]] for an index inside the array. *)
Definition line_at (lines : list jsstring) (i : nat) : jsstring := nth i lines [].

(** The number of keywords of [kws] that [lower] includes. *)
Definition hits (kws : list jsstring) (lower : jsstring) : nat :=
  length (filter (fun kw => includes lower kw) kws).

(** ** Segmentation *)

(** "/^(?:description|item|qty|quantity|part\s*(?:no|#)|sku|unit\s*price|amount|total|bill\s*to|ship\s*to|customer|product|service|particular|rate|no\.?\s|sr\.?\s*no)/i" *)
Definition bodyStartKeywords : regex :=
  cat [Bol false;
       alt [liti "description"; liti "item"; liti "qty"; liti "quantity";
            cat [liti "part"; star space; alt [liti "no"; lit "#"]];
            liti "sku";
            cat [liti "unit"; star space; liti "price"];
            liti "amount"; liti "total";
            cat [liti "bill"; star space; liti "to"];
            cat [liti "ship"; star space; liti "to"];
            liti "customer"; liti "product"; liti "service"; liti "particular"; liti "rate";
            cat [liti "no"; opt (lit "."); space];
            cat [liti "sr"; opt (lit "."); star space; liti "no"]]].

Definition tableHeaderKws : list jsstring :=
  [str "description"; str "item"; str "qty"; str "quantity"; str "unit price";
   str "price"; str "amount"; str "total"; str "tax"; str "sku"; str "product";
   str "rate"; str "particular"].

(** "/^(?:sub\s*total|subtotal|total|tax|gst|vat|shipping|delivery|discount|balance|amount\s+due|net\s+amount|gross\s+amount|grand\s+total)/i" *)
Definition footerKeywords : regex :=
  cat [Bol false;
       alt [cat [liti "sub"; star space; liti "total"]; liti "subtotal"; liti "total";
            liti "tax"; liti "gst"; liti "vat"; liti "shipping"; liti "delivery";
            liti "discount"; liti "balance";
            cat [liti "amount"; plus space; liti "due"];
            cat [liti "net"; plus space; liti "amount"];
            cat [liti "gross"; plus space; liti "amount"];
            cat [liti "grand"; plus space; liti "total"]]].

Record Segments : Type := MkSegments {
  headerLines : list jsstring;
  bodyLines : list jsstring;
  footerLines : list jsstring
}.

(** The index where the header ends. *)
Definition headerEnd (lines : list jsstring) : nat :=
  let total := length lines in
  let h :=
    match first_index (fun i => test bodyStartKeywords (line_at lines i)) 0 (Nat.min 25 total) with
    | Some i => i
    | None => Nat.min 8 total
    end in
  if Nat.eqb h (Nat.min 8 total) then
    match first_index
            (fun i => Nat.leb 2 (hits tableHeaderKws (toLowerCase (line_at lines i))))
            0 (Nat.min 25 total) with
    | Some i => i
    | None => h
    end
  else h.

(** The index where the footer starts.  [Math.floor(total * 0.75)] is
    [3 * total / 4], and [i > total * 0.35] is [20 * i > 7 * total]. *)
Definition footerStart (lines : list jsstring) : nat :=
  let total := length lines in
  match first_index
          (fun i => test footerKeywords (line_at lines i) && Nat.ltb (7 * total) (20 * i))
          (headerEnd lines) total with
  | Some i => i
  | None => Z.to_nat (Z.max (3 * Z.of_nat total / 4) (Z.of_nat total - 15))
  end.

(** [segmentDocument] *)
Definition segmentDocument (lines : list jsstring) : Segments :=
  MkSegments (slice 0 (headerEnd lines) lines)
             (slice (headerEnd lines) (footerStart lines) lines)
             (skipn (footerStart lines) lines).

(** ** Line items: the column table *)

Definition headerKws : list jsstring :=
  [str "description"; str "item"; str "qty"; str "quantity"; str "unit price";
   str "unit cost"; str "price"; str "amount"; str "total"; str "tax"; str "sku";
   str "product"; str "service"; str "particular"; str "rate"; str "no."].

(** "/^(sub\s*total|subtotal|total|grand\s*total|gst|tax|vat|shipping|discount|balance|net\s+amount|gross|amount\s+due)/i" *)
Definition tableFooterRx : regex :=
  cat [Bol false;
       Grp 1 (alt [cat [liti "sub"; star space; liti "total"]; liti "subtotal"; liti "total";
                   cat [liti "grand"; star space; liti "total"];
                   liti "gst"; liti "tax"; liti "vat"; liti "shipping"; liti "discount";
                   liti "balance";
                   cat [liti "net"; plus space; liti "amount"];
                   liti "gross";
                   cat [liti "amount"; plus space; liti "due"]])].

(** numRx: "/([currency]?\s* )(\d{1,3}(?:,\d{3})*(?:\.\d{1,4})?)\s*(%)?/g" *)
Definition numRx : regex :=
  cat [Grp 1 (cat [opt (Chr is_currency_sign); star space]);
       Grp 2 (cat [rep 1 3 digit; star (cat [lit ","; times 3 digit]);
                   opt (cat [lit "."; rep 1 4 digit])]);
       star space;
       opt (Grp 3 (lit "%"))].

(** "/^[\dA-Z][\w\-/.]{2,}$/" *)
Definition RX_CODE : regex :=
  cat [Bol false; Chr (fun c => is_digit c || is_upper c);
       atleast 2 (Chr (fun c => is_word c || one_of "-/." c)); Eol false].

(** "/\s{2,}[\d$,.%]+.*$/" with the euro and pound signs in the class *)
Definition RX_TRAILING_COLUMNS : regex :=
  cat [atleast 2 space;
       plus (Chr (fun c => is_digit c || one_of "$,.%" c || (c =? 8364) || (c =? 163)));
       star dot; Eol false].

(** "/\d{2,}/" *)
Definition RX_DIGIT2 : regex := atleast 2 digit.

(** [inferTaxPct] *)
Definition inferTaxPct (line : jsstring) : option number :=
  match exec TAX_PERCENT line with
  | Some m => Some (parseFloat (group_text m 1))
  | None => None
  end.

(** The candidate name of a table row, before the check of its letters. *)
Definition columnCandidateName (line : jsstring) : jsstring :=
  let segs := filter nonempty (List.map trim (split RX_GAP line)) in
  let itemName :=
    match find (test RX_ALPHA2) segs with
    | Some seg => seg
    | None => []
    end in
  let itemName :=
    if Nat.ltb (length itemName) 2
    then firstn 80 (trim (replace_first_with RX_TRAILING_COLUMNS [] line))
    else itemName in
  trim (replace_first_with RX_ROW_NUMBER [] itemName).

(** The name check of the column table: at least two characters and a run of
    two letters. *)
Definition columnNameRejected (itemName : jsstring) : bool :=
  Nat.ltb (length itemName) 2 || negb (test RX_ALPHA2 itemName).

(** One row of the table.  [next] is the line after it, if any; the boolean
    of the result tells whether that line was taken as the description.
    [None] is a [continue]. *)
Definition columnRow (line : jsstring) (next : option jsstring)
  : option (DataLiftPart * bool) :=
  let nums := numTokens numRx line in
  match nums with
  | [] => None
  | _ =>
  let taxPct := inferTaxPct line in
  let candidateNums :=
    List.map value (filter (fun n => negb (isPct n) && differs (value n) taxPct) nums) in
  match candidateNums with
  | [] => None
  | _ =>
  let segs := filter nonempty (List.map trim (split RX_GAP line)) in
  let partNumber :=
    find (fun seg => negb (test RX_ALPHA2 seg) && test RX_CODE seg && test RX_DIGIT seg) segs in
  let itemName := columnCandidateName line in
  if columnNameRejected itemName then None
  else
  let total := last candidateNums NaN in
  let rest := removelast candidateNums in
  let '(quantity, unitPrice, taxAmount) := disambiguate (fun _ => true) rest total in
  let unitPrice :=
    match unitPrice with
    | None =>
        if gt quantity (Fin 0) && gt total (Fin 0)
        then Some (round_to 4 (div total quantity)) else None
    | Some _ => unitPrice
    end in
  let taxAmount :=
    match taxAmount, taxPct, unitPrice with
    | None, Some pct, Some up =>
        Some (round_to 4 (mul (mul quantity up) (div pct (Fin 100))))
    | _, _, _ => taxAmount
    end in
  let description :=
    match next with
    | Some l =>
        let nextLine := trim l in
        if Nat.ltb 3 (length nextLine) && negb (test RX_DIGIT2 nextLine)
           && negb (test tableFooterRx nextLine) && test RX_ALPHA2 nextLine
        then Some nextLine else None
    | None => None
    end in
  let skuM :=
    match exec SKU_LABELED itemName with
    | Some m => Some m
    | None => exec SKU_BARE itemName
    end in
  let sku := match skuM with Some m => group m 1 | None => None end in
  let finalPartNumber := match partNumber with Some pn => Some pn | None => sku end in
  let shownName :=
    match skuM, sku with
    | Some m, Some k =>
        if nonempty k then
          let stripped := trim (remove_first (whole m) itemName) in
          if nonempty stripped then stripped else itemName
        else itemName
    | _, _ => itemName
    end in
  Some (Part shownName description sku finalPartNumber
             (if isNaN quantity then Fin 1 else quantity)
             (option_map (round_to 4) unitPrice)
             taxPct taxAmount (round_to 4 total),
        match description with Some _ => true | None => false end)
  end end.

(** The loop over the rows after the header row; [skip] is set when the
    previous row took this line as its description. *)
Fixpoint columnRows (skip : bool) (rows : list jsstring) : list DataLiftPart :=
  match rows with
  | [] => []
  | line :: rest =>
      if skip then columnRows false rest
      else if test tableFooterRx (trim line) then []
      else if Nat.ltb (length (trim line)) 4 then columnRows false rest
      else
        match columnRow line (hd_error rest) with
        | Some (item, took) => item :: columnRows took rest
        | None => columnRows false rest
        end
  end.

(** [extractFromColumnTable] *)
Definition extractFromColumnTable (lines : list jsstring) : list DataLiftPart :=
  match first_index (fun i => Nat.leb 2 (hits headerKws (toLowerCase (line_at lines i))))
                    0 (length lines) with
  | None => []
  | Some headerIdx => columnRows false (skipn (S headerIdx) lines)
  end.

(** ** Line items: multi-line blocks *)

(** "/^(sub\s*total|subtotal|total|gst|tax|vat|shipping|discount|balance)/i" *)
Definition multiFooterRx : regex :=
  cat [Bol false;
       Grp 1 (alt [cat [liti "sub"; star space; liti "total"]; liti "subtotal"; liti "total";
                   liti "gst"; liti "tax"; liti "vat"; liti "shipping"; liti "discount";
                   liti "balance"])].

(** descOnlyRx: "/^[A-Za-z][^$\d]*$/" with the euro and pound signs in the class *)
Definition descOnlyRx : regex :=
  cat [Bol false; Chr is_alpha;
       star (Chr (fun c => negb (one_of "$" c || (c =? 8364) || (c =? 163) || is_digit c)));
       Eol false].

(** The loop of [extractMultiLineItems]; [skip] counts the following lines
    already taken as description or SKU, [i] is the index of the line. *)
Fixpoint multiRows (skip : nat) (i : nat) (rows : list jsstring) : list DataLiftPart :=
  match rows with
  | [] => []
  | line :: rest =>
      match skip with
      | S k => multiRows k (S i) rest
      | O =>
          if test multiFooterRx (trim line) then []
          else
            match parseLineItem line (i + 1) None with
            | None => multiRows 0 (S i) rest
            | Some item =>
                let desc :=
                  match rest with
                  | l :: _ =>
                      let next := trim l in
                      if Nat.ltb 3 (length next) && test descOnlyRx next
                         && negb (test multiFooterRx next)
                      then Some next else None
                  | [] => None
                  end in
                let after_desc := match desc with Some _ => tl rest | None => rest end in
                let skuM :=
                  match rest, after_desc with
                  | _ :: _, l :: _ => exec SKU_LABELED (trim l)
                  | _, _ => None
                  end in
                let item1 :=
                  Part (itemName item)
                       (match desc with Some d => Some d | None => description item end)
                       (match skuM with Some m => group m 1 | None => sku item end)
                       (partNumber item) (quantity item) (unitPrice item)
                       (taxPercentage item) (taxAmount item) (totalAmount item) in
                item1 :: multiRows ((match desc with Some _ => 1 | None => 0 end)
                                    + (match skuM with Some _ => 1 | None => 0 end))%nat
                                   (S i) rest
            end
      end
  end.

(** [extractMultiLineItems] *)
Definition extractMultiLineItems (lines : list jsstring) : list DataLiftPart :=
  multiRows 0 0 lines.

(** ** Line items: the vertical form *)

(** The values of [labelMap].  [labelMap] is an object literal, so the keys
    "constructor" and "__proto__" are found too, through its prototype; their
    values are objects, which are truthy and serve as keys of [collected]
    like the field names do. *)
Inductive Field : Type :=
| FPartNumber | FDescription | FQuantity | FUnitPrice | FListPrice | FTotal
| FCoreDeposit | FInheritedConstructor | FInheritedProto.

Definition field_eqb (a b : Field) : bool :=
  match a, b with
  | FPartNumber, FPartNumber | FDescription, FDescription | FQuantity, FQuantity
  | FUnitPrice, FUnitPrice | FListPrice, FListPrice | FTotal, FTotal
  | FCoreDeposit, FCoreDeposit | FInheritedConstructor, FInheritedConstructor
  | FInheritedProto, FInheritedProto => true
  | _, _ => false
  end.

Definition labelTable : list (jsstring * Field) :=
  [(str "part number", FPartNumber); (str "part no", FPartNumber);
   (str "part#", FPartNumber); (str "item no", FPartNumber);
   (str "item number", FPartNumber);
   (str "description", FDescription); (str "line description", FDescription);
   (str "item description", FDescription);
   (str "quantity", FQuantity); (str "qty", FQuantity);
   (str "net", FUnitPrice); (str "unit price", FUnitPrice); (str "unit cost", FUnitPrice);
   (str "price", FListPrice);
   (str "total", FTotal); (str "line total", FTotal); (str "amount", FTotal);
   (str "core deposit", FCoreDeposit);
   (str "constructor", FInheritedConstructor); (str "__proto__", FInheritedProto)].

(** [labelMap[key]] *)
Definition labelMap (key : jsstring) : option Field :=
  option_map snd (find (fun kv => JS.eqb (fst kv) key) labelTable).

Definition numericField (f : Field) : bool :=
  match f with
  | FQuantity | FUnitPrice | FListPrice | FTotal | FCoreDeposit => true
  | _ => false
  end.

(** [collected]: the fields recorded so far, with their values. *)
Definition Collected := list (Field * jsstring).

Definition collected_get (c : Collected) (f : Field) : option jsstring :=
  option_map snd (find (fun kv => field_eqb (fst kv) f) c).

(** Truthiness of [collected[f]]. *)
Definition has_value (c : Collected) (f : Field) : bool :=
  match collected_get c f with Some v => nonempty v | None => false end.

(** [collected[f] = v] *)
Definition collected_set (c : Collected) (f : Field) (v : jsstring) : Collected :=
  (f, v) :: filter (fun kv => negb (field_eqb (fst kv) f)) c.

(** "/[:.]+$/" *)
Definition RX_LABEL_END : regex := cat [plus (set ":."); Eol false].

(** [s.trim().toLowerCase().replace(/[:.]+$/, "").trim()] *)
Definition labelKey (s : jsstring) : jsstring :=
  trim (replace_first_with RX_LABEL_END [] (toLowerCase (trim s))).

(** [s.toLowerCase().replace(/[:.]+$/, "").trim()] *)
Definition valueKey (s : jsstring) : jsstring :=
  trim (replace_first_with RX_LABEL_END [] (toLowerCase s)).

(** "/^(?:sub\s*total|subtotal|total|tax|gst|vat|shipping)/i" *)
Definition RX_TOTALS_LABEL : regex :=
  cat [Bol false;
       alt [cat [liti "sub"; star space; liti "total"]; liti "subtotal"; liti "total";
            liti "tax"; liti "gst"; liti "vat"; liti "shipping"]].

(** The look-ahead of one label: the first non-empty line among the next two
    decides. *)
Fixpoint labelValue (field : Field) (cands : list jsstring) : option jsstring :=
  match cands with
  | [] => None
  | l :: rest =>
      let val := trim l in
      if negb (nonempty val) then labelValue field rest
      else
        match labelMap (valueKey val) with
        | Some _ => None
        | None =>
            if test RX_TOTALS_LABEL val then None
            else if numericField field && negb (test RX_DIGIT val) then None
            else Some val
        end
  end.

(** The first loop of [extractVerticalFormItems]: the labels and their
    values. *)
Fixpoint collectLabels (rows : list jsstring) (c : Collected) (found : nat)
  : Collected * nat :=
  match rows with
  | [] => (c, found)
  | l :: rest =>
      match labelMap (labelKey l) with
      | Some field =>
          match labelValue field (firstn 2 rest) with
          | Some val =>
              if has_value c field then collectLabels rest c found
              else collectLabels rest (collected_set c field val) (S found)
          | None => collectLabels rest c found
          end
      | None => collectLabels rest c found
      end
  end.

(** "/\bqty\s*[:.]?\s*(\d+)\b/i" *)
Definition RX_QTY_INLINE : regex :=
  cat [Wordb; liti "qty"; star space; opt (set ":."); star space; Grp 1 (plus digit); Wordb].

(** The second loop: inline quantities. *)
Fixpoint collectInlineQty (rows : list jsstring) (c : Collected) (found : nat)
  : Collected * nat :=
  match rows with
  | [] => (c, found)
  | l :: rest =>
      match exec RX_QTY_INLINE l with
      | Some m =>
          if has_value c FQuantity then collectInlineQty rest c found
          else collectInlineQty rest (collected_set c FQuantity (group_text m 1)) (S found)
      | None => collectInlineQty rest c found
      end
  end.

(** "/^(?:part\s*number|description)/i" *)
Definition RX_LABEL_REGION : regex :=
  cat [Bol false; alt [cat [liti "part"; star space; liti "number"]; liti "description"]].

(** "/^(?:sub\s*total|subtotal|total|tax|gst|vat|invoice|customer|employee|sales|salesman|attention|terms|delivery|tender|paid)/i" *)
Definition RX_REGION_END : regex :=
  cat [Bol false;
       alt [cat [liti "sub"; star space; liti "total"]; liti "subtotal"; liti "total";
            liti "tax"; liti "gst"; liti "vat"; liti "invoice"; liti "customer";
            liti "employee"; liti "sales"; liti "salesman"; liti "attention"; liti "terms";
            liti "delivery"; liti "tender"; liti "paid"]].

(** "/[A-Za-z]{3,}/" *)
Definition RX_ALPHA3 : regex := atleast 3 (Chr is_alpha).
(** "/^[\d\-./#]+$/" *)
Definition RX_PURE_CODE : regex :=
  cat [Bol false; plus (Chr (fun c => is_digit c || one_of "-./#" c)); Eol false].

(** The description found in the label region when no label gave one. *)
Fixpoint regionDescription (partNo : jsstring) (rows : list jsstring) : option jsstring :=
  match rows with
  | [] => None
  | l :: rest =>
      let trimmed := trim l in
      if negb (nonempty trimmed) || Nat.ltb (length trimmed) 5
      then regionDescription partNo rest
      else
        match labelMap (valueKey trimmed) with
        | Some _ => regionDescription partNo rest
        | None =>
            if test RX_REGION_END trimmed then None
            else if test RX_ALPHA3 trimmed && negb (test RX_PURE_CODE trimmed) then
              if JS.eqb trimmed partNo then regionDescription partNo rest
              else Some trimmed
            else regionDescription partNo rest
        end
  end.

(** [array.findIndex] *)
Fixpoint findIndex {A} (f : A -> bool) (l : list A) : option nat :=
  match l with
  | [] => None
  | x :: l' => if f x then Some 0%nat else option_map S (findIndex f l')
  end.

(** "/[^0-9.]/g" *)
Definition RX_NON_NUMERIC : regex := Chr (fun c => negb (is_digit c || one_of "." c)).

(** [parseAmt] *)
Definition parseAmt (s : option jsstring) : option number :=
  match s with
  | None => None
  | Some t =>
      if nonempty t then
        let n := parseFloat (replace_all_with RX_NON_NUMERIC [] t) in
        if isNaN n then None else Some n
      else None
  end.

(** Truthiness of a possibly undefined number. *)
Definition truthy_opt (a : option number) : bool :=
  match a with Some x => truthy x | None => false end.

(** "/^\$?\s*([\d,]+\.\d{1,4})\s*$/" *)
Definition RX_STANDALONE_AMOUNT : regex :=
  cat [Bol false; opt (lit "$"); star space;
       Grp 1 (cat [plus (Chr (fun c => is_digit c || one_of "," c)); lit "."; rep 1 4 digit]);
       star space; Eol false].

(** The amount of the core deposit found after the value of the total;
    [amtM[1].replace] reads a property of the capture. *)
Fixpoint depositAfterTotal (rows : list jsstring) : Exn.result (option number) :=
  match rows with
  | [] => Exn.Ok None
  | l :: rest =>
      match exec RX_STANDALONE_AMOUNT (trim l) with
      | Some amtM =>
          g <- Exn.must (group amtM 1) ;;
          let amt := amountOf g in
          if gt amt (Fin 2) then Exn.Ok (Some amt) else depositAfterTotal rest
      | None => depositAfterTotal rest
      end
  end.

(** [extractVerticalFormItems] *)
Definition extractVerticalFormItems (allLines : list jsstring)
  : Exn.result (list DataLiftPart) :=
  let '(c, found) := collectLabels allLines [] 0%nat in
  let '(c, found) := collectInlineQty allLines c found in
  let c :=
    if negb (has_value c FDescription) && has_value c FPartNumber then
      match findIndex (fun l => test RX_LABEL_REGION (trim l)) allLines with
      | Some startIdx =>
          match regionDescription
                  (match collected_get c FPartNumber with Some v => v | None => [] end)
                  (skipn (S startIdx) allLines) with
          | Some d => collected_set c FDescription d
          | None => c
          end
      | None => c
      end
    else c in
  if Nat.ltb found 2 || (negb (has_value c FDescription) && negb (has_value c FPartNumber))
  then Exn.Ok []
  else
    let unitPrice :=
      orElse (parseAmt (collected_get c FUnitPrice)) (parseAmt (collected_get c FListPrice)) in
    let total := orElse (parseAmt (collected_get c FTotal)) unitPrice in
    let quantity :=
      match parseAmt (collected_get c FQuantity) with Some q => q | None => Fin 1 end in
    if negb (truthy_opt total) && negb (truthy_opt unitPrice) then Exn.Ok []
    else
      let item :=
        Part (match collected_get c FDescription with
              | Some d => d
              | None => match collected_get c FPartNumber with Some v => v | None => [] end
              end)
             None None (collected_get c FPartNumber) quantity
             (orElse unitPrice
                     (if truthy_opt total
                      then option_map (fun t => round_to 4 (div t quantity)) total
                      else None))
             None None
             (match total with
              | Some t => t
              | None =>
                  match unitPrice with
                  | Some up => if truthy up then round_to 4 (mul up quantity) else Fin 0
                  | None => Fin 0
                  end
              end) in
      let coreDeposit := parseAmt (collected_get c FCoreDeposit) in
      coreDeposit <-
        (match coreDeposit, collected_get c FTotal with
         | Some cd, Some totalVal =>
             if le cd (Fin 2) && nonempty totalVal then
               match findIndex (fun l => JS.eqb (trim l) totalVal) allLines with
               | Some totalIdx =>
                   found <- depositAfterTotal (firstn 3 (skipn (S totalIdx) allLines)) ;;
                   Exn.Ok (orElse found coreDeposit)
               | None => Exn.Ok coreDeposit
               end
             else Exn.Ok coreDeposit
         | _, _ => Exn.Ok coreDeposit
         end) ;;
      match coreDeposit with
      | Some cd =>
          if truthy cd && gt cd (Fin 0)
          then Exn.Ok [item; Part (str "Core Deposit") None None None (Fin 1) (Some cd) None None cd]
          else Exn.Ok [item]
      | None => Exn.Ok [item]
      end.

(** ** Line items: the strategies in order *)

(** The single-line heuristic: [parseLineItem] on every line. *)
Definition perLine (lines : list jsstring) : list DataLiftPart :=
  flat_map (fun il => match parseLineItem (snd il) (fst il + 1) None with
                      | Some item => [item]
                      | None => []
                      end)
           (combine (seq 0 (length lines)) lines).

Definition is_nil {A} (l : list A) : bool :=
  match l with [] => true | _ => false end.

(** [extractParts] *)
Definition extractParts (bodyLines allLines : list jsstring)
  : Exn.result (list DataLiftPart) :=
  let tableItems := extractFromColumnTable bodyLines in
  if negb (is_nil tableItems) then Exn.Ok tableItems
  else
    verticalItems <- extractVerticalFormItems allLines ;;
    if negb (is_nil verticalItems) then Exn.Ok verticalItems
    else
      let multiItems := extractMultiLineItems bodyLines in
      if negb (is_nil multiItems) then Exn.Ok multiItems
      else
        let items := perLine bodyLines in
        if negb (is_nil items) then Exn.Ok items
        else Exn.Ok (perLine allLines).

(** ** Supplier name *)

(** CORP_SUFFIX_RX:
    "/\b(pty\.?\s*ltd|inc\.?|llc\.?|ltd\.?|co\.?|corp\.?|company|group|services|solutions|enterprises?|holdings?|industries|gmbh|bv|sa)\b/i" *)
Definition CORP_SUFFIX_RX : regex :=
  cat [Wordb;
       Grp 1 (alt [cat [liti "pty"; opt (lit "."); star space; liti "ltd"];
                   cat [liti "inc"; opt (lit ".")]; cat [liti "llc"; opt (lit ".")];
                   cat [liti "ltd"; opt (lit ".")]; cat [liti "co"; opt (lit ".")];
                   cat [liti "corp"; opt (lit ".")]; liti "company"; liti "group";
                   liti "services"; liti "solutions";
                   cat [liti "enterprise"; opt (liti "s")];
                   cat [liti "holding"; opt (liti "s")];
                   liti "industries"; liti "gmbh"; liti "bv"; liti "sa"]);
       Wordb].

(** SKIP_HEADER_WORDS:
    "/^(invoice|tax\s+invoice|receipt|bill|quote|statement|date|no\.?|number|page|purchase\s+order|delivery|packing|from|to)\b/i" *)
Definition SKIP_HEADER_WORDS : regex :=
  cat [Bol false;
       Grp 1 (alt [liti "invoice"; cat [liti "tax"; plus space; liti "invoice"];
                   liti "receipt"; liti "bill"; liti "quote"; liti "statement"; liti "date";
                   cat [liti "no"; opt (lit ".")]; liti "number"; liti "page";
                   cat [liti "purchase"; plus space; liti "order"];
                   liti "delivery"; liti "packing"; liti "from"; liti "to"]);
       Wordb].

(** "/^[A-Z][A-Z\s&.,'-]{4,}$/" *)
Definition RX_ALL_CAPS : regex :=
  cat [Bol false; Chr is_upper;
       atleast 4 (Chr (fun c => is_upper c || is_space c || one_of "&.,'-" c)); Eol false].

(** The shortest line among those that carry a corporate suffix, the first
    of them on a tie. *)
Definition bestCorpLine (candidates : list jsstring) : option jsstring :=
  fold_left (fun best line =>
      if Nat.ltb (length line) 3 then best
      else if test SKIP_HEADER_WORDS line then best
      else if test CORP_SUFFIX_RX line then
        match best with
        | Some b => if nonempty b && negb (Nat.ltb (length line) (length b))
                    then best else Some (trim line)
        | None => Some (trim line)
        end
      else best)
    candidates None.

(** The first line that is neither a label nor too short or too long. *)
Definition firstMeaningful (candidates : list jsstring) : option jsstring :=
  find (fun l => Nat.ltb 3 (length l) && Nat.leb (length l) 60
                 && negb (test SKIP_HEADER_WORDS l)) candidates.

(** [extractSupplierName] *)
Definition extractSupplierName (headerLines : list jsstring) : option jsstring :=
  match headerLines with
  | [] => None
  | _ =>
      let candidates := firstn 8 headerLines in
      match find (fun line =>
                    negb (Nat.ltb (length line) 3 || Nat.ltb 60 (length line))
                    && negb (test SKIP_HEADER_WORDS line) && test RX_ALL_CAPS line)
                 candidates with
      | Some line => Some (trim line)
      | None =>
          match bestCorpLine candidates with
          | Some b => if nonempty b then Some b else firstMeaningful candidates
          | None => firstMeaningful candidates
          end
      end
  end.

(** ** Buyer *)

(** skipLineRx:
    "/customer\s+signature|agree\s+to\s+pay|card\s+issuer|all\s+goods\s+returned|napa\s+cash/i" *)
Definition skipLineRx : regex :=
  alt [cat [liti "customer"; plus space; liti "signature"];
       cat [liti "agree"; plus space; liti "to"; plus space; liti "pay"];
       cat [liti "card"; plus space; liti "issuer"];
       cat [liti "all"; plus space; liti "goods"; plus space; liti "returned"];
       cat [liti "napa"; plus space; liti "cash"]].

(** sectionKeywords:
    "/^(?:bill\s*to|billed\s*to|buyer|customer(?:\s*(?:name|details?|info(?:rmation)?))?|sold\s*to|ship\s*to|deliver\s*to|client|purchaser|account\s*holder)\s*[:.]*\s*$/i" *)
Definition sectionKeywords : regex :=
  cat [Bol false;
       alt [cat [liti "bill"; star space; liti "to"]; cat [liti "billed"; star space; liti "to"];
            liti "buyer";
            cat [liti "customer";
                 opt (cat [star space;
                           alt [liti "name"; cat [liti "detail"; opt (liti "s")];
                                cat [liti "info"; opt (liti "rmation")]]])];
            cat [liti "sold"; star space; liti "to"]; cat [liti "ship"; star space; liti "to"];
            cat [liti "deliver"; star space; liti "to"]; liti "client"; liti "purchaser";
            cat [liti "account"; star space; liti "holder"]];
       star space; star (set ":."); star space; Eol false].

(** inlineLabelRx of [extractBuyer]:
    "/^(?:bill\s*to|billed\s*to|buyer|customer(?:\s*name)?|sold\s*to|ship\s*to|deliver\s*to|client|purchaser|account\s*holder)\s*[:.]?\s+(.+)/i" *)
Definition inlineLabelRx : regex :=
  cat [Bol false;
       alt [cat [liti "bill"; star space; liti "to"]; cat [liti "billed"; star space; liti "to"];
            liti "buyer"; cat [liti "customer"; opt (cat [star space; liti "name"])];
            cat [liti "sold"; star space; liti "to"]; cat [liti "ship"; star space; liti "to"];
            cat [liti "deliver"; star space; liti "to"]; liti "client"; liti "purchaser";
            cat [liti "account"; star space; liti "holder"]];
       star space; opt (set ":."); plus space; Grp 1 (plus dot)].

(** "/^(?:attn|attention)\s*[:.]+\s*(.+)/i" *)
Definition RX_ATTENTION : regex :=
  cat [Bol false; alt [liti "attn"; liti "attention"]; star space; plus (set ":.");
       star space; Grp 1 (plus dot)].

(** The first loop of [extractBuyer]: the start of the buyer section and the
    name on the label line, if any. *)
Fixpoint buyerSection (i : nat) (rows : list jsstring) : option (nat * option jsstring) :=
  match rows with
  | [] => None
  | l :: rest =>
      if test skipLineRx l then buyerSection (S i) rest
      else
        let inlineName :=
          match exec inlineLabelRx l with
          | Some m =>
              match group m 1 with
              | Some v =>
                  if nonempty v && Nat.ltb 2 (length (trim v)) && negb (test skipLineRx v)
                  then Some (trim v) else None
              | None => None
              end
          | None => None
          end in
        match inlineName with
        | Some n => Some (S i, Some n)
        | None =>
            if test sectionKeywords l then Some (S i, None)
            else buyerSection (S i) rest
        end
  end.

Definition emptyBuyer : DataLiftBuyer := Buyer None None None.

(** [extractBuyer] *)
Definition extractBuyer (_fullText : jsstring) (lines : list jsstring)
  : Exn.result DataLiftBuyer :=
  match buyerSection 0 lines with
  | Some (sectionStart, inlineName) =>
      b <- buildBuyer (join [newline] (slice sectionStart (sectionStart + 8) lines)) ;;
      Exn.Ok (if truthy_str inlineName
              then Buyer inlineName (buyerAddress b) (buyerContact b) else b)
  | None =>
      match find (fun v => Nat.ltb 2 (length (trim v)))
                 (flat_map (fun l =>
                              match exec RX_ATTENTION l with
                              | Some m => match group m 1 with
                                          | Some v => if nonempty v then [v] else []
                                          | None => []
                                          end
                              | None => []
                              end) lines) with
      | Some v => Exn.Ok (Buyer (Some (trim v)) None None)
      | None => Exn.Ok emptyBuyer
      end
  end.

(** ** Transaction *)

(** "[^\S\n]": a blank other than the line feed. *)
Definition is_blank (c : char) : bool := is_space c && negb (c =? 10).
Definition blanks : regex := star (Chr is_blank).

(** "([A-Z0-9][\w\-/]{1,30})" under the [i] flag *)
Definition RX_NUMBER_VALUE (hi : nat) : regex :=
  Grp 1 (cat [Chr is_alnum_ci; rep 1 hi (Chr (fun c => is_word c || one_of "-/" c))]).

(** invRx:
    "/(?:invoice[^\S\n]*(?:no\.?|#|number)[^\S\n]*:?|tax[^\S\n]+invoice[^\S\n]*(?:no\.?|#)[^\S\n]*:?|inv[^\S\n]*[#:]|einvoice[^\S\n]*[#:])[^\S\n]*([A-Z0-9][\w\-/]{1,30})/i" *)
Definition invRx : regex :=
  cat [alt [cat [liti "invoice"; blanks;
                 alt [cat [liti "no"; opt (lit ".")]; lit "#"; liti "number"];
                 blanks; opt (lit ":")];
            cat [liti "tax"; plus (Chr is_blank); liti "invoice"; blanks;
                 alt [cat [liti "no"; opt (lit ".")]; lit "#"]; blanks; opt (lit ":")];
            cat [liti "inv"; blanks; set "#:"];
            cat [liti "einvoice"; blanks; set "#:"]];
       blanks; RX_NUMBER_VALUE 30].

(** "/^\s*(?:invoice\s*(?:no\.?|#|number)|einvoice\s*[#:]?)\s*:?\s*$/i" *)
Definition invLabelLineRx : regex :=
  cat [Bol false; star space;
       alt [cat [liti "invoice"; star space;
                 alt [cat [liti "no"; opt (lit ".")]; lit "#"; liti "number"]];
            cat [liti "einvoice"; star space; opt (set "#:")]];
       star space; opt (lit ":"); star space; Eol false].

(** "/^[A-Z0-9][\w\-/]{1,30}$/i" *)
Definition valueLineRx : regex :=
  cat [Bol false; Chr is_alnum_ci; rep 1 30 (Chr (fun c => is_word c || one_of "-/" c));
       Eol false].

(** poRx:
    "/(?:p\.?o\.?[^\S\n]*[#:]+|purchase[^\S\n]*order[^\S\n]*(?:no\.?|#|number)[^\S\n]*[#:]* )[^\S\n]*:?[^\S\n]*([A-Z0-9][\w\-/]{1,30})/i" *)
Definition poRx : regex :=
  cat [alt [cat [liti "p"; opt (lit "."); liti "o"; opt (lit "."); blanks; plus (set "#:")];
            cat [liti "purchase"; blanks; liti "order"; blanks;
                 alt [cat [liti "no"; opt (lit ".")]; lit "#"; liti "number"];
                 blanks; star (set "#:")]];
       blanks; opt (lit ":"); blanks; RX_NUMBER_VALUE 30].

(** "/^\s*(?:p\.?o\.?\s*[#:]?|purchase\s*order\s*(?:no\.?|#|number)?)\s*:?\s*$/i" *)
Definition poLabelLineRx : regex :=
  cat [Bol false; star space;
       alt [cat [liti "p"; opt (lit "."); liti "o"; opt (lit "."); star space; opt (set "#:")];
            cat [liti "purchase"; star space; liti "order"; star space;
                 opt (alt [cat [liti "no"; opt (lit ".")]; lit "#"; liti "number"])]];
       star space; opt (lit ":"); star space; Eol false].

(** The multi-line fallback: a line that is only the label, and the value on
    one of the next two lines.  The last line is never taken as a label. *)
Fixpoint labelThenValue (labelRx : regex) (lines : list jsstring) : option jsstring :=
  match lines with
  | [] => None
  | l :: rest =>
      match rest with
      | [] => None
      | _ =>
          if test labelRx l then
            match find (fun val => nonempty val && test valueLineRx val)
                       (List.map trim (firstn 2 rest)) with
            | Some val => Some val
            | None => labelThenValue labelRx rest
            end
          else labelThenValue labelRx rest
      end
  end.

(** The number found by a label, on its line or on the following ones. *)
Definition labeledNumber (rx labelLineRx : regex) (fullText : jsstring)
  : Exn.result (option jsstring) :=
  match exec rx fullText with
  | Some m => g <- Exn.must (group m 1) ;; Exn.Ok (Some (trim g))
  | None => Exn.Ok (labelThenValue labelLineRx (split_on newline fullText))
  end.

(** "/(?:quote|quotation|estimate)\s*[#:]\s*([A-Z0-9][\w\-/]{1,20})/i" *)
Definition quoteRx : regex :=
  cat [alt [liti "quote"; liti "quotation"; liti "estimate"]; star space; set "#:";
       star space; RX_NUMBER_VALUE 20].

(** payRx:
    "/(?:payment\s*(?:method|mode|via|by)|paid\s*(?:via|by)|payment(?!\s*terms?))\s*[:\-]?\s*([A-Za-z][A-Za-z\s\/]{2,30})/i" *)
Definition payRx : regex :=
  cat [alt [cat [liti "payment"; star space;
                 alt [liti "method"; liti "mode"; liti "via"; liti "by"]];
            cat [liti "paid"; star space; alt [liti "via"; liti "by"]];
            cat [liti "payment"; NotAhead (cat [star space; liti "term"; opt (liti "s")])]];
       star space; opt (set ":-"); star space;
       Grp 1 (cat [Chr is_alpha;
                   rep 2 30 (Chr (fun c => is_alpha c || is_space c || one_of "/" c))])].

(** "/(?:terms?|payment\s*terms?)\s*[:\-]?\s*(net\s*\d+|cod|eft|prepaid|due\s*on\s*receipt)/i" *)
Definition termsRx : regex :=
  cat [alt [cat [liti "term"; opt (liti "s")];
            cat [liti "payment"; star space; liti "term"; opt (liti "s")]];
       star space; opt (set ":-"); star space;
       Grp 1 (alt [cat [liti "net"; star space; plus digit]; liti "cod"; liti "eft";
                   liti "prepaid";
                   cat [liti "due"; star space; liti "on"; star space; liti "receipt"]])].

(** "/\b(\d{1,2}:\d{2}(?::\d{2})?\s*(?:AM|PM)?)\b/i" *)
Definition timeRx : regex :=
  cat [Wordb;
       Grp 1 (cat [rep 1 2 digit; lit ":"; times 2 digit; opt (cat [lit ":"; times 2 digit]);
                   star space; opt (alt [liti "AM"; liti "PM"])]);
       Wordb].

(** [extractTransaction] *)
Definition extractTransaction (fullText : jsstring) (currencyCode : jsstring)
  : Exn.result DataLiftTransaction :=
  invoiceNumber <- labeledNumber invRx invLabelLineRx fullText ;;
  purchaseOrderNumber <- labeledNumber poRx poLabelLineRx fullText ;;
  quoteNumber <-
    (match exec quoteRx fullText with
     | Some m => g <- Exn.must (group m 1) ;; Exn.Ok (Some (trim g))
     | None => Exn.Ok None
     end) ;;
  dates <- extractDates fullText ;;
  let paymentMode :=
    match exec payRx fullText with
    | Some m => if truthy_str (group m 1)
                then Some (squeeze (trim (group_text m 1))) else None
    | None => None
    end in
  paymentTerms <-
    (match exec termsRx fullText with
     | Some m => g <- Exn.must (group m 1) ;; Exn.Ok (Some (trim g))
     | None => Exn.Ok None
     end) ;;
  let transactionTime :=
    match exec timeRx fullText with
    | Some m => group m 1
    | None => None
    end in
  Exn.Ok (Transaction invoiceNumber purchaseOrderNumber quoteNumber
                      (invoiceDate dates) (dueDate dates) (txDate dates)
                      transactionTime paymentMode paymentTerms currencyCode).

(** ** Totals *)

(** "/\bpct\b.*%/i" and "/\btaxtable\b/i" *)
Definition RX_PCT : regex := cat [Wordb; liti "pct"; Wordb; star dot; lit "%"].
Definition RX_TAXTABLE : regex := cat [Wordb; liti "taxtable"; Wordb].

(** The amounts that stand alone on the lines after a POS tax line. *)
Fixpoint standaloneAmounts (rows : list jsstring) : Exn.result (list number) :=
  match rows with
  | [] => Exn.Ok []
  | l :: rest =>
      match exec RX_STANDALONE_AMOUNT (trim l) with
      | Some amtM =>
          g <- Exn.must (group amtM 1) ;;
          more <- standaloneAmounts rest ;;
          Exn.Ok (amountOf g :: more)
      | None => standaloneAmounts rest
      end
  end.

(** The POS-style tax: the first tax line decides. *)
Fixpoint posTax (rows : list jsstring) : Exn.result (option number) :=
  match rows with
  | [] => Exn.Ok None
  | l :: rest =>
      if test RX_PCT l || test RX_TAXTABLE l then
        amounts <- standaloneAmounts (firstn 4 rest) ;;
        match amounts with
        | a0 :: a1 :: _ => Exn.Ok (Some (min a0 a1))
        | _ => Exn.Ok None
        end
      else posTax rest
  end.

Definition sum_totals (parts : list DataLiftPart) : number :=
  fold_left (fun s p => add s (totalAmount p)) parts (Fin 0).

Definition gap : regex := plus space.

(** [extractTotals] *)
Definition extractTotals (fullText footerText : jsstring) (parts : list DataLiftPart)
  : Exn.result DataLiftTotals :=
  let search :=
    (if Nat.ltb 10 (length footerText) then footerText ++ [newline] else []) ++ fullText in
  let footerSearch := if Nat.ltb 10 (length footerText) then footerText else fullText in
  let subtotal :=
    orElse (extractLabeledAmount search
              (alt [cat [liti "sub"; star space; liti "total"]; liti "subtotal"]))
           (if Nat.ltb 0 (length parts) then Some (round_to 2 (sum_totals parts)) else None) in
  pos <- posTax (split_on newline fullText) ;;
  let totalTax :=
    match pos with
    | Some _ => pos
    | None =>
        orElse (extractLabeledAmount search
                  (alt [cat [liti "total"; gap; alt [liti "gst"; liti "tax"; liti "vat"]];
                        cat [alt [liti "gst"; liti "tax"; liti "vat"]; gap; liti "total"];
                        cat [liti "total"; gap; liti "tax"]]))
               (extractLabeledAmount search (alt [liti "gst"; liti "tax"; liti "vat"]))
    end in
  let shippingCost :=
    extractLabeledAmount search
      (alt [liti "shipping"; liti "delivery"; liti "freight"; liti "carriage"]) in
  let discount :=
    extractLabeledAmount search (alt [liti "discount"; liti "savings"; liti "rebate"]) in
  let grandTotal :=
    match
      orElse (extractLabeledAmount search
                (alt [cat [liti "grand"; gap; liti "total"];
                      cat [liti "total"; gap; liti "amount"; gap; liti "due"];
                      cat [liti "total"; gap; liti "due"]]))
        (orElse (extractLabeledAmount search
                   (alt [cat [liti "amount"; gap; liti "due"];
                         cat [liti "balance"; gap; liti "due"]]))
           (orElse (extractLabeledAmount search (cat [liti "amount"; star space; lit ":"]))
              (orElse (extractLabeledAmount footerSearch (cat [Wordb; liti "total"; Wordb]))
                      subtotal)))
    with
    | Some g => g
    | None => Fin 0
    end in
  let amountPaid :=
    extractLabeledAmount search
      (alt [cat [liti "amount"; gap; liti "paid"]; cat [liti "cash"; gap; liti "tendered"];
            liti "tendered"]) in
  let balanceDue :=
    extractLabeledAmount search
      (alt [cat [liti "balance"; gap; liti "due"]; cat [liti "change"; gap; liti "due"]]) in
  Exn.Ok (Totals subtotal totalTax shippingCost discount None None grandTotal
                 amountPaid balanceDue).

(** ** The parser *)

(** [RuleBasedParserOptions] *)
Record RuleBasedParserOptions : Type := Options {
  optDocumentType : option jsstring;
  optLanguage : option jsstring
}.

(** The spread of two tax records into one: a key of [b] overrides. *)
Definition mergeTaxInformation (a : option DataLiftTaxInformation) (b : DataLiftTaxInformation)
  : DataLiftTaxInformation :=
  match a with
  | None => b
  | Some a =>
      TaxInformation (orElse (taxId b) (taxId a)) (orElse (gstNumber b) (gstNumber a))
                     (orElse (vatNumber b) (vatNumber a)) (orElse (abnNumber b) (abnNumber a))
                     (orElse (acnNumber b) (acnNumber a))
  end.

(** [parse(rawText, options)].  [now] is [new Date().toISOString()]. *)
Definition parse (now : jsstring) (rawText : jsstring) (options : RuleBasedParserOptions)
  : Exn.result DataLiftResponse :=
  let normText := normaliseOCRText rawText in
  let lines := nonblank_lines normText in
  docType <-
    (match optDocumentType options with
     | Some t => Exn.Ok t
     | None => t <- classifyDocumentType normText ;; Exn.Ok (docTypeName t)
     end) ;;
  let language :=
    match optLanguage options with
    | Some l => l
    | None => detectLanguage normText
    end in
  let currency := detectCurrency normText in
  let seg := segmentDocument lines in
  let headerText := join [newline] (headerLines seg) in
  let footerText := join [newline] (footerLines seg) in
  let supplierName := extractSupplierName (headerLines seg) in
  supplier <- buildSupplier supplierName headerText ;;
  fullTaxInfo <- extractTaxInformation normText ;;
  let supplier :=
    match fullTaxInfo with
    | Some full =>
        Supplier (Schema.supplierName supplier) (supplierAddress supplier)
                 (supplierContact supplier)
                 (Some (mergeTaxInformation (taxInformation supplier) full))
    | None => supplier
    end in
  buyer <- extractBuyer normText lines ;;
  transaction <- extractTransaction normText (code currency) ;;
  parts <- extractParts (bodyLines seg) lines ;;
  totals <- extractTotals normText footerText parts ;;
  let metadata :=
    Metadata docType (Fin 0) now language (Some (str "pending")) (Some (Fin 0)) None in
  Exn.Ok (Response metadata supplier buyer transaction parts totals).

End Parser.

(* ================================================================== *)
(** * The confidence engine (ConfidenceEngine) *)

Module Confidence.
Import JS Num Regex Schema.

(** [a ?? 0] *)
Definition orZero (a : option number) : number :=
  match a with Some x => x | None => Fin 0 end.

(** [scoreNumericConsistency(response)]: the totals and the parts of the
    response, either of which may be missing. *)
Definition scoreNumericConsistency (totals : option DataLiftTotals)
                                   (parts : option (list DataLiftPart)) : number :=
  match totals, parts with
  | Some totals, Some parts =>
      match parts with
      | [] => Fin (5 # 10)
      | _ =>
          let partSum := fold_left (fun s p => add s (totalAmount p)) parts (Fin 0) in
          let subtotal := match Schema.subtotal totals with Some s => s | None => partSum end in
          if eq subtotal (Fin 0) && eq (grandTotal totals) (Fin 0) then Fin (4 # 10)
          else
            let taxAndFees :=
              sub (add (add (add (orZero (totalTax totals)) (orZero (shippingCost totals)))
                            (orZero (tip totals)))
                       (orZero (serviceCharge totals)))
                  (orZero (discount totals)) in
            let reconstructed := add subtotal taxAndFees in
            let grandTotal := grandTotal totals in
            if eq grandTotal (Fin 0) then Fin (5 # 10)
            else
              let delta := div (abs (sub reconstructed grandTotal)) grandTotal in
              if lt delta (Fin (1 # 100)) then Fin 1
              else if lt delta (Fin (5 # 100)) then Fin (8 # 10)
              else if lt delta (Fin (15 # 100)) then Fin (6 # 10)
              else Fin (3 # 10)
      end
  | _, _ => Fin (5 # 10)
  end.

(** ** The other component scorers *)

Definition WEIGHT_OCR : number := Fin (15 # 100).
Definition WEIGHT_FIELDS : number := Fin (35 # 100).
Definition WEIGHT_NUMERIC : number := Fin (2 # 10).
Definition WEIGHT_DOC_TYPE : number := Fin (15 # 100).
Definition WEIGHT_KEYWORD : number := Fin (15 # 100).

(** Truthiness of an optional string. *)
Definition filledIn (s : option jsstring) : bool :=
  match s with Some v => nonempty v | None => false end.

(** IMPORTANT_TRANSACTION_FIELDS: invoiceNumber, invoiceDate, currency, read
    off the transaction; a currency that is missing counts like an empty
    one. *)
Definition importantFields (tx : DataLiftTransaction) : list bool :=
  [filledIn (invoiceNumber tx); filledIn (txInvoiceDate tx); nonempty (currency tx)].

(** DOCUMENT_KEYWORDS, an object literal: besides its own keys, the keys
    "constructor" and "__proto__" are found through its prototype, with
    values that are not arrays. *)
Inductive KeywordEntry : Type :=
| Keywords (kws : list jsstring)
| InheritedValue.

Definition DOCUMENT_KEYWORDS : list (jsstring * KeywordEntry) :=
  [(str "invoice", Keywords [str "invoice"; str "inv"; str "bill to"; str "due date";
                             str "amount due"; str "po number"]);
   (str "receipt", Keywords [str "receipt"; str "thank you"; str "cash"; str "change";
                             str "subtotal"; str "purchase"]);
   (str "purchase_order", Keywords [str "purchase order"; str "p.o."; str "po#";
                                    str "ship to"; str "ordered by"]);
   (str "work_order", Keywords [str "work order"; str "wo#"; str "technician";
                                str "labour"; str "asset"]);
   (str "bill", Keywords [str "bill"; str "account number"; str "billing period";
                          str "pay by"; str "statement"]);
   (str "quote", Keywords [str "quotation"; str "quote"; str "estimate";
                           str "valid until"; str "proposal"]);
   (str "cmms", Keywords [str "cmms"; str "maintenance"; str "work request";
                          str "asset id"; str "breakdown"]);
   (str "constructor", InheritedValue); (str "__proto__", InheritedValue)].

(** [DOCUMENT_KEYWORDS[key]] *)
Definition documentKeywords (key : jsstring) : option KeywordEntry :=
  option_map snd (find (fun kv => JS.eqb (fst kv) key) DOCUMENT_KEYWORDS).

(** "/\s+/" *)
Definition RX_SPACES : regex := plus space.

(** [scoreOCR(text, providerConf)] *)
Definition scoreOCR (text : jsstring) (providerConf : number) : number :=
  let words := filter nonempty (split RX_SPACES text) in
  let densityScore := min (div (of_nat (length words)) (Fin 50)) (Fin 1) in
  add (mul providerConf (Fin (6 # 10))) (mul densityScore (Fin (4 # 10))).

(** [scoreFieldPopulation(response)], for a response that has the sections
    its type declares. *)
Definition scoreFieldPopulation (response : DataLiftResponse) : number :=
  let bump (b : bool) (by_ : number) (filled : number) : number :=
    if b then add filled by_ else filled in
  let filled := Fin 0 in
  let total := Fin 0 in
  (* supplier name *)
  let total := add total (Fin 1) in
  let filled := bump (nonempty (supplierName (supplier response))) (Fin 1) filled in
  (* required transaction fields *)
  let '(filled, total) :=
    fold_left (fun ft b => (bump b (Fin 1) (fst ft), add (snd ft) (Fin 1)))
              (importantFields (transaction response)) (filled, total) in
  (* grand total *)
  let total := add total (Fin 1) in
  let filled := bump (gt (grandTotal (totals response)) (Fin 0)) (Fin 1) filled in
  (* parts *)
  let total := add total (Fin 1) in
  let filled := bump (Nat.ltb 0 (length (parts response))) (Fin 1) filled in
  (* optional bonus *)
  let filled := bump (filledIn (email (supplierContact (supplier response))))
                     (Fin (1 # 2)) filled in
  let filled := bump (filledIn (phone (supplierContact (supplier response))))
                     (Fin (1 # 2)) filled in
  let filled := bump (filledIn (buyerName (buyer response))) (Fin (1 # 2)) filled in
  let total := add total (Fin (15 # 10)) in
  if gt total (Fin 0) then min (div filled total) (Fin 1) else Fin 0.

(** [scoreDocumentType(response, documentType)] *)
Definition scoreDocumentType (response : DataLiftResponse) (documentType : jsstring)
  : number :=
  let claimed := toLowerCase (Schema.documentType (metadata response)) in
  let detected := toLowerCase documentType in
  if JS.eqb claimed detected then Fin 1
  else if includes claimed detected || includes detected claimed then Fin (7 # 10)
  else Fin (3 # 10).

(** [scoreKeywordMatch(text, documentType)]: [keywords.filter] is not a
    function when the entry is an inherited one, and the call throws. *)
Definition scoreKeywordMatch (text documentType : jsstring) : Exn.result number :=
  let lower := toLowerCase text in
  match documentKeywords (toLowerCase documentType) with
  | Some InheritedValue => Exn.Throw
  | Some (Keywords keywords) =>
      match keywords with
      | [] => Exn.Ok (Fin (5 # 10))
      | _ =>
          let matched := length (filter (fun kw => includes lower kw) keywords) in
          Exn.Ok (div (of_nat matched) (of_nat (length keywords)))
      end
  | None => Exn.Ok (Fin (5 # 10))
  end.

Record ConfidenceBreakdown : Type := Breakdown {
  overall : number;
  ocr : number;
  fields : number;
  numeric : number;
  docType : number;
  keyword : number
}.

(** [score(response, rawText, ocrConf, documentType)] *)
Definition score (response : DataLiftResponse) (rawText : jsstring) (ocrConf : number)
                 (documentType : jsstring) : Exn.result ConfidenceBreakdown :=
  let ocr := scoreOCR rawText ocrConf in
  let fields := scoreFieldPopulation response in
  let numeric := scoreNumericConsistency (Some (totals response)) (Some (parts response)) in
  let docType := scoreDocumentType response documentType in
  keyword <- scoreKeywordMatch rawText documentType ;;
  let overall :=
    add (add (add (add (mul ocr WEIGHT_OCR) (mul fields WEIGHT_FIELDS))
                  (mul numeric WEIGHT_NUMERIC))
             (mul docType WEIGHT_DOC_TYPE))
        (mul keyword WEIGHT_KEYWORD) in
  Exn.Ok (Breakdown (round_to 4 overall) (round_to 4 ocr) (round_to 4 fields)
                    (round_to 4 numeric) (round_to 4 docType) (round_to 4 keyword)).

End Confidence.

(* ================================================================== *)
(** * Notions and documents used in the statements *)

Module Spec.
Import JS Regex Num Schema Primitives Parser Confidence.

(** The subtotal the numeric sub-score works with: [totals.subtotal], or the
    sum of the part amounts when it is missing. *)
Definition subtotalOrSum (totals : DataLiftTotals) (parts : list DataLiftPart) : number :=
  match Schema.subtotal totals with
  | Some s => s
  | None => fold_left (fun s p => add s (totalAmount p)) parts (Fin 0)
  end.

(** A record with one part of amount 0 and a grand total of 0. *)
Definition ZERO_PARTS : list DataLiftPart :=
  [Part (str "Item") None None None (Fin 1) None None None (Fin 0)].
Definition ZERO_TOTALS : DataLiftTotals :=
  Totals None None None None None None (Fin 0) None None.

(** Two documents about the label "PO Number". *)
Definition PO_NUMBER_DOC : jsstring := str "PO Number: ABC-42".
Definition PO_SPLIT_DOC : jsstring :=
  str "Purchase Order" ++ [newline] ++ str "Number" ++ [newline] ++ str "12345".

(** The first non-empty list of [candidates], and [last] when all are
    empty. *)
Fixpoint firstNonEmpty {A} (candidates : list (list A)) (last : list A) : list A :=
  match candidates with
  | [] => last
  | c :: cs => if is_nil c then firstNonEmpty cs last else c
  end.

(** The order of the strategies as the specification words it: the column
    table, the multi-line items, the vertical form, the per-line heuristic on
    the body, the whole document. *)
Definition extractPartsSpecOrder (bodyLines allLines : list jsstring)
  : Exn.result (list DataLiftPart) :=
  verticalItems <- extractVerticalFormItems allLines ;;
  Exn.Ok (firstNonEmpty [extractFromColumnTable bodyLines; extractMultiLineItems bodyLines;
                         verticalItems; perLine bodyLines]
                        (perLine allLines)).





(** A digit or a comma. *)
Definition digit_or_comma (c : char) : bool := is_digit c || (N.eqb c 44).

(** The text of an amount: digits, groups of digits after commas, and at
    most four decimals after a dot. *)
Definition amountText (w : jsstring) : Prop :=
  exists ip G F,
    w = ip ++ G ++ F /\
    forallb is_digit ip = true /\ ip <> [] /\
    forallb digit_or_comma G = true /\
    (F = [] \/ exists fp, F = 46%N :: fp /\ forallb is_digit fp = true /\
                          (1 <= length fp <= 4)%nat).

(** A number of at most four decimals that is not negative. *)
Definition fourDecimals (v : number) : Prop :=
  exists (y : Q) (z : Z), v = Fin (Qred y) /\ (0 <= z)%Z /\ (y == inject_Z z / inject_Z 10000)%Q.

(** The loop has found a pair. *)
Definition found (best : option Best) : Prop := best <> None.

Definition NOW : jsstring := str "2024-01-01T00:00:00.000Z".

(** A document with a labelled description, a labelled net price and an
    item row. *)
Definition LABELS_AND_ROW_DOC : list jsstring :=
  [str "Description"; str "Widget  2  5.00  10.00"; str "Net"; str "5.00"].

(** A string of decimal digits, of a length between [lo] and [hi]. *)
Definition digits (lo hi : nat) (s : jsstring) : Prop :=
  forallb is_digit s = true /\ lo <= length s <= hi.

(** One of the separators "-", "/" and ".". *)
Definition date_sep (c : char) : Prop := one_of "-/." c = true.

(** [raw] reads as a day, a separator, a month, a separator and a year of
    [n] digits. *)
Definition reads_date (n : nat) (raw d m y : jsstring) : Prop :=
  digits 1 2 d /\ digits 1 2 m /\ digits n n y /\
  exists s1 s2, date_sep s1 /\ date_sep s2 /\ raw = d ++ [s1] ++ m ++ [s2] ++ y.

(** The ISO form of a day, a month and a year. *)
Definition isoDate (d m y : jsstring) : jsstring :=
  y ++ str "-" ++ padStart0 2 m ++ str "-" ++ padStart0 2 d.

(** [requires p r]: every text the pattern [r] passes over holds a unit
    that satisfies [p]. *)
Definition requires (p : char -> bool) (r : regex) : Prop :=
  forall w, lang r w -> existsb p w = true.

Definition nonNegative (v : number) : Prop := exists q, v = Fin q /\ (0 <= q)%Q.

(** A number between 0 and 1. *)
Definition unitInterval (v : number) : Prop :=
  exists q, v = Fin q /\ (0 <= q <= 1)%Q.



(** The number of keywords of a list that a text includes, once it is
    lower-cased. *)
Definition keywordHits (text : jsstring) (kws : list jsstring) : nat :=
  length (filter (fun kw => includes (toLowerCase text) kw) kws).

(** [has_group i r]: the pattern holds a capture group of number [i]. *)
Fixpoint has_group (i : nat) (r : regex) : bool :=
  match r with
  | Cat a b | Alt a b => has_group i a || has_group i b
  | Rep _ _ a | Ahead a => has_group i a
  | Grp j a => Nat.eqb i j || has_group i a
  | _ => false
  end.

(** [ends_at_eol r]: the pattern ends with the anchor of the end of the
    input. *)
Fixpoint ends_at_eol (r : regex) : bool :=
  match r with
  | Eol false => true
  | Cat _ b => ends_at_eol b
  | _ => false
  end.

(** The shape of a document number: a letter or a digit, then between 1
    and [hi] letters, digits, underscores, hyphens or slashes. *)
Definition numberShape (hi : nat) (v : jsstring) : Prop :=
  exists c rest,
    v = c :: rest /\ is_alpha c || is_digit c = true /\
    forallb (fun c => is_word c || one_of "-/" c) rest = true /\
    1 <= length rest <= hi.


(** The least length of a text the pattern passes over. *)
Fixpoint min_len (r : regex) : nat :=
  match r with
  | Chr _ => 1
  | Cat a b => min_len a + min_len b
  | Alt a b => Nat.min (min_len a) (min_len b)
  | Rep lo _ a => lo * min_len a
  | Grp _ a => min_len a
  | _ => 0
  end.

(** The end of a line: the end of the text, or a line terminator next. *)
Definition at_line_end (s : jsstring) : bool :=
  match s with [] => true | c :: _ => is_line_terminator c end.

(** No space and no tab stands at the end of a line. *)
Fixpoint no_trailing_blank (s : jsstring) : bool :=
  match s with
  | [] => true
  | c :: s' => negb (is_sp_tab c && at_line_end s') && no_trailing_blank s'
  end.

(** What follows the run of blanks in RX_TRAILING: the end of a line. *)
Definition line_end_k (z : cursor) (cs : caps) : result :=
  run (Eol true) z cs ret.


(** [within p r]: every character class of the pattern lies within [p]. *)
Fixpoint within (p : char -> bool) (r : regex) : Prop :=
  match r with
  | Chr q => forall c, q c = true -> p c = true
  | Cat a b | Alt a b => within p a /\ within p b
  | Rep _ _ a | Grp _ a => within p a
  | _ => True
  end.

(** The characters of a phone number: digits, the plus sign, parentheses,
    and the space, the tab, the hyphen and the dot between groups. *)
Definition is_phone_char (c : char) : bool :=
  is_digit c || one_of "+()" c || is_phone_sep c.

(** Five digits, a hyphen, four digits: a ZIP+4 code. *)
Definition zipPlus4 (p : jsstring) : Prop :=
  exists a b,
    p = a ++ ch "-" :: b /\ length a = 5%nat /\ length b = 4%nat /\
    forallb is_digit a = true /\ forallb is_digit b = true.

(** A run of [n] digits somewhere in the text. *)
Definition digitRun (n : nat) (p : jsstring) : Prop :=
  exists a run b,
    p = a ++ run ++ b /\ length run = n /\ forallb is_digit run = true.

(** What [extractPhones] lets through. *)
Definition phoneShape (p : jsstring) : Prop :=
  forallb is_phone_char p = true /\
  (7 <= length (filter is_digit p))%nat /\
  ~ zipPlus4 p.

(** The characters of the two sides of a lower-cased e-mail address. *)
Definition is_local_char (c : char) : bool :=
  is_lower c || is_digit c || one_of "_.+-" c.
Definition is_domain_char (c : char) : bool :=
  is_lower c || is_digit c || one_of "_.-" c.

(** A lower-cased e-mail address: one at sign between a local part that is
    not empty and a domain of four characters or more with a dot in it. *)
Definition emailShape (e : jsstring) : Prop :=
  exists loc dom,
    e = loc ++ ch "@" :: dom /\ loc <> [] /\
    forallb is_local_char loc = true /\
    forallb is_domain_char dom = true /\
    In (ch ".") dom /\ (4 <= length dom)%nat.

(** A web address: no white space in it, and "http://", "https://" or
    "www." in front, in either case of the letters. *)
Definition urlShape (u : jsstring) : Prop :=
  forallb (non is_space) u = true /\
  exists pre rest,
    u = pre ++ rest /\ rest <> [] /\
    (toLowerCase pre = str "http://" \/ toLowerCase pre = str "https://" \/
     toLowerCase pre = str "www.").

(** Lines without a decimal digit. *)
Definition nodigits (lines : list jsstring) : Prop :=
  forall l, In l lines -> existsb is_digit l = false.

(** No numeric field of the vertical form has a value. *)
Definition no_numeric (c : Collected) : Prop :=
  forall kv, In kv c -> numericField (fst kv) = false.

(** No capture holds a unit that satisfies [p]. *)
Definition clean_caps (p : char -> bool) (cs : caps) : Prop :=
  forall i w, lookup i cs = Some w -> existsb p w = false.

(** The country codes of [parseAddress]. *)
Definition COUNTRIES : list jsstring :=
  [str "AU"; str "US"; str "GB"; str "IN"; str "CA"; str "NZ"; str "DE"; str "FR";
   str "SG"].

(** A text of [n] digits. *)
Definition digitsN (n : nat) (w : jsstring) : Prop :=
  length w = n /\ forallb is_digit w = true.

(** A postal code: four digits, five digits, or a ZIP+4 code. *)
Definition postalShape (pc : jsstring) : Prop :=
  digitsN 4 pc \/ digitsN 5 pc \/ zipPlus4 pc.

(** Digits with single blanks between them: [n] digits in all. *)
Definition is_digit_or_blank (c : char) : bool := is_digit c || (c =? 32)%N.
Definition spacedDigits (n : nat) (d : jsstring) : Prop :=
  forallb is_digit_or_blank d = true /\ length (filter is_digit d) = n.

(** Two digits, a hyphen, seven digits. *)
Definition einShape (v : jsstring) : Prop :=
  exists a b, v = a ++ ch "-" :: b /\ digitsN 2 a /\ digitsN 7 b.

(** Two letters and 7 to 12 digits. *)
Definition vatShape (v : jsstring) : Prop :=
  exists a b,
    v = a ++ b /\ length a = 2%nat /\ forallb is_alpha a = true /\
    forallb is_digit b = true /\ (7 <= length b <= 12)%nat.

(** The identifiers of a tax record have the shape of their kind. *)
Definition taxShape (ti : DataLiftTaxInformation) : Prop :=
  (forall v, abnNumber ti = Some v -> exists d, v = str "ABN: " ++ d /\ spacedDigits 11 d) /\
  (forall v, acnNumber ti = Some v -> spacedDigits 9 v) /\
  (forall v, taxId ti = Some v -> einShape v) /\
  (forall v, vatNumber ti = Some v -> vatShape v).

End Spec.

(* ================================================================== *)
(** * Properties of the matcher *)

Module RegexFacts.
Import JS Regex.

Lemma rep_loop_sound (body : cursor -> caps -> (cursor -> caps -> result) -> result)
      (R : step) (lo : nat) (hi : option nat) (k : cursor -> caps -> result) :
  (forall z cs k' res, body z cs k' = Some res ->
     exists z' cs', R z cs z' cs' /\ k' z' cs' = Some res) ->
  forall fuel n z cs res,
    rep_loop body lo hi k fuel n z cs = Some res ->
    exists m z' cs', iter m R z cs z' cs' /\ lo <= n + m /\ (upto hi n -> upto hi (n + m))
                     /\ k z' cs' = Some res.
Proof.
  intros Hbody.
  assert (Hstop : forall n z cs res,
            (if Nat.leb lo n then k z cs else None) = Some res ->
            exists m z' cs', iter m R z cs z' cs' /\ lo <= n + m
                             /\ (upto hi n -> upto hi (n + m)) /\ k z' cs' = Some res).
  { intros n z cs res H. destruct (Nat.leb lo n) eqn:E; [|discriminate].
    apply Nat.leb_le in E. exists 0, z, cs. rewrite Nat.add_0_r. simpl. auto. }
  induction fuel as [|fuel IH]; intros n z cs res H; simpl in H.
  - now apply Hstop.
  - destruct (below hi n) eqn:Eb; [|now apply Hstop].
    match type of H with
    | match ?b with _ => _ end = _ => destruct b as [x|] eqn:Ebody
    end; [|now apply Hstop].
    injection H as ->.
    apply Hbody in Ebody. destruct Ebody as (z1 & cs1 & HR & Hk).
    match type of Hk with
    | (if ?c then _ else _) = _ => destruct c; [|discriminate]
    end.
    apply IH in Hk. destruct Hk as (m & z' & cs' & Hit & Hlo & Hhi & Hk).
    exists (S m), z', cs'. repeat split.
    + simpl. exists z1, cs1. auto.
    + lia.
    + intros _. replace (n + S m) with (S n + m) by lia. apply Hhi.
      destruct hi as [h|]; simpl in *; [|exact I]. apply Nat.ltb_lt in Eb. lia.
    + exact Hk.
Qed.

(** The matcher is sound for [den]: the continuation is entered at a state
    the pattern can reach. *)
Lemma run_sound (r : regex) :
  forall z cs k res, run r z cs k = Some res ->
    exists z' cs', den r z cs z' cs' /\ k z' cs' = Some res.
Proof.
  induction r as [|p|a IHa b IHb|a IHa b IHb|lo hi a IHa|i a IHa|ml|ml| |a IHa|a IHa|p];
    intros z cs k res H; simpl in H.
  - exists z, cs. simpl. auto.
  - destruct (after z) as [|c rest] eqn:E; [discriminate|].
    destruct (p c) eqn:Ep; [|discriminate].
    eexists _, cs. split; [|exact H]. simpl. exists c, rest. auto.
  - apply IHa in H. destruct H as (z1 & cs1 & Ha & H).
    apply IHb in H. destruct H as (z2 & cs2 & Hb & H).
    exists z2, cs2. split; [|exact H]. simpl. eauto.
  - destruct (run a z cs k) eqn:E.
    + injection H as ->. apply IHa in E. destruct E as (z' & cs' & Ha & E).
      exists z', cs'. simpl. auto.
    + apply IHb in H. destruct H as (z' & cs' & Hb & H).
      exists z', cs'. simpl. auto.
  - apply (@rep_loop_sound (run a) (den a) lo hi k IHa) in H.
    destruct H as (m & z' & cs' & Hit & Hlo & Hhi & H).
    exists z', cs'. split; [|exact H]. simpl. exists m. repeat split; auto.
    apply Hhi. destruct hi; simpl; [lia|exact I].
  - apply IHa in H. destruct H as (z' & cs' & Ha & H).
    eexists z', _. split; [|exact H]. simpl. eauto.
  - destruct (at_bol ml z) eqn:E; [|discriminate]. exists z, cs. simpl. auto.
  - destruct (at_eol ml z) eqn:E; [|discriminate]. exists z, cs. simpl. auto.
  - destruct (at_wordb z) eqn:E; [|discriminate]. exists z, cs. simpl. auto.
  - destruct (run a z cs ret) as [[z1 cs1]|] eqn:E; [|discriminate].
    apply IHa in E. destruct E as (z2 & cs2 & Ha & E). injection E as -> ->.
    exists z, cs1. split; [|exact H]. simpl. eauto.
  - destruct (run a z cs ret) eqn:E; [discriminate|].
    exists z, cs. simpl. auto.
  - destruct (prev_is p z) eqn:E; [|discriminate]. exists z, cs. simpl. auto.
Qed.

Lemma match_at_sound r z z' cs :
  match_at r z = Some (z', cs) -> den r z [] z' cs.
Proof.
  intros H. apply run_sound in H. destruct H as (z1 & cs1 & Hd & H).
  injection H as -> ->. exact Hd.
Qed.

Lemma advances_refl z : advances z z.
Proof. exists []. auto. Qed.

Lemma advances_trans z1 z2 z3 : advances z1 z2 -> advances z2 z3 -> advances z1 z3.
Proof.
  intros (w1 & A1 & B1) (w2 & A2 & B2). exists (w1 ++ w2). split.
  - rewrite A1, A2. now rewrite app_assoc.
  - rewrite B2, B1, rev_app_distr. now rewrite app_assoc.
Qed.

Lemma iter_advances (R : step) :
  (forall z cs z' cs', R z cs z' cs' -> advances z z') ->
  forall n z cs z' cs', iter n R z cs z' cs' -> advances z z'.
Proof.
  intros HR. induction n as [|n IH]; intros z cs z' cs' H; simpl in H.
  - destruct H as [-> _]. apply advances_refl.
  - destruct H as (z1 & cs1 & H1 & H2).
    eapply advances_trans; [eapply HR; eauto | eapply IH; eauto].
Qed.

Lemma den_advances (r : regex) :
  forall z cs z' cs', den r z cs z' cs' -> advances z z'.
Proof.
  induction r as [|p|a IHa b IHb|a IHa b IHb|lo hi a IHa|i a IHa|ml|ml| |a IHa|a IHa|p];
    intros z cs z' cs' H; simpl in H.
  - destruct H as [-> _]. apply advances_refl.
  - destruct H as (c & rest & E & _ & -> & _). exists [c]. simpl. auto.
  - destruct H as (z1 & cs1 & H1 & H2). eapply advances_trans; eauto.
  - destruct H; eauto.
  - destruct H as (n & _ & _ & H). eapply iter_advances; eauto.
  - destruct H as (cs1 & H & _). eauto.
  - destruct H as (_ & -> & _). apply advances_refl.
  - destruct H as (_ & -> & _). apply advances_refl.
  - destruct H as (_ & -> & _). apply advances_refl.
  - destruct H as (-> & _). apply advances_refl.
  - destruct H as (_ & -> & _). apply advances_refl.
  - destruct H as (_ & -> & _). apply advances_refl.
Qed.

Lemma advances_consumed z z' w :
  after z = w ++ after z' -> consumed z z' = w.
Proof.
  intros E. unfold consumed. rewrite E, length_app.
  replace (length w + length (after z') - length (after z')) with (length w) by lia.
  now rewrite firstn_app, Nat.sub_diag, firstn_all, app_nil_r.
Qed.

Lemma iter_keeps (R : step) :
  (forall z cs z' cs', R z cs z' cs' -> keeps cs cs') ->
  forall n z cs z' cs', iter n R z cs z' cs' -> keeps cs cs'.
Proof.
  intros HR. induction n as [|n IH]; intros z cs z' cs' H; simpl in H.
  - destruct H as [_ ->]. intros i Hi. exact Hi.
  - destruct H as (z1 & cs1 & H1 & H2). intros i Hi.
    eapply IH; eauto. eapply HR; eauto.
Qed.

Lemma den_keeps (r : regex) :
  forall z cs z' cs', den r z cs z' cs' -> keeps cs cs'.
Proof.
  induction r as [|p|a IHa b IHb|a IHa b IHb|lo hi a IHa|i a IHa|ml|ml| |a IHa|a IHa|p];
    intros z cs z' cs' H; simpl in H; intros j Hj.
  - destruct H as [_ ->]. exact Hj.
  - destruct H as (c & rest & _ & _ & _ & ->). exact Hj.
  - destruct H as (z1 & cs1 & H1 & H2). eapply IHb; eauto. eapply IHa; eauto.
  - destruct H as [H|H]; [eapply IHa | eapply IHb]; eauto.
  - destruct H as (n & _ & _ & H). eapply iter_keeps; eauto.
  - destruct H as (cs1 & H & ->). simpl. destruct (Nat.eqb j i); [discriminate|].
    eapply IHa; eauto.
  - destruct H as (_ & _ & ->). exact Hj.
  - destruct H as (_ & _ & ->). exact Hj.
  - destruct H as (_ & _ & ->). exact Hj.
  - destruct H as (_ & z1 & H). eapply IHa; eauto.
  - destruct H as (_ & _ & ->). exact Hj.
  - destruct H as (_ & _ & ->). exact Hj.
Qed.

Lemma den_sets (i : nat) (r : regex) :
  sets i r = true ->
  forall z cs z' cs', den r z cs z' cs' -> lookup i cs' <> None.
Proof.
  induction r as [|p|a IHa b IHb|a IHa b IHb|lo hi a IHa|j a IHa|ml|ml| |a IHa|a IHa|p];
    simpl; intros Hs z cs z' cs' H; try discriminate.
  - destruct H as (z1 & cs1 & H1 & H2). apply orb_true_iff in Hs. destruct Hs as [Hs|Hs].
    + eapply den_keeps; eauto.
    + eapply IHb; eauto.
  - apply andb_true_iff in Hs. destruct Hs as [Hsa Hsb].
    destruct H as [H|H]; eauto.
  - destruct lo as [|lo]; [discriminate|]. simpl in Hs.
    destruct H as (n & Hn & _ & H). destruct n as [|n]; [lia|]. simpl in H.
    destruct H as (z1 & cs1 & H1 & H2).
    eapply (@iter_keeps (den a)); [intros; eapply den_keeps; eauto | exact H2 |].
    eapply IHa; eauto.
  - destruct H as (cs1 & H & ->). simpl. destruct (Nat.eqb i j) eqn:E; [discriminate|].
    simpl in Hs. eapply IHa; eauto.
  - destruct H as (_ & z1 & H). eapply IHa; eauto.
Qed.

(** Runs of a character class. *)
Lemma iter_chr p :
  forall n z cs z' cs', iter n (den (Chr p)) z cs z' cs' ->
    exists w, length w = n /\ forallb p w = true /\
              after z = w ++ after z' /\ before z' = rev w ++ before z /\ cs' = cs.
Proof.
  induction n as [|n IH]; intros z cs z' cs' H; simpl in H.
  - destruct H as [-> ->]. exists []. auto.
  - destruct H as (z1 & cs1 & (c & rest & E & Hp & -> & ->) & H).
    apply IH in H. destruct H as (w & Hl & Hw & Ha & Hb & ->). simpl in Ha, Hb.
    exists (c :: w). simpl. rewrite Hl, Hp, Hw, E, Ha, Hb, <- app_assoc. auto.
Qed.

Lemma den_rep_chr lo hi p z cs z' cs' :
  den (Rep lo hi (Chr p)) z cs z' cs' ->
  exists w, lo <= length w /\ upto hi (length w) /\ forallb p w = true /\
            after z = w ++ after z' /\ before z' = rev w ++ before z /\ cs' = cs.
Proof.
  intros (n & Hlo & Hhi & H). apply iter_chr in H.
  destruct H as (w & <- & H). exists w. auto.
Qed.

Lemma den_chr p z cs z' cs' :
  den (Chr p) z cs z' cs' ->
  exists c, p c = true /\ after z = c :: after z' /\ before z' = c :: before z /\ cs' = cs.
Proof.
  intros (c & rest & E & Hp & -> & ->). exists c. auto.
Qed.

Lemma search_from_sound r :
  forall post pre m, search_from r pre post = Some m ->
    exists pre' post' z',
      den r (Cursor pre' post') [] z' (groups m) /\
      whole m = consumed (Cursor pre' post') z' /\ index m = length pre' /\
      rev pre' ++ post' = rev pre ++ post.
Proof.
  induction post as [|c post IH]; intros pre m H; simpl in H.
  - destruct (match_at r (Cursor pre [])) as [[z' cs]|] eqn:E; [|discriminate].
    injection H as <-. apply match_at_sound in E.
    exists pre, [], z'. simpl. auto.
  - destruct (match_at r (Cursor pre (c :: post))) as [[z' cs]|] eqn:E.
    + injection H as <-. apply match_at_sound in E.
      exists pre, (c :: post), z'. simpl. auto.
    + apply IH in H. destruct H as (pre' & post' & z' & Hd & Hw & Hi & Hs).
      exists pre', post', z'. repeat split; auto.
      rewrite Hs. simpl. now rewrite <- app_assoc.
Qed.

(** A capture that every run sets is defined in every match. *)
Lemma exec_group_defined r s m i :
  exec r s = Some m -> sets i r = true -> exists g, group m i = Some g.
Proof.
  intros H Hs. apply search_from_sound in H.
  destruct H as (pre' & post' & z' & Hd & _).
  apply (den_sets _ _ Hs) in Hd. unfold group.
  destruct (lookup i (groups m)); [eauto|contradiction].
Qed.

Lemma exec_sound r s m :
  exec r s = Some m ->
  exists pre post z',
    den r (Cursor pre post) [] z' (groups m) /\
    whole m = consumed (Cursor pre post) z' /\ index m = length pre /\
    rev pre ++ post = s.
Proof. intros H. apply search_from_sound in H. exact H. Qed.

Lemma at_bol_false z : at_bol false z = true -> before z = [].
Proof. unfold at_bol. destruct (before z); [auto|discriminate]. Qed.

Lemma at_eol_false z : at_eol false z = true -> after z = [].
Proof. unfold at_eol. destruct (after z); [auto|discriminate]. Qed.

(** Reading [den] off the shape of a pattern: sequences, groups, runs of a
    class, single characters and anchors. *)
Ltac inv_den H :=
  lazymatch type of H with
  | den (Cat _ _) _ _ _ _ =>
      let z1 := fresh "z" in let cs1 := fresh "cs" in let H1 := fresh "D" in
      destruct H as (z1 & cs1 & H1 & H); inv_den H1; inv_den H
  | den (Grp _ _) _ _ _ _ =>
      let cs1 := fresh "cs" in let E := fresh "G" in
      destruct H as (cs1 & H & E); inv_den H
  | den (Rep _ _ (Chr _)) _ _ _ _ =>
      let w := fresh "w" in
      apply den_rep_chr in H;
      destruct H as (w & ? & ? & ? & ? & ? & ?)
  | den (Chr _) _ _ _ _ =>
      let c := fresh "c" in
      apply den_chr in H; destruct H as (c & ? & ? & ? & ?)
  | den (Bol _) _ _ _ _ => destruct H as (? & ? & ?)
  | den (Eol _) _ _ _ _ => destruct H as (? & ? & ?)
  | den Wordb _ _ _ _ => destruct H as (? & ? & ?)
  | _ => idtac
  end.

End RegexFacts.

Unset Implicit Arguments.

(* ================================================================== *)
(** * Replacement and the count of a character *)

Module ReplaceFacts.
Import JS Regex Primitives RegexFacts.
Local Open Scope N_scope.

Lemma count_app x a b : count x (a ++ b) = (count x a + count x b)%nat.
Proof. unfold count. now rewrite filter_app, length_app. Qed.

Lemma count_cons x c s :
  count x (c :: s) = ((if N.eqb x c then 1 else 0) + count x s)%nat.
Proof. unfold count. simpl. now destruct (N.eqb x c). Qed.

Lemma count_rev x s : count x (rev s) = count x s.
Proof.
  induction s as [|c s IH]; [reflexivity|].
  simpl. rewrite count_app, IH, !count_cons. unfold count at 2. simpl. lia.
Qed.

Lemma iter_avoids (R : step) x :
  (forall z cs z' cs', R z cs z' cs' ->
     exists w, after z = w ++ after z' /\ count x w = 0%nat) ->
  forall n z cs z' cs', iter n R z cs z' cs' ->
     exists w, after z = w ++ after z' /\ count x w = 0%nat.
Proof.
  intros HR. induction n as [|n IH]; intros z cs z' cs' H; simpl in H.
  - destruct H as [-> _]. exists []. auto.
  - destruct H as (z1 & cs1 & H1 & H2).
    apply HR in H1. apply IH in H2.
    destruct H1 as (w1 & E1 & C1). destruct H2 as (w2 & E2 & C2).
    exists (w1 ++ w2). split; [now rewrite E1, E2, app_assoc | now rewrite count_app, C1, C2].
Qed.

(** What a pattern that avoids [x] passes over holds no [x]. *)
Lemma den_avoids x (r : regex) :
  avoids x r ->
  forall z cs z' cs', den r z cs z' cs' ->
    exists w, after z = w ++ after z' /\ count x w = 0%nat.
Proof.
  induction r as [|p|a IHa b IHb|a IHa b IHb|lo hi a IHa|i a IHa|ml|ml| |a IHa|a IHa|p];
    simpl; intros Hx z cs z' cs' H.
  - destruct H as [-> _]. exists []. auto.
  - destruct H as (c & rest & E & Hp & -> & _). exists [c]. split; [exact E|].
    rewrite count_cons. destruct (N.eqb_spec x c) as [->|]; [congruence|reflexivity].
  - destruct Hx as [Ha Hb]. destruct H as (z1 & cs1 & H1 & H2).
    apply (IHa Ha) in H1. apply (IHb Hb) in H2.
    destruct H1 as (w1 & E1 & C1). destruct H2 as (w2 & E2 & C2).
    exists (w1 ++ w2). split; [now rewrite E1, E2, app_assoc | now rewrite count_app, C1, C2].
  - destruct Hx as [Ha Hb]. destruct H as [H|H]; eauto.
  - destruct H as (n & _ & _ & H). eapply iter_avoids; eauto.
  - destruct H as (cs1 & H & _). eauto.
  - destruct H as (_ & -> & _). exists []. auto.
  - destruct H as (_ & -> & _). exists []. auto.
  - destruct H as (_ & -> & _). exists []. auto.
  - destruct H as (-> & _). exists []. auto.
  - destruct H as (_ & -> & _). exists []. auto.
  - destruct H as (_ & -> & _). exists []. auto.
Qed.

Lemma consumed_firstn z z' :
  consumed z z' = firstn (length (consumed z z')) (after z).
Proof.
  unfold consumed. rewrite length_firstn, Nat.min_l by lia. reflexivity.
Qed.

(** A global replacement keeps the count of [x] when each match is replaced
    by a text that holds as many [x] as the match. *)
Lemma replace_go_count x r f :
  (forall pre post z' cs,
      match_at r (Cursor pre post) = Some (z', cs) ->
      count x (f (RMatch (length pre) (consumed (Cursor pre post) z') cs))
      = count x (consumed (Cursor pre post) z')) ->
  forall post skip pre,
    (count x (replace_go r f skip pre post) + count x (firstn skip post))%nat
    = count x post.
Proof.
  intros Hf. induction post as [|c post IH]; intros skip pre.
  - destruct skip as [|k]; simpl.
    + destruct (match_at r (Cursor pre [])) as [[z' cs]|] eqn:E; [|reflexivity].
      rewrite app_nil_r, (Hf _ _ _ _ E). unfold consumed. simpl. reflexivity.
    + reflexivity.
  - destruct skip as [|k]; cbn [replace_go firstn].
    + destruct (match_at r (Cursor pre (c :: post))) as [[z' cs]|] eqn:E.
      * rewrite count_app, (Hf _ _ _ _ E).
        pose proof (consumed_firstn (Cursor pre (c :: post)) z') as Hw.
        cbn [after] in Hw.
        destruct (length (consumed (Cursor pre (c :: post)) z')) as [|k] eqn:El.
        -- rewrite Hw. cbn [firstn]. rewrite !count_cons.
           specialize (IH 0%nat (c :: pre)). cbn [firstn] in IH.
           unfold count at 1. cbn [filter length]. unfold count at 2. cbn [filter length].
           unfold count at 2 in IH. cbn [filter length] in IH. lia.
        -- rewrite Hw. cbn [firstn]. rewrite !count_cons.
           specialize (IH k (c :: pre)). unfold count at 3. cbn [filter length]. lia.
      * rewrite !count_cons. specialize (IH 0%nat (c :: pre)). cbn [firstn] in IH.
        unfold count at 2. cbn [filter length].
        unfold count at 2 in IH. cbn [filter length] in IH. lia.
    + rewrite !count_cons. specialize (IH k (c :: pre)). lia.
Qed.

Lemma replace_all_count x r f :
  (forall pre post z' cs,
      match_at r (Cursor pre post) = Some (z', cs) ->
      count x (f (RMatch (length pre) (consumed (Cursor pre post) z') cs))
      = count x (consumed (Cursor pre post) z')) ->
  forall s, count x (replace_all r f s) = count x s.
Proof.
  intros Hf s. unfold replace_all.
  pose proof (replace_go_count x r f Hf s 0 []) as H. cbn [firstn] in H.
  unfold count at 2 in H. cbn [filter length] in H. lia.
Qed.

(** The case of a pattern that avoids [x] and a replacement without [x]. *)
Lemma replace_all_avoids x r f :
  avoids x r -> (forall m, count x (f m) = 0%nat) ->
  forall s, count x (replace_all r f s) = count x s.
Proof.
  intros Hr Hf. apply replace_all_count. intros pre post z' cs E.
  rewrite Hf. apply match_at_sound in E.
  destruct (den_avoids x r Hr _ _ _ _ E) as (w & Ew & Cw).
  now rewrite (advances_consumed _ _ _ Ew).
Qed.

End ReplaceFacts.

(* ================================================================== *)
(** * The steps of the normalisation and the line feed *)

Module NormaliseFacts.
Import JS Regex Primitives RegexFacts ReplaceFacts.
Local Open Scope N_scope.

(** A class that rejects the line feed. *)
Lemma not_newline (p : char -> bool) c :
  p newline = false -> p c = true -> N.eqb newline c = false.
Proof.
  intros Hn Hc. destruct (N.eqb_spec newline c) as [<-|]; [congruence|reflexivity].
Qed.

(** The two templates that refer to captures. *)
Lemma subst_dollar_l m :
  subst (ngroups RX_DOLLAR_L) m (str "$11$2") (length (str "$11$2"))
  = group_text m 1 ++ str "1" ++ group_text m 2.
Proof. cbv -[app group_text]. now rewrite app_nil_r. Qed.

Lemma subst_digit_o m :
  subst (ngroups RX_DIGIT_O) m (str "$10$2") (length (str "$10$2"))
  = group_text m 1 ++ str "0" ++ group_text m 2.
Proof. cbv -[app group_text]. now rewrite app_nil_r. Qed.

Lemma step_dollar_l t :
  count newline (replace_all_with RX_DOLLAR_L (str "$11$2") t) = count newline t.
Proof.
  unfold replace_all_with. apply replace_all_count. intros pre post z' cs E.
  rewrite subst_dollar_l.
  apply match_at_sound in E.
  cbv [RX_DOLLAR_L cat lit star set digit space List.map str list_ascii_of_string lit1] in E.
  inv_den E. subst. cbn [after] in *.
  assert (E1 : consumed (Cursor pre post) z = c :: w)
    by (apply advances_consumed; cbn [after]; rewrite H0, H6; reflexivity).
  assert (E2 : consumed z1 z' = [c1])
    by (apply advances_consumed; rewrite H14; reflexivity).
  assert (E3 : consumed (Cursor pre post) z' = (c :: w) ++ [c0; c1])
    by (apply advances_consumed; cbn [after]; rewrite H0, H6, H10, H14;
        now rewrite <- app_assoc).
  rewrite E1, E2, E3.
  cbn [group_text group groups lookup Nat.eqb].
  rewrite !count_app, !count_cons.
  rewrite (not_newline (one_of "lI") c0 eq_refl H9).
  destruct (newline =? c), (newline =? c1); cbn; lia.
Qed.

Lemma step_digit_o t :
  count newline (replace_all_with RX_DIGIT_O (str "$10$2") t) = count newline t.
Proof.
  unfold replace_all_with. apply replace_all_count. intros pre post z' cs E.
  rewrite subst_digit_o.
  apply match_at_sound in E.
  cbv [RX_DIGIT_O cat lit star set digit space List.map str list_ascii_of_string lit1] in E.
  inv_den E. subst. cbn [after] in *.
  assert (E1 : consumed (Cursor pre post) z = [c])
    by (apply advances_consumed; cbn [after]; rewrite H0; reflexivity).
  assert (E2 : consumed z0 z' = [c1])
    by (apply advances_consumed; rewrite H8; reflexivity).
  assert (E3 : consumed (Cursor pre post) z' = [c; c0; c1])
    by (apply advances_consumed; cbn [after]; rewrite H0, H4, H8; reflexivity).
  rewrite E1, E2, E3.
  cbn [group_text group groups lookup Nat.eqb].
  rewrite !count_app, !count_cons.
  rewrite (not_newline (one_of "Oo") c0 eq_refl H3).
  destruct (newline =? c), (newline =? c1); reflexivity.
Qed.

(** The other steps match no line feed and insert none. *)
Ltac no_newline :=
  unfold replace_all_with; apply replace_all_avoids;
  [ cbn; repeat split; reflexivity
  | intros m; vm_compute; reflexivity ].

Lemma step_s_amount t :
  count newline (replace_all_with RX_S_AMOUNT (str "$$1") t) = count newline t.
Proof. no_newline. Qed.

Lemma step_blanks t :
  count newline (replace_all_with RX_BLANKS (str "  ") t) = count newline t.
Proof. no_newline. Qed.

Lemma step_digit_gap t :
  count newline (replace_all_with RX_DIGIT_GAP (str "") t) = count newline t.
Proof. no_newline. Qed.

Lemma step_dash t :
  count newline (replace_all_with RX_DASH (str "-") t) = count newline t.
Proof. no_newline. Qed.

Lemma step_zero_width t :
  count newline (replace_all_with RX_ZERO_WIDTH (str "") t) = count newline t.
Proof. no_newline. Qed.

Lemma step_trailing t :
  count newline (replace_all_with RX_TRAILING (str "") t) = count newline t.
Proof. no_newline. Qed.

End NormaliseFacts.

(* ================================================================== *)
(** * The math validation of a line *)

Module PairFacts.
Import JS Regex Num Schema Primitives Spec.

Lemma fold_left_invariant {A B} (P : A -> Prop) (f : A -> B -> A) (l : list B) :
  (forall acc x, In x l -> P acc -> P (f acc x)) ->
  forall init, P init -> P (fold_left f l init).
Proof.
  induction l as [|x l IH]; intros Hf init Hi; simpl; [exact Hi|].
  apply IH.
  - intros acc y Hy. apply Hf. now right.
  - apply Hf; [now left|exact Hi].
Qed.













End PairFacts.

(* ================================================================== *)
(** * The numbers of a line *)

Module TokenFacts.
Import JS Regex Num Schema Primitives Spec RegexFacts.
Local Open Scope N_scope.

Lemma advances_consumed_app z1 z2 z3 :
  advances z1 z2 -> advances z2 z3 ->
  consumed z1 z3 = consumed z1 z2 ++ consumed z2 z3.
Proof.
  intros (w1 & A1 & _) (w2 & A2 & _).
  rewrite (advances_consumed z2 z3 w2 A2), (advances_consumed z1 z2 w1 A1).
  apply advances_consumed. rewrite A1, A2. now rewrite app_assoc.
Qed.

Lemma consumed_same z : consumed z z = [].
Proof. unfold consumed. now rewrite Nat.sub_diag. Qed.

Lemma iter_lang (R : step) (L : jsstring -> Prop) :
  (forall z cs z' cs', R z cs z' cs' -> advances z z' /\ L (consumed z z')) ->
  forall n z cs z' cs', iter n R z cs z' cs' ->
    advances z z' /\ lang_iter n L (consumed z z').
Proof.
  intros HR. induction n as [|n IH]; intros z cs z' cs' H; simpl in H.
  - destruct H as [-> _]. split; [apply advances_refl|]. simpl. apply consumed_same.
  - destruct H as (z1 & cs1 & H1 & H2). apply HR in H1. apply IH in H2.
    destruct H1 as [A1 L1], H2 as [A2 L2]. split; [eapply advances_trans; eauto|].
    simpl. exists (consumed z z1), (consumed z1 z'). split; [|auto].
    now apply advances_consumed_app.
Qed.

(** What a run passes over is a text of the pattern. *)
Lemma den_lang (r : regex) :
  forall z cs z' cs', den r z cs z' cs' -> lang r (consumed z z').
Proof.
  assert (Hadv : forall r z cs z' cs', den r z cs z' cs' -> advances z z')
    by (intros; eapply den_advances; eauto).
  induction r as [|p|a IHa b IHb|a IHa b IHb|lo hi a IHa|i a IHa|ml|ml| |a IHa|a IHa|p];
    intros z cs z' cs' H; pose proof (Hadv _ _ _ _ _ H) as Ha; simpl in H; simpl.
  - destruct H as [-> _]. apply consumed_same.
  - destruct H as (c & rest & E & Hp & -> & _). exists c. split; [|exact Hp].
    apply advances_consumed. simpl. exact E.
  - destruct H as (z1 & cs1 & H1 & H2).
    exists (consumed z z1), (consumed z1 z'). split; [|eauto].
    apply advances_consumed_app; eauto.
  - destruct H as [H|H]; eauto.
  - destruct H as (n & Hlo & Hhi & H). exists n. split; [exact Hlo|]. split; [exact Hhi|].
    eapply (iter_lang (den a) (lang a)); [|exact H].
    intros. split; eauto.
  - destruct H as (cs1 & H & _). eauto.
  - destruct H as (_ & -> & _). apply consumed_same.
  - destruct H as (_ & -> & _). apply consumed_same.
  - destruct H as (_ & -> & _). apply consumed_same.
  - destruct H as (-> & _). apply consumed_same.
  - destruct H as (_ & -> & _). apply consumed_same.
  - destruct H as (_ & -> & _). apply consumed_same.
Qed.

Lemma iter_group_lang (R : step) (G : jsstring -> Prop) i w :
  (forall z cs z' cs', R z cs z' cs' ->
     lookup i cs' = Some w -> lookup i cs = Some w \/ G w) ->
  forall n z cs z' cs', iter n R z cs z' cs' ->
     lookup i cs' = Some w -> lookup i cs = Some w \/ G w.
Proof.
  intros HR. induction n as [|n IH]; intros z cs z' cs' H Hl; simpl in H.
  - destruct H as [_ ->]. auto.
  - destruct H as (z1 & cs1 & H1 & H2).
    destruct (IH _ _ _ _ H2 Hl) as [Hl1|]; [eauto|auto].
Qed.

(** A capture holds a text of its group, unless it was there before. *)
Lemma den_group_lang i w (r : regex) :
  forall z cs z' cs', den r z cs z' cs' ->
    lookup i cs' = Some w -> lookup i cs = Some w \/ group_lang i r w.
Proof.
  induction r as [|p|a IHa b IHb|a IHa b IHb|lo hi a IHa|j a IHa|ml|ml| |a IHa|a IHa|p];
    intros z cs z' cs' H Hl; simpl in H; simpl.
  - destruct H as [_ ->]. auto.
  - destruct H as (c & rest & _ & _ & _ & ->). auto.
  - destruct H as (z1 & cs1 & H1 & H2).
    destruct (IHb _ _ _ _ H2 Hl) as [Hl1|]; [|auto].
    destruct (IHa _ _ _ _ H1 Hl1); auto.
  - destruct H as [H|H]; [destruct (IHa _ _ _ _ H Hl) | destruct (IHb _ _ _ _ H Hl)]; auto.
  - destruct H as (n & _ & _ & H).
    eapply (iter_group_lang (den a)); eauto.
  - destruct H as (cs1 & H & ->). simpl in Hl.
    destruct (Nat.eqb_spec i j) as [->|Hij].
    + injection Hl as <-. right. left. split; [reflexivity|]. eapply den_lang; eauto.
    + destruct (IHa _ _ _ _ H Hl); auto.
  - destruct H as (_ & _ & ->). auto.
  - destruct H as (_ & _ & ->). auto.
  - destruct H as (_ & _ & ->). auto.
  - destruct H as (_ & z1 & H). destruct (IHa _ _ _ _ H Hl); auto.
  - destruct H as (_ & _ & ->). auto.
  - destruct H as (_ & _ & ->). auto.
Qed.

Lemma match_at_group_lang r z z' cs i w :
  match_at r z = Some (z', cs) -> lookup i cs = Some w -> group_lang i r w.
Proof.
  intros H Hl. apply match_at_sound in H.
  destruct (den_group_lang i w r _ _ _ _ H Hl) as [Hn|]; [discriminate|assumption].
Qed.





(** ** Amount texts *)

Lemma lang_iter_all (L : jsstring -> Prop) (p : char -> bool) :
  (forall w, L w -> forallb p w = true) ->
  forall n w, lang_iter n L w -> forallb p w = true.
Proof.
  intros HL. induction n as [|n IH]; intros w H; simpl in H.
  - now subst w.
  - destruct H as (w1 & w2 & -> & H1 & H2). rewrite forallb_app.
    now rewrite (HL _ H1), (IH _ H2).
Qed.

Lemma lang_iter_chr (p : char -> bool) :
  forall n w, lang_iter n (lang (Chr p)) w -> forallb p w = true /\ length w = n.
Proof.
  induction n as [|n IH]; intros w H; simpl in H.
  - now subst w.
  - destruct H as (w1 & w2 & -> & (c & -> & Hc) & H2). apply IH in H2.
    destruct H2 as [H2 <-]. simpl. now rewrite Hc, H2.
Qed.

Lemma lang_rep_chr lo hi (p : char -> bool) w :
  lang (Rep lo (Some hi) (Chr p)) w -> forallb p w = true /\ (lo <= length w <= hi)%nat.
Proof.
  intros (n & Hlo & Hhi & H). apply lang_iter_chr in H. destruct H as [H <-].
  simpl in Hhi. auto.
Qed.


Lemma match_at_chr p pre c post :
  match_at (Chr p) (Cursor pre (c :: post)) =
  if p c then Some (Cursor (c :: pre) post, []) else None.
Proof. reflexivity. Qed.

Lemma consumed_one pre c post :
  consumed (Cursor pre (c :: post)) (Cursor (c :: pre) post) = [c].
Proof. now apply advances_consumed. Qed.










Lemma Qfloor_half (z : Z) (q : Q) :
  (q == inject_Z z + (1 # 2))%Q -> Qfloor q = z.
Proof.
  intros E. rewrite (Qfloor_comp _ _ E).
  unfold Qfloor, Qplus, inject_Z. cbn [Qnum Qden].
  change (Z.pos (1 * 2)) with 2%Z. change (Z.pos 2) with 2%Z. change (Z.pos 1) with 1%Z.
  symmetry. apply (Z.div_unique _ 2 z 1); lia.
Qed.




Lemma fourDecimals_number v : fourDecimals v -> v <> NaN.
Proof. intros (y & z & -> & _). discriminate. Qed.

End TokenFacts.

(* ================================================================== *)
(** * Dates *)

Module DateFacts.
Import JS Regex Num Schema Primitives Spec RegexFacts.
Local Open Scope N_scope.

Lemma date_sep_cases c : date_sep c -> c = 45 \/ c = 47 \/ c = 46.
Proof.
  unfold date_sep, one_of. cbn. intros H.
  repeat (apply orb_true_iff in H; destruct H as [H|H]); try discriminate;
    apply N.eqb_eq in H; auto.
Qed.

Lemma digits_1_2 s :
  digits 1 2 s ->
  (exists a, s = [a] /\ is_digit a = true) \/
  (exists a b, s = [a; b] /\ is_digit a = true /\ is_digit b = true).
Proof.
  intros [H [Hlo Hhi]]. destruct s as [|a [|b [|c s]]]; simpl in *; try lia.
  - left. exists a. apply andb_true_iff in H. tauto.
  - right. exists a, b. repeat (apply andb_true_iff in H; destruct H as [? H]). tauto.
Qed.

Lemma digits_4 s :
  digits 4 4 s ->
  exists a b c d, s = [a; b; c; d] /\ is_digit a = true /\ is_digit b = true /\
                  is_digit c = true /\ is_digit d = true.
Proof.
  intros [H [Hlo Hhi]]. destruct s as [|a [|b [|c [|d [|e s]]]]]; simpl in *; try lia.
  exists a, b, c, d.
  repeat (apply andb_true_iff in H; destruct H as [? H]). tauto.
Qed.

Lemma digits_2 s :
  digits 2 2 s ->
  exists a b, s = [a; b] /\ is_digit a = true /\ is_digit b = true.
Proof.
  intros [H [Hlo Hhi]]. destruct s as [|a [|b [|c s]]]; simpl in *; try lia.
  exists a, b. repeat (apply andb_true_iff in H; destruct H as [? H]). tauto.
Qed.

(** Evaluation of [normaliseDateString] on a string whose digits are known
    to be digits and whose separators are given. *)
Ltac use_digits :=
  repeat match goal with
         | H : is_digit ?c = true |- context [is_digit ?c] => rewrite H
         end.

(** A test of a digit against a separator fails. *)
Ltac split_eqb :=
  match goal with
  | |- context [N.eqb ?c ?k] =>
      is_var c; let E := fresh "E" in
      destruct (N.eqb c k) eqn:E;
      [ apply N.eqb_eq in E; subst c; exfalso;
        match goal with
        | H : is_digit _ = true |- _ => vm_compute in H; discriminate H
        end
      | ]
  end.

Ltac eval_date :=
  unfold normaliseDateString, test, exec; cbn;
  repeat (progress (use_digits; cbn));
  repeat (split_eqb; cbn);
  reflexivity.

(** Day, separator, month, separator and a year of four digits: the ISO
    form, the first number taken as the day. *)
Lemma normalise_dmy raw d m y :
  reads_date 4 raw d m y -> normaliseDateString raw = Exn.Ok (isoDate d m y).
Proof.
  intros (Hd & Hm & Hy & s1 & s2 & H1 & H2 & ->).
  apply digits_4 in Hy. destruct Hy as (y1 & y2 & y3 & y4 & -> & ? & ? & ? & ?).
  apply date_sep_cases in H1, H2.
  apply digits_1_2 in Hd, Hm.
  destruct Hd as [(d1 & -> & ?)|(d1 & d2 & -> & ? & ?)];
    destruct Hm as [(m1 & -> & ?)|(m1 & m2 & -> & ? & ?)];
    destruct H1 as [->|[->| ->]]; destruct H2 as [->|[->| ->]];
    eval_date.
Qed.

(** A year of two digits: the value is returned as it is. *)
Lemma normalise_short_year raw d m y :
  reads_date 2 raw d m y -> normaliseDateString raw = Exn.Ok raw.
Proof.
  intros (Hd & Hm & Hy & s1 & s2 & H1 & H2 & ->).
  apply digits_2 in Hy. destruct Hy as (y1 & y2 & -> & ? & ?).
  apply date_sep_cases in H1, H2.
  apply digits_1_2 in Hd, Hm.
  destruct Hd as [(d1 & -> & ?)|(d1 & d2 & -> & ? & ?)];
    destruct Hm as [(m1 & -> & ?)|(m1 & m2 & -> & ? & ?)];
    destruct H1 as [->|[->| ->]]; destruct H2 as [->|[->| ->]];
    eval_date.
Qed.

(** What the day-month-year pattern matches. *)
Lemma dmy_exact_reads raw m :
  exec RX_DMY_EXACT raw = Some m -> exists d mo y, reads_date 4 raw d mo y.
Proof.
  intros H. apply exec_sound in H.
  destruct H as (pre & post & z' & Hd & _ & _ & Hraw).
  cbv [RX_DMY_EXACT cat rep times digit set] in Hd.
  inv_den Hd. subst.
  match goal with H : at_bol false _ = true |- _ => apply at_bol_false in H; simpl in H end.
  match goal with H : at_eol false _ = true |- _ => apply at_eol_false in H end.
  subst pre. simpl in *.
  exists w, w0, w1. unfold reads_date, digits, date_sep.
  repeat split; auto; try lia.
  exists c, c0. repeat split; auto.
  subst post.
  repeat match goal with
         | H : after ?z = _ |- context [after ?z] => rewrite H
         end.
  now rewrite app_nil_r.
Qed.

(** Any other value is returned as it is. *)
Lemma normalise_other raw :
  (forall d m y, ~ reads_date 4 raw d m y) -> normaliseDateString raw = Exn.Ok raw.
Proof.
  intros Hn. unfold normaliseDateString.
  destruct (test RX_ISO_EXACT raw); [reflexivity|].
  destruct (exec RX_DMY_EXACT raw) as [m|] eqn:E; [|reflexivity].
  apply dmy_exact_reads in E. destruct E as (d & mo & y & E). now apply Hn in E.
Qed.

(** The outcome is never the empty string for a value that is not empty. *)
Lemma normalise_nonempty raw v :
  normaliseDateString raw = Exn.Ok v -> nonempty raw = true -> nonempty v = true.
Proof.
  unfold normaliseDateString. intros H Hr.
  destruct (test RX_ISO_EXACT raw); [now injection H as <-|].
  destruct (exec RX_DMY_EXACT raw) as [m|] eqn:E; [|now injection H as <-].
  destruct (group m 2); [|discriminate]. destruct (group m 1); [|discriminate].
  cbn [Exn.must Exn.bind] in H. injection H as <-.
  destruct (group_text m 3); reflexivity.
Qed.

End DateFacts.

(* ================================================================== *)
(** * The code does not throw *)

Module Totality.
Import JS Regex Num Schema Primitives Parser RegexFacts.

Create HintDb totality.

(** Case analysis on the conditional or match at the head of a computation
    whose outcome is to be shown. *)
Ltac split_head :=
  match goal with
  | |- Exn.succeeds (if ?b then _ else _) => destruct b
  | |- Exn.succeeds (match ?x with _ => _ end) => destruct x eqn:?
  | |- Exn.succeeds (Exn.bind (if ?b then _ else _) _) => destruct b
  | |- Exn.succeeds (Exn.bind (match ?x with _ => _ end) _) => destruct x eqn:?
  end.

Lemma succeeds_ok {A} (a : A) : Exn.succeeds (Exn.Ok a).
Proof. now exists a. Qed.

Lemma succeeds_bind {A B} (m : Exn.result A) (k : A -> Exn.result B) :
  Exn.succeeds m -> (forall a, Exn.succeeds (k a)) -> Exn.succeeds (Exn.bind m k).
Proof. intros [a ->] Hk. apply Hk. Qed.

#[export] Hint Resolve succeeds_ok : totality.

(** A capture that the pattern always sets can be read. *)
Lemma must_group r s m i :
  exec r s = Some m -> sets i r = true -> Exn.succeeds (Exn.must (group m i)).
Proof.
  intros H Hs. destruct (exec_group_defined _ _ i H Hs) as [g ->]. now exists g.
Qed.

(** Every step of a computation succeeds: by a lemma of the database, by
    cases on the test at its head, or one bound computation after the other. *)
Ltac ok :=
  repeat first
    [ solve [auto with totality]
    | solve [eapply must_group; [eassumption | reflexivity]]
    | split_head
    | apply succeeds_bind; [|intros] ].

Lemma normaliseDateString_ok raw : Exn.succeeds (normaliseDateString raw).
Proof. unfold normaliseDateString. ok. Qed.

#[export] Hint Resolve normaliseDateString_ok : totality.

Lemma td_ok rx text : Exn.succeeds (td rx text).
Proof. unfold td. ok. Qed.

#[export] Hint Resolve td_ok : totality.

Lemma extractDates_ok text : Exn.succeeds (extractDates text).
Proof. unfold extractDates. ok. Qed.

#[export] Hint Resolve extractDates_ok : totality.

Lemma depositAfterTotal_ok rows : Exn.succeeds (depositAfterTotal rows).
Proof.
  induction rows as [|l rest IH]; cbn [depositAfterTotal]; auto with totality.
  destruct (exec RX_STANDALONE_AMOUNT (trim l)) as [m|] eqn:E; [|exact IH].
  apply succeeds_bind; [eapply must_group; [exact E | reflexivity]|].
  intros g. ok.
Qed.

#[export] Hint Resolve depositAfterTotal_ok : totality.

Lemma extractVerticalFormItems_ok allLines :
  Exn.succeeds (extractVerticalFormItems allLines).
Proof.
  unfold extractVerticalFormItems.
  destruct (collectLabels allLines [] 0) as [c found].
  destruct (collectInlineQty allLines c found) as [c' found'].
  ok.
Qed.

#[export] Hint Resolve extractVerticalFormItems_ok : totality.

Lemma extractParts_ok bodyLines allLines :
  Exn.succeeds (extractParts bodyLines allLines).
Proof. unfold extractParts. ok. Qed.

#[export] Hint Resolve extractParts_ok : totality.

Lemma classifyDocumentType_ok text : Exn.succeeds (classifyDocumentType text).
Proof. unfold classifyDocumentType. cbn [CLASSIFY_KEYWORDS List.map]. ok. Qed.

#[export] Hint Resolve classifyDocumentType_ok : totality.

Lemma parseAddress_ok block : Exn.succeeds (parseAddress block).
Proof. unfold parseAddress. ok. Qed.

#[export] Hint Resolve parseAddress_ok : totality.

Lemma extractTaxInformation_ok text : Exn.succeeds (extractTaxInformation text).
Proof. unfold extractTaxInformation. ok. Qed.

#[export] Hint Resolve extractTaxInformation_ok : totality.

Lemma buildSupplier_ok nameHint headerBlock :
  Exn.succeeds (buildSupplier nameHint headerBlock).
Proof. unfold buildSupplier. ok. Qed.

#[export] Hint Resolve buildSupplier_ok : totality.

Lemma buildBuyer_ok block : Exn.succeeds (buildBuyer block).
Proof. unfold buildBuyer. ok. Qed.

#[export] Hint Resolve buildBuyer_ok : totality.

Lemma extractBuyer_ok fullText lines : Exn.succeeds (extractBuyer fullText lines).
Proof. unfold extractBuyer. ok. Qed.

#[export] Hint Resolve extractBuyer_ok : totality.

Lemma labeledNumber_ok rx labelLineRx fullText :
  sets 1 rx = true -> Exn.succeeds (labeledNumber rx labelLineRx fullText).
Proof.
  intros Hs. unfold labeledNumber.
  destruct (exec rx fullText) as [m|] eqn:E; [|ok].
  apply succeeds_bind; [eapply must_group; eauto|]. intros g. ok.
Qed.

Lemma extractTransaction_ok fullText currencyCode :
  Exn.succeeds (extractTransaction fullText currencyCode).
Proof.
  unfold extractTransaction.
  apply succeeds_bind; [apply labeledNumber_ok; reflexivity|]. intros inv.
  apply succeeds_bind; [apply labeledNumber_ok; reflexivity|]. intros po.
  ok.
Qed.

#[export] Hint Resolve extractTransaction_ok : totality.

Lemma standaloneAmounts_ok rows : Exn.succeeds (standaloneAmounts rows).
Proof.
  induction rows as [|l rest IH]; cbn [standaloneAmounts]; ok.
Qed.

#[export] Hint Resolve standaloneAmounts_ok : totality.

Lemma posTax_ok rows : Exn.succeeds (posTax rows).
Proof.
  induction rows as [|l rest IH]; cbn [posTax]; ok.
Qed.

#[export] Hint Resolve posTax_ok : totality.

Lemma extractTotals_ok fullText footerText parts :
  Exn.succeeds (extractTotals fullText footerText parts).
Proof. unfold extractTotals. ok. Qed.

#[export] Hint Resolve extractTotals_ok : totality.

Lemma parse_ok now rawText options : Exn.succeeds (parse now rawText options).
Proof. unfold parse. ok. Qed.

End Totality.

(* ================================================================== *)
(** * The claims of the specification *)

Module Claims.
Import JS Regex Num Schema Primitives Parser Confidence Spec.
Import RegexFacts NormaliseFacts PairFacts TokenFacts DateFacts Totality.

(** ** The parser as a whole *)

(** C3.  [parse] returns a record for every input text and every options
    value: none of its steps throws.  For the empty text and no options the
    record has the document type "generic", the grand total 0 and no
    part. *)
Theorem parse_total :
  (forall now rawText options, exists r, parse now rawText options = Exn.Ok r) /\
  (forall now, exists r,
      parse now (str "") (Options None None) = Exn.Ok r /\
      documentType (metadata r) = str "generic" /\
      grandTotal (totals r) = Fin 0 /\
      parts r = []).
Proof.
  split.
  - intros now rawText options. exact (parse_ok now rawText options).
  - intros now. eexists. split; [vm_compute; reflexivity|]. repeat split.
Qed.

(** ** Text normalisation *)

(** C8 (code side).  On "1O2O3" one pass of [normaliseOCRText] repairs the
    first letter O only: the second one, still between two digits, is
    repaired by a second pass, so the function is not idempotent there. *)
Theorem normalise_twice_differs :
  normaliseOCRText (str "1O2O3") = str "102O3" /\
  normaliseOCRText (normaliseOCRText (str "1O2O3")) = str "10203" /\
  normaliseOCRText (normaliseOCRText (str "1O2O3")) <> normaliseOCRText (str "1O2O3").
Proof.
  split; [vm_compute; reflexivity|].
  split; [vm_compute; reflexivity|].
  vm_compute. discriminate.
Qed.

(** C9.  [normaliseOCRText] keeps the number of line feeds of its input. *)
Theorem normalise_preserves_newlines (s : jsstring) :
  count newline (normaliseOCRText s) = count newline s.
Proof.
  unfold normaliseOCRText. cbv zeta.
  now rewrite step_trailing, step_zero_width, step_dash, step_digit_gap, step_blanks,
    step_s_amount, step_digit_o, step_dollar_l.
Qed.

(** ** Segmentation *)

(** C7 (code side).  For the one-line document "ACME" the header ends at 1
    and the footer starts at 0: the line is in the header and in the footer,
    and the three regions do not concatenate to the input. *)
Theorem segment_single_line_overlap :
  headerEnd [str "ACME"] = 1 /\ footerStart [str "ACME"] = 0 /\
  segmentDocument [str "ACME"] = MkSegments [str "ACME"] [] [str "ACME"] /\
  headerLines (segmentDocument [str "ACME"]) ++ bodyLines (segmentDocument [str "ACME"])
    ++ footerLines (segmentDocument [str "ACME"]) <> [str "ACME"].
Proof.
  repeat split; try (vm_compute; reflexivity).
  vm_compute. discriminate.
Qed.

(** ** Purchase-order number *)

(** C5 (code side).  [parse] finds no purchase-order number in
    "PO Number: ABC-42", and for the label split over two lines
    ("Purchase Order", "Number", "12345") the number it returns is the word
    "Number". *)
Theorem po_number_label_not_read (now : jsstring) :
  (exists r, parse now PO_NUMBER_DOC (Options None None) = Exn.Ok r /\
             purchaseOrderNumber (transaction r) = None) /\
  (exists r, parse now PO_SPLIT_DOC (Options None None) = Exn.Ok r /\
             purchaseOrderNumber (transaction r) = Some (str "Number")).
Proof.
  split; eexists; split; try (vm_compute; reflexivity); reflexivity.
Qed.

(** ** Dates *)

Lemma labeledValue_nonempty rx text raw :
  labeledValue rx text = Some raw -> nonempty raw = true.
Proof.
  unfold labeledValue. destruct (exec rx text) as [m|]; [|discriminate].
  destruct (group m 1) as [v|]; [|discriminate].
  destruct (nonempty v) eqn:E; [|discriminate]. now intros [= <-].
Qed.

Lemma td_labeled rx text raw :
  labeledValue rx text = Some raw ->
  exists v, normaliseDateString raw = Exn.Ok v /\ nonempty v = true /\
            td rx text = Exn.Ok (Some v).
Proof.
  intros H. destruct (normaliseDateString_ok raw) as [v Hv].
  exists v. split; [exact Hv|]. split.
  - eapply normalise_nonempty; eauto using labeledValue_nonempty.
  - unfold td. now rewrite H, Hv.
Qed.

(** C4 as stated fails: the labeled date 15/01/24 is returned as it was
    matched, which is not the ISO form and holds no year 2024. *)
Lemma two_digit_year_counterexample :
  exists dates,
    extractDates (str "Invoice Date: 15/01/24") = Exn.Ok dates /\
    invoiceDate dates = Some (str "15/01/24") /\
    test RX_ISO_EXACT (str "15/01/24") = false /\
    includes (str "15/01/24") (str "2024") = false.
Proof. eexists. repeat split; vm_compute; reflexivity. Qed.

(** C4, amended.  [extractDates] gives each labeled date the value that
    [normaliseDateString] makes of the matched text: a text that reads day,
    separator, month, separator, four-digit year becomes YYYY-MM-DD, the
    first number taken as the day and both padded to two digits; with a
    two-digit year the text is returned as it was matched, without a 20xx
    prefix; and so is every text that is not of the first form. *)
Theorem labeled_dates_normalised :
  (forall raw d m y, reads_date 4 raw d m y ->
      normaliseDateString raw = Exn.Ok (isoDate d m y)) /\
  (forall raw d m y, reads_date 2 raw d m y -> normaliseDateString raw = Exn.Ok raw) /\
  (forall raw, (forall d m y, ~ reads_date 4 raw d m y) ->
      normaliseDateString raw = Exn.Ok raw) /\
  (forall text, exists dates,
      extractDates text = Exn.Ok dates /\
      (forall raw, labeledValue invDateRx text = Some raw ->
         exists v, normaliseDateString raw = Exn.Ok v /\ invoiceDate dates = Some v) /\
      (forall raw, labeledValue dueDateRx text = Some raw ->
         exists v, normaliseDateString raw = Exn.Ok v /\ dueDate dates = Some v) /\
      (forall raw, labeledValue txDateRx text = Some raw ->
         exists v, normaliseDateString raw = Exn.Ok v /\ txDate dates = Some v)).
Proof.
  split; [exact normalise_dmy|]. split; [exact normalise_short_year|].
  split; [exact normalise_other|].
  intros text.
  assert (Hrest : forall inv, exists inv',
            (if match inv with Some v => nonempty v | None => false end then Exn.Ok inv
             else match match_all DATE_ISO text with
                  | iso :: _ =>
                      if nonempty iso
                      then Exn.bind (normaliseDateString iso) (fun d => Exn.Ok (Some d))
                      else Exn.Ok inv
                  | [] => Exn.Ok inv
                  end) = Exn.Ok inv' /\
            (forall v, inv = Some v -> nonempty v = true -> inv' = inv)).
  { intros inv. destruct inv as [v|].
    - destruct (nonempty v) eqn:E.
      + exists (Some v). auto.
      + destruct (match_all DATE_ISO text) as [|iso ?]; [exists (Some v); split; auto|].
        destruct (nonempty iso); [|exists (Some v); split; auto].
        destruct (normaliseDateString_ok iso) as [d ->].
        exists (Some d). split; [reflexivity|]. intros ? [= <-]. congruence.
    - destruct (match_all DATE_ISO text) as [|iso ?]; [exists None; split; [auto|discriminate]|].
      destruct (nonempty iso); [|exists None; split; [auto|discriminate]].
      destruct (normaliseDateString_ok iso) as [d ->].
      exists (Some d). split; [reflexivity|discriminate]. }
  unfold extractDates.
  destruct (td_ok invDateRx text) as [inv Hinv].
  destruct (td_ok dueDateRx text) as [due Hdue].
  destruct (td_ok txDateRx text) as [tx Htx].
  destruct (Hrest inv) as (inv' & Hinv' & Hsame).
  rewrite Hinv, Hdue, Htx. cbn [Exn.bind]. rewrite Hinv'. cbn [Exn.bind].
  eexists. split; [reflexivity|]. cbn [invoiceDate dueDate txDate].
  repeat split; intros raw Hraw; apply td_labeled in Hraw;
    destruct Hraw as (v & Hv & Hne & Htd); exists v; (split; [exact Hv|]).
  - rewrite Htd in Hinv. injection Hinv as <-. now apply (Hsame v).
  - rewrite Htd in Hdue. now injection Hdue as <-.
  - rewrite Htd in Htx. now injection Htx as <-.
Qed.

Lemma labeled_dates_normalised_witness :
  normaliseDateString (str "15/01/2024") = Exn.Ok (str "2024-01-15") /\
  normaliseDateString (str "15/01/24") = Exn.Ok (str "15/01/24").
Proof.
  destruct labeled_dates_normalised as (H4 & H2 & _).
  split.
  - apply (H4 (str "15/01/2024") (str "15") (str "01") (str "2024")).
    unfold reads_date, digits, date_sep. repeat split; try (cbn; lia).
    exists (ch "/"), (ch "/"). repeat split.
  - apply (H2 (str "15/01/24") (str "15") (str "01") (str "24")).
    unfold reads_date, digits, date_sep. repeat split; try (cbn; lia).
    exists (ch "/"), (ch "/"). repeat split.
Defined.

(** ** Line items *)



(** C1 as stated fails: on a document whose body holds an item row and whose
    lines hold two label/value pairs, the vertical form is tried before the
    multi-line items and wins; the order of the specification would return
    the item of the row. *)
Lemma extractParts_spec_order_counterexample :
  extractParts (bodyLines (segmentDocument LABELS_AND_ROW_DOC)) LABELS_AND_ROW_DOC
  <> extractPartsSpecOrder (bodyLines (segmentDocument LABELS_AND_ROW_DOC)) LABELS_AND_ROW_DOC.
Proof. vm_compute. discriminate. Qed.

(** C1, amended.  [extractParts] tries the column table on the body, then the
    vertical form on all lines, then the multi-line items on the body, then
    the per-line heuristic on the body, then the per-line heuristic on all
    lines, and returns the first result that is not empty (the last one in
    any case). *)
Theorem extractParts_order (bodyLines allLines : list jsstring) :
  exists verticalItems,
    extractVerticalFormItems allLines = Exn.Ok verticalItems /\
    extractParts bodyLines allLines =
      Exn.Ok (firstNonEmpty [extractFromColumnTable bodyLines; verticalItems;
                             extractMultiLineItems bodyLines; perLine bodyLines]
                            (perLine allLines)).
Proof.
  destruct (extractVerticalFormItems_ok allLines) as [v Hv].
  exists v. split; [exact Hv|].
  unfold extractParts. rewrite Hv. cbn [Exn.bind firstNonEmpty].
  destruct (extractFromColumnTable bodyLines); cbn [is_nil negb]; [|reflexivity].
  destruct v; cbn [is_nil negb]; [|reflexivity].
  destruct (extractMultiLineItems bodyLines); cbn [is_nil negb]; [|reflexivity].
  destruct (perLine bodyLines); reflexivity.
Qed.




(** ** Numeric consistency *)

(** C6 as stated fails: with one part of amount 0 and a grand total of 0 the
    sub-score is 0.4. *)
Lemma numeric_score_zero_totals_counterexample :
  ZERO_PARTS <> [] /\ Num.eq (grandTotal ZERO_TOTALS) (Fin 0) = true /\
  Num.eq (scoreNumericConsistency (Some ZERO_TOTALS) (Some ZERO_PARTS)) (Fin (5 # 10)) = false.
Proof. repeat split; try discriminate; vm_compute; reflexivity. Qed.

(** C6, amended.  For a record with parts and a grand total of 0, the
    sub-score is 0.5 when the subtotal (or, without one, the sum of the part
    amounts) is not 0, and 0.4 when it is 0 too. *)
Theorem numeric_score_zero_grand_total (totals : DataLiftTotals) (parts : list DataLiftPart) :
  parts <> [] ->
  Num.eq (grandTotal totals) (Fin 0) = true ->
  scoreNumericConsistency (Some totals) (Some parts) =
    if Num.eq (subtotalOrSum totals parts) (Fin 0) then Fin (4 # 10) else Fin (5 # 10).
Proof.
  intros Hp Hg. unfold scoreNumericConsistency, subtotalOrSum.
  destruct parts as [|p parts]; [contradiction|].
  rewrite Hg.
  match goal with
  | |- context [Num.eq ?x (Fin 0) && true] => destruct (Num.eq x (Fin 0))
  end; reflexivity.
Qed.

Lemma numeric_score_zero_grand_total_witness :
  scoreNumericConsistency (Some ZERO_TOTALS) (Some ZERO_PARTS) = Fin (4 # 10).
Proof.
  apply (numeric_score_zero_grand_total ZERO_TOTALS ZERO_PARTS).
  - discriminate.
  - reflexivity.
Defined.

End Claims.

(* ================================================================== *)
(** * Further properties of the extraction code *)

Module SegmentFacts.
Import JS Regex Num Schema Primitives Parser Spec.

Lemma first_index_bounds f lo hi i :
  first_index f lo hi = Some i -> lo <= i < hi /\ f i = true.
Proof.
  unfold first_index. intros H. apply find_some in H. destruct H as [H Hf].
  apply in_seq in H. split; [lia|exact Hf].
Qed.

(** The header ends inside the document, within its first 25 lines. *)
Lemma headerEnd_bounds lines :
  headerEnd lines <= length lines /\ headerEnd lines <= 24.
Proof.
  unfold headerEnd. cbv zeta.
  assert (H2 : forall h, h <= length lines /\ h <= 24 ->
            match first_index
                    (fun i => Nat.leb 2 (hits tableHeaderKws (toLowerCase (line_at lines i))))
                    0 (Nat.min 25 (length lines)) with
            | Some i => i
            | None => h
            end <= length lines /\
            match first_index
                    (fun i => Nat.leb 2 (hits tableHeaderKws (toLowerCase (line_at lines i))))
                    0 (Nat.min 25 (length lines)) with
            | Some i => i
            | None => h
            end <= 24).
  { intros h Hh. destruct (first_index _ 0 _) as [j|] eqn:E2; [|exact Hh].
    apply first_index_bounds in E2. lia. }
  destruct (first_index (fun i => test bodyStartKeywords (line_at lines i)) 0 _)
    as [i|] eqn:E1.
  - apply first_index_bounds in E1. destruct E1 as [E1 _].
    destruct (Nat.eqb i _); [apply H2|]; lia.
  - rewrite Nat.eqb_refl. apply H2. lia.
Qed.

Lemma footerStart_bounds lines : footerStart lines <= length lines.
Proof.
  unfold footerStart. cbv zeta.
  destruct (first_index _ (headerEnd lines) (length lines)) as [i|] eqn:E.
  - apply first_index_bounds in E. lia.
  - apply Nat2Z.inj_le. rewrite Z2Nat.id.
    + apply Z.max_lub; [|lia].
      apply Z.div_le_upper_bound; lia.
    + apply Z.le_trans with (3 * Z.of_nat (length lines) / 4)%Z; [|apply Z.le_max_l].
      apply Z.div_pos; lia.
Qed.

(** The footer starts at or after the header end when a totals line is
    found, and in a document of 32 lines or more. *)
Lemma footerStart_after_header lines :
  32 <= length lines -> headerEnd lines <= footerStart lines.
Proof.
  intros Hlen. unfold footerStart. cbv zeta.
  destruct (first_index _ (headerEnd lines) (length lines)) as [i|] eqn:E.
  - apply first_index_bounds in E. lia.
  - pose proof (headerEnd_bounds lines) as [_ H24].
    apply Nat2Z.inj_le. rewrite Z2Nat.id.
    + apply Z.le_trans with (3 * Z.of_nat (length lines) / 4)%Z; [|apply Z.le_max_l].
      apply Z.div_le_lower_bound; lia.
    + apply Z.le_trans with (3 * Z.of_nat (length lines) / 4)%Z; [|apply Z.le_max_l].
      apply Z.div_pos; lia.
Qed.

Lemma slices_partition {A} (l : list A) a b :
  a <= b -> slice 0 a l ++ slice a b l ++ skipn b l = l.
Proof.
  intros Hab. unfold slice. rewrite Nat.sub_0_r. cbn [skipn].
  rewrite <- (firstn_skipn a l) at 4. f_equal.
  rewrite <- (firstn_skipn (b - a) (skipn a l)) at 2. f_equal.
  rewrite skipn_skipn. f_equal. lia.
Qed.

End SegmentFacts.

Module MoreDateFacts.
Import JS Regex Num Schema Primitives Spec RegexFacts DateFacts.
Local Open Scope N_scope.

(** The ISO form is left as it is. *)
Lemma normalise_iso d m y :
  digits 1 2 d -> digits 1 2 m -> digits 4 4 y ->
  normaliseDateString (isoDate d m y) = Exn.Ok (isoDate d m y).
Proof.
  intros Hd Hm Hy.
  apply digits_4 in Hy. destruct Hy as (y1 & y2 & y3 & y4 & -> & ? & ? & ? & ?).
  apply digits_1_2 in Hd, Hm.
  destruct Hd as [(d1 & -> & ?)|(d1 & d2 & -> & ? & ?)];
    destruct Hm as [(m1 & -> & ?)|(m1 & m2 & -> & ? & ?)];
    eval_date.
Qed.

(** The outcome of [normaliseDateString]: the value itself, or the ISO form
    of a day, a month and a four-digit year. *)
Lemma normalise_cases raw :
  normaliseDateString raw = Exn.Ok raw \/
  exists d m y, reads_date 4 raw d m y /\ normaliseDateString raw = Exn.Ok (isoDate d m y).
Proof.
  unfold normaliseDateString at 1.
  destruct (test RX_ISO_EXACT raw); [now left|].
  destruct (exec RX_DMY_EXACT raw) as [m|] eqn:E; [|now left].
  apply dmy_exact_reads in E. destruct E as (d & mo & y & E).
  right. exists d, mo, y. split; [exact E|now apply normalise_dmy].
Qed.

End MoreDateFacts.

Module RequireFacts.
Import JS Regex Num Schema Primitives Spec RegexFacts TokenFacts.


Lemma match_at_requires p r pre post z' cs :
  requires p r -> match_at r (Cursor pre post) = Some (z', cs) -> existsb p post = true.
Proof.
  intros Hr H. apply match_at_sound in H.
  pose proof (den_advances _ _ _ _ _ H) as Ha.
  apply den_lang, Hr in H. destruct Ha as (w & Hw & _).
  rewrite (advances_consumed _ _ _ Hw) in H. simpl in Hw. rewrite Hw.
  rewrite existsb_app, H. reflexivity.
Qed.

Lemma search_from_requires p r :
  requires p r ->
  forall post pre, existsb p post = false -> search_from r pre post = None.
Proof.
  intros Hr. induction post as [|c post IH]; intros pre Hp; cbn [search_from].
  - destruct (match_at r (Cursor pre [])) as [[z' cs]|] eqn:E; [|reflexivity].
    apply (match_at_requires p) in E; [|exact Hr]. congruence.
  - destruct (match_at r (Cursor pre (c :: post))) as [[z' cs]|] eqn:E.
    + apply (match_at_requires p) in E; [|exact Hr]. congruence.
    + apply IH. simpl in Hp. apply orb_false_iff in Hp. tauto.
Qed.

(** A pattern that requires a unit finds nothing in a text without one. *)
Lemma exec_requires p r s : requires p r -> existsb p s = false -> exec r s = None.
Proof. intros Hr Hs. now apply (search_from_requires p). Qed.

Lemma test_requires p r s : requires p r -> existsb p s = false -> test r s = false.
Proof. intros Hr Hs. unfold test. now rewrite (exec_requires p). Qed.

Lemma exec_all_go_requires p r :
  requires p r ->
  forall post skip pre, existsb p post = false -> exec_all_go r skip pre post = [].
Proof.
  intros Hr. induction post as [|c post IH]; intros skip pre Hp.
  - destruct skip; [|reflexivity]. cbn [exec_all_go].
    destruct (match_at r (Cursor pre [])) as [[z' cs]|] eqn:E; [|reflexivity].
    apply (match_at_requires p) in E; [|exact Hr]. congruence.
  - assert (Hp' : existsb p post = false)
      by (simpl in Hp; apply orb_false_iff in Hp; tauto).
    destruct skip; cbn [exec_all_go]; [|now apply IH].
    destruct (match_at r (Cursor pre (c :: post))) as [[z' cs]|] eqn:E.
    + apply (match_at_requires p) in E; [|exact Hr]. congruence.
    + now apply IH.
Qed.

Lemma exec_all_requires p r s : requires p r -> existsb p s = false -> exec_all r s = [].
Proof. intros Hr Hs. now apply (exec_all_go_requires p). Qed.

Lemma requires_chr (p q : char -> bool) :
  (forall c, q c = true -> p c = true) -> requires p (Chr q).
Proof. intros H w (c & -> & Hc). simpl. now rewrite (H c Hc). Qed.

Lemma requires_cat_l p a b : requires p a -> requires p (Cat a b).
Proof.
  intros H w (w1 & w2 & -> & H1 & _). rewrite existsb_app, (H _ H1). reflexivity.
Qed.

Lemma requires_cat_r p a b : requires p b -> requires p (Cat a b).
Proof.
  intros H w (w1 & w2 & -> & _ & H2). rewrite existsb_app, (H _ H2). apply orb_true_r.
Qed.

Lemma requires_alt p a b : requires p a -> requires p b -> requires p (Alt a b).
Proof. intros Ha Hb w [H|H]; auto. Qed.

Lemma requires_grp p i a : requires p a -> requires p (Grp i a).
Proof. intros H w Hw. now apply H. Qed.

Lemma requires_rep p lo hi a : 1 <= lo -> requires p a -> requires p (Rep lo hi a).
Proof.
  intros Hlo H w (n & Hn & _ & Hw). destruct n as [|n]; [lia|].
  destruct Hw as (w1 & w2 & -> & H1 & _). rewrite existsb_app, (H _ H1). reflexivity.
Qed.

(** What is left of a text after trimming is part of it. *)
Lemma drop_while_incl p s c : In c (drop_while p s) -> In c s.
Proof.
  induction s as [|x s IH]; simpl; [tauto|].
  destruct (p x); [intros H; right; now apply IH|simpl; tauto].
Qed.

Lemma trim_incl s c : In c (trim s) -> In c s.
Proof.
  unfold trim, trimEnd, trimStart. intros H.
  apply in_rev, drop_while_incl, in_rev in H. now apply drop_while_incl in H.
Qed.

Lemma existsb_false_incl {A} (p : A -> bool) (s t : list A) :
  (forall c, In c t -> In c s) -> existsb p s = false -> existsb p t = false.
Proof.
  intros Hi Hs. destruct (existsb p t) eqn:E; [|reflexivity].
  apply existsb_exists in E. destruct E as (c & Hc & Hp).
  assert (existsb p s = true) by (apply existsb_exists; exists c; auto). congruence.
Qed.

(** Every match of [numPattern] holds a digit. *)
Lemma numPattern_requires_digit : requires is_digit numPattern.
Proof.
  unfold numPattern. cbn [cat].
  apply requires_cat_r, requires_cat_l, requires_grp, requires_cat_l.
  apply requires_rep; [lia|]. now apply requires_chr.
Qed.

End RequireFacts.

Module AmountFacts.
Import JS Regex Num Schema Primitives Spec PairFacts TokenFacts.


Lemma Ok_some_inj {A} (a b : A) : Exn.Ok (Some a) = Exn.Ok (Some b) -> a = b.
Proof. congruence. Qed.

Lemma Ok_inj {A} (a b : A) : Exn.Ok a = Exn.Ok b -> a = b.
Proof. congruence. Qed.

Lemma Fin_inj a b : Fin a = Fin b -> a = b.
Proof. congruence. Qed.






(** Rounding keeps a number that is not negative so. *)
Lemma round_to_nonNegative d v : nonNegative v -> nonNegative (round_to d v).
Proof.
  intros (q & -> & Hq). unfold round_to.
  destruct (Qle_bool _ _); [now exists q|].
  assert (Hlt : Qltb q 0 = false).
  { unfold Qltb. apply negb_false_iff, Qle_bool_iff. exact Hq. }
  rewrite Hlt. eexists. split; [reflexivity|]. rewrite Qred_correct.
  assert (Hp : (0 < inject_Z (10 ^ Z.of_nat d))%Q).
  { change 0%Q with (inject_Z 0). rewrite <- Zlt_Qlt. apply Z.pow_pos_nonneg; lia. }
  apply Qle_shift_div_l; [exact Hp|]. rewrite Qmult_0_l.
  change 0%Q with (inject_Z 0) at 1. rewrite <- Zle_Qle.
  change 0%Z with (Qfloor 0). apply Qfloor_resp_le.
  rewrite (Qabs_pos _ Hq).
  apply Qle_trans with (q * inject_Z (10 ^ Z.of_nat d) + 0)%Q.
  - rewrite Qplus_0_r. apply Qmult_le_0_compat; [exact Hq|now apply Qlt_le_weak].
  - apply Qplus_le_r. discriminate.
Qed.








End AmountFacts.

Module ScoreFacts.
Import JS Regex Num Schema Primitives Confidence Spec TokenFacts AmountFacts.


Lemma unit_const (q : Q) : (0 <= q <= 1)%Q -> unitInterval (Fin q).
Proof. intros H. now exists q. Qed.

(** Rounding keeps a number of the unit interval there. *)
Lemma round_to_unit d v : unitInterval v -> unitInterval (round_to d v).
Proof.
  intros (q & -> & Hq0 & Hq1).
  destruct (round_to_nonNegative d (Fin q)) as (r & Er & Hr); [now exists q|].
  exists r. split; [exact Er|]. split; [exact Hr|].
  unfold round_to in Er. destruct (Qle_bool _ _) eqn:Eb.
  - apply Fin_inj in Er. now rewrite <- Er.
  - assert (Hlt : Qltb q 0 = false).
    { unfold Qltb. apply negb_false_iff, Qle_bool_iff. exact Hq0. }
    rewrite Hlt in Er. apply Fin_inj in Er. rewrite <- Er, Qred_correct.
    set (p := (10 ^ Z.of_nat d)%Z).
    assert (Hp : (0 < p)%Z) by (apply Z.pow_pos_nonneg; lia).
    assert (HpQ : (0 < inject_Z p)%Q) by (change 0%Q with (inject_Z 0); now rewrite <- Zlt_Qlt).
    apply Qle_shift_div_r; [exact HpQ|]. rewrite Qmult_1_l. rewrite <- Zle_Qle.
    rewrite (Qabs_pos _ Hq0).
    assert (Hle : (q * inject_Z p + (1 # 2) <= inject_Z p + (1 # 2))%Q).
    { apply Qplus_le_l. rewrite <- (Qmult_1_l (inject_Z p)) at 2.
      apply Qmult_le_compat_r; [exact Hq1|now apply Qlt_le_weak]. }
    apply Qfloor_resp_le in Hle.
    rewrite (Qfloor_half p (inject_Z p + (1 # 2))) in Hle by reflexivity. exact Hle.
Qed.

(** The numeric sub-score is one of six constants of the unit interval. *)
Lemma scoreNumericConsistency_unit totals parts :
  unitInterval (scoreNumericConsistency totals parts).
Proof.
  unfold scoreNumericConsistency.
  destruct totals as [t|]; [|apply unit_const; split; discriminate].
  destruct parts as [[|p ps]|]; try (apply unit_const; split; discriminate).
  cbv zeta.
  repeat match goal with
         | |- unitInterval (if ?c then _ else _) => destruct c
         end; apply unit_const; split; discriminate.
Qed.

Lemma scoreDocumentType_unit response documentType :
  unitInterval (scoreDocumentType response documentType).
Proof.
  unfold scoreDocumentType. cbv zeta.
  repeat match goal with
         | |- unitInterval (if ?c then _ else _) => destruct c
         end; apply unit_const; split; discriminate.
Qed.

Lemma scoreFieldPopulation_unit response :
  unitInterval (scoreFieldPopulation response).
Proof.
  unfold scoreFieldPopulation, importantFields. cbv zeta.
  destruct (nonempty (supplierName (supplier response)));
  destruct (filledIn (invoiceNumber (transaction response)));
  destruct (filledIn (txInvoiceDate (transaction response)));
  destruct (nonempty (currency (transaction response)));
  destruct (gt (grandTotal (totals response)) (Fin 0));
  destruct (Nat.ltb 0 (length (parts response)));
  destruct (filledIn (email (supplierContact (supplier response))));
  destruct (filledIn (phone (supplierContact (supplier response))));
  destruct (filledIn (buyerName (buyer response)));
  vm_compute; eexists; (split; [reflexivity|split; discriminate]).
Qed.

Lemma scoreOCR_unit text conf : unitInterval conf -> unitInterval (scoreOCR text conf).
Proof.
  intros (c & -> & Hc0 & Hc1). unfold scoreOCR. cbv zeta.
  set (n := length _).
  assert (Hd : exists d, min (div (of_nat n) (Fin 50)) (Fin 1) = Fin d /\ (0 <= d <= 1)%Q).
  { unfold of_nat, of_Z, div. change (Qeq_bool 50 0) with false. cbv iota.
    unfold min, lt.
    destruct (Qltb 1 (Qred (inject_Z (Z.of_nat n) / 50))) eqn:E.
    - exists 1%Q. split; [reflexivity|]. split; discriminate.
    - eexists. split; [reflexivity|]. rewrite Qred_correct. split.
      + apply Qle_shift_div_l; [reflexivity|]. rewrite Qmult_0_l.
        change 0%Q with (inject_Z 0). rewrite <- Zle_Qle. lia.
      + unfold Qltb in E. apply negb_false_iff, Qle_bool_iff in E.
        now rewrite Qred_correct in E. }
  destruct Hd as (d & -> & Hd0 & Hd1).
  cbn [mul add]. eexists. split; [reflexivity|].
  rewrite !Qred_correct. split; lra.
Qed.

Lemma filter_length_le {A} (f : A -> bool) (l : list A) : length (filter f l) <= length l.
Proof. induction l as [|x l IH]; simpl; [lia|]. destruct (f x); simpl; lia. Qed.

Lemma ratio_unit (m n : nat) : m <= n -> 0 < n -> unitInterval (div (of_nat m) (of_nat n)).
Proof.
  intros Hmn Hn. unfold of_nat, of_Z, div.
  assert (Hq : (0 < inject_Z (Z.of_nat n))%Q)
    by (change 0%Q with (inject_Z 0); rewrite <- Zlt_Qlt; lia).
  destruct (Qeq_bool (inject_Z (Z.of_nat n)) 0) eqn:E.
  - apply Qeq_bool_iff in E. rewrite E in Hq. now apply Qlt_irrefl in Hq.
  - eexists. split; [reflexivity|]. rewrite Qred_correct. split.
    + apply Qle_shift_div_l; [exact Hq|]. rewrite Qmult_0_l.
      change 0%Q with (inject_Z 0). rewrite <- Zle_Qle. lia.
    + apply Qle_shift_div_r; [exact Hq|]. rewrite Qmult_1_l. rewrite <- Zle_Qle. lia.
Qed.

Lemma scoreKeywordMatch_unit text documentType v :
  scoreKeywordMatch text documentType = Exn.Ok v -> unitInterval v.
Proof.
  unfold scoreKeywordMatch. cbv zeta.
  destruct (documentKeywords _) as [[kws|]|]; try discriminate.
  - destruct kws as [|k kws]; intros H; apply Ok_inj in H; rewrite <- H;
      [apply unit_const; split; discriminate|].
    apply ratio_unit; [apply filter_length_le|simpl; lia].
  - intros [= <-]. apply unit_const; split; discriminate.
Qed.

(** The weighted sum of five numbers of the unit interval. *)
Lemma weighted_unit a b c d e :
  unitInterval a -> unitInterval b -> unitInterval c -> unitInterval d -> unitInterval e ->
  unitInterval
    (add (add (add (add (mul a WEIGHT_OCR) (mul b WEIGHT_FIELDS)) (mul c WEIGHT_NUMERIC))
              (mul d WEIGHT_DOC_TYPE))
         (mul e WEIGHT_KEYWORD)).
Proof.
  intros (qa & -> & Ha) (qb & -> & Hb) (qc & -> & Hc) (qd & -> & Hd) (qe & -> & He).
  unfold WEIGHT_OCR, WEIGHT_FIELDS, WEIGHT_NUMERIC, WEIGHT_DOC_TYPE, WEIGHT_KEYWORD.
  cbn [mul add]. eexists. split; [reflexivity|].
  rewrite !Qred_correct. split; lra.
Qed.

(** The two document types whose keywords are inherited values. *)
Lemma eqb_eq a b : JS.eqb a b = true <-> a = b.
Proof.
  revert b. induction a as [|x a IH]; destruct b as [|y b]; simpl; split; try easy.
  - intros H. apply andb_true_iff in H. destruct H as [H1 H2].
    apply N.eqb_eq in H1. apply IH in H2. congruence.
  - intros [= -> ->]. rewrite N.eqb_refl. now apply IH.
Qed.

Lemma documentKeywords_inherited key :
  documentKeywords key = Some InheritedValue <->
  key = str "constructor" \/ key = str "__proto__".
Proof.
  split.
  - unfold documentKeywords, DOCUMENT_KEYWORDS. cbn [find fst snd].
    repeat match goal with
           | |- context [JS.eqb ?a key] =>
               let E := fresh "E" in
               destruct (JS.eqb a key) eqn:E;
               [ cbn [option_map snd]; intros H;
                 first [discriminate H | apply eqb_eq in E; subst key; auto]
               | ]
           end.
    cbn. discriminate.
  - intros [->| ->]; reflexivity.
Qed.





(** When [score] throws. *)
Lemma score_throws_iff (response : DataLiftResponse)
    (rawText : jsstring) (ocrConf : number) (documentType : jsstring) :
  score response rawText ocrConf documentType = Exn.Throw <->
  toLowerCase documentType = str "constructor" \/
  toLowerCase documentType = str "__proto__".
Proof.
  rewrite <- documentKeywords_inherited. unfold score, scoreKeywordMatch. cbv zeta.
  destruct (documentKeywords (toLowerCase documentType)) as [[kws|]|].
  - destruct kws; cbn [Exn.bind]; split; discriminate.
  - cbn [Exn.bind]. split; reflexivity.
  - cbn [Exn.bind]. split; discriminate.
Qed.

(** The scores of a breakdown are between 0 and 1. *)
Lemma score_unit (response : DataLiftResponse)
    (rawText : jsstring) (ocrConf : number) (documentType : jsstring) :
  unitInterval ocrConf ->
  toLowerCase documentType <> str "constructor" ->
  toLowerCase documentType <> str "__proto__" ->
  exists b,
    score response rawText ocrConf documentType = Exn.Ok b /\
    unitInterval (overall b) /\ unitInterval (ocr b) /\ unitInterval (fields b) /\
    unitInterval (numeric b) /\ unitInterval (docType b) /\ unitInterval (keyword b).
Proof.
  intros Hc H1 H2.
  destruct (scoreKeywordMatch rawText documentType) as [k|] eqn:Ek.
  - pose proof (scoreKeywordMatch_unit _ _ _ Ek) as Hk.
    pose proof (scoreOCR_unit rawText _ Hc) as Ho.
    pose proof (scoreFieldPopulation_unit response) as Hf.
    pose proof (scoreNumericConsistency_unit (Some (totals response)) (Some (parts response)))
      as Hn.
    pose proof (scoreDocumentType_unit response documentType) as Hd.
    unfold score. cbv zeta. rewrite Ek. cbn [Exn.bind].
    eexists. split; [reflexivity|]. cbn [overall ocr fields numeric docType keyword].
    repeat split; apply round_to_unit; try assumption.
    now apply weighted_unit.
  - exfalso.
    assert (Ht : score response rawText ocrConf documentType = Exn.Throw)
      by (unfold score; cbv zeta; now rewrite Ek).
    apply score_throws_iff in Ht. tauto.
Qed.

(** The names of the document types are own keys of no prototype. *)
Lemma docTypeName_scored (t : DataLiftDocumentType) :
  toLowerCase (docTypeName t) <> str "constructor" /\
  toLowerCase (docTypeName t) <> str "__proto__".
Proof. destruct t; split; vm_compute; discriminate. Qed.

End ScoreFacts.

Module SearchFacts.
Import JS Regex Num Schema Primitives Spec RegexFacts.
Local Open Scope N_scope.

(** The search finds a match when the pattern matches at some place. *)
Lemma search_from_finds r :
  forall a pre b,
    match_at r (Cursor (rev a ++ pre) b) <> None -> search_from r pre (a ++ b) <> None.
Proof.
  induction a as [|c a IH]; intros pre b H.
  - simpl in *. destruct b as [|x b]; cbn [search_from];
      destruct (match_at r _) as [[z' cs]|]; try discriminate; contradiction.
  - cbn [app search_from].
    destruct (match_at r (Cursor pre (c :: a ++ b))) as [[z' cs]|]; [discriminate|].
    apply IH. simpl in H. now rewrite <- app_assoc in H.
Qed.

Lemma test_finds r a b :
  match_at r (Cursor (rev a) b) <> None -> test r (a ++ b) = true.
Proof.
  intros H. unfold test, exec.
  pose proof (search_from_finds r a [] b) as Hs. rewrite app_nil_r in Hs.
  destruct (search_from r [] (a ++ b)); [reflexivity|]. now apply Hs in H.
Qed.

(** The pattern of the US dollar matches wherever a dollar sign stands. *)
Lemma dollar_is_usd text :
  In 36 text ->
  test (alt [lit "$"; liti "USD"; cat [liti "US"; lit "$"];
             cat [liti "US"; plus space; liti "dollar"]]) text = true.
Proof.
  intros H. apply in_split in H. destruct H as (a & b & ->).
  apply test_finds. unfold match_at. cbn [alt]. cbn [run]. 
  change (lit "$") with (Chr (N.eqb 36)). cbn [run after before]. discriminate.
Qed.

End SearchFacts.

Module ClassifyFacts.
Import JS Regex Num Schema Primitives Spec.

(** The [reduce] that keeps the first entry of the highest score. *)
Lemma argmax_split {A} (score : A -> nat) (others : list A) :
  forall l1 acc l2,
    (forall x, In x l1 -> score x < score acc) ->
    (forall x, In x l2 -> score x <= score acc) ->
    exists l1' l2',
      l1 ++ acc :: l2 ++ others =
      l1' ++ fold_left (fun a b => if Nat.ltb (score a) (score b) then b else a) others acc
          :: l2' /\
      (forall x, In x l1' ->
         score x < score (fold_left (fun a b => if Nat.ltb (score a) (score b) then b else a)
                                    others acc)) /\
      (forall x, In x l2' ->
         score x <= score (fold_left (fun a b => if Nat.ltb (score a) (score b) then b else a)
                                     others acc)).
Proof.
  induction others as [|b others IH]; intros l1 acc l2 H1 H2; cbn [fold_left].
  - exists l1, l2. now rewrite app_nil_r.
  - destruct (Nat.ltb (score acc) (score b)) eqn:E.
    + apply Nat.ltb_lt in E.
      destruct (IH (l1 ++ acc :: l2) b []) as (l1' & l2' & Heq & Hl1 & Hl2).
      * intros x Hx. apply in_app_iff in Hx. destruct Hx as [Hx|[<-|Hx]];
          [apply H1 in Hx; lia|exact E|apply H2 in Hx; lia].
      * intros x [].
      * exists l1', l2'. split; [|auto]. rewrite <- Heq. rewrite <- app_assoc. reflexivity.
    + apply Nat.ltb_ge in E.
      destruct (IH l1 acc (l2 ++ [b])) as (l1' & l2' & Heq & Hl1 & Hl2).
      * exact H1.
      * intros x Hx. apply in_app_iff in Hx. destruct Hx as [Hx|[<-|[]]]; auto.
      * exists l1', l2'. split; [|auto]. rewrite <- Heq. rewrite <- !app_assoc. reflexivity.
Qed.

End ClassifyFacts.

Module NumberFacts.
Import JS Regex Num Schema Primitives Parser Spec RegexFacts TokenFacts.
Local Open Scope N_scope.

Lemma group_lang_has_group i w (r : regex) : group_lang i r w -> has_group i r = true.
Proof.
  induction r as [|p|a IHa b IHb|a IHa b IHb|lo hi a IHa|j a IHa|ml|ml| |a IHa|a IHa|p];
    simpl; try contradiction; auto.
  - intros [H|H]; [rewrite (IHa H)|rewrite (IHb H)]; auto using orb_true_r.
  - intros [H|H]; [rewrite (IHa H)|rewrite (IHb H)]; auto using orb_true_r.
  - intros [[-> _]|H]; [now rewrite Nat.eqb_refl|rewrite (IHa H); apply orb_true_r].
Qed.

Lemma search_from_group_lang r i w :
  forall post pre m,
    search_from r pre post = Some m -> group m i = Some w -> group_lang i r w.
Proof.
  induction post as [|c post IH]; intros pre m H Hg; cbn [search_from] in H.
  - destruct (match_at r (Cursor pre [])) as [[z' cs]|] eqn:E; [|discriminate].
    injection H as <-. eapply match_at_group_lang; eauto.
  - destruct (match_at r (Cursor pre (c :: post))) as [[z' cs]|] eqn:E.
    + injection H as <-. eapply match_at_group_lang; eauto.
    + eauto.
Qed.

(** The capture of a match holds a text of its group. *)
Lemma exec_group_lang r s m i w :
  exec r s = Some m -> group m i = Some w -> group_lang i r w.
Proof. apply search_from_group_lang. Qed.

Lemma den_ends_at_eol (r : regex) :
  forall z cs z' cs', den r z cs z' cs' -> ends_at_eol r = true -> after z' = [].
Proof.
  induction r as [|p|a IHa b IHb|a IHa b IHb|lo hi a IHa|j a IHa|ml|ml| |a IHa|a IHa|p];
    intros z cs z' cs' H He; simpl in He; try discriminate.
  - destruct H as (z1 & cs1 & _ & H). eauto.
  - destruct ml; [discriminate|]. destruct H as (H & -> & _). now apply at_eol_false.
Qed.

(** A pattern between the anchors of the start and of the end of the input
    passes over the whole text. *)
Lemma test_anchored r s :
  ends_at_eol r = true -> test (Cat (Bol false) r) s = true -> lang r s.
Proof.
  intros He H. unfold test in H.
  destruct (exec (Cat (Bol false) r) s) as [m|] eqn:E; [|discriminate].
  apply exec_sound in E. destruct E as (pre & post & z' & Hd & _ & _ & Hs).
  destruct Hd as (z1 & cs1 & (Hb & -> & ->) & Hd).
  apply at_bol_false in Hb. simpl in Hb. subst pre. simpl in Hs. subst post.
  pose proof (den_ends_at_eol _ _ _ _ _ Hd He) as Hend.
  apply den_lang in Hd. unfold consumed in Hd. rewrite Hend in Hd. simpl in Hd.
  now rewrite Nat.sub_0_r, firstn_all in Hd.
Qed.

(** Trimming leaves a text without white space as it is. *)
Lemma drop_while_head p s :
  match s with [] => True | c :: _ => p c = false end -> drop_while p s = s.
Proof. destruct s as [|c s]; [reflexivity|]. simpl. now intros ->. Qed.

Lemma trim_no_space s : forallb (fun c => negb (is_space c)) s = true -> trim s = s.
Proof.
  intros H. unfold trim, trimEnd, trimStart.
  assert (Hh : forall t, forallb (fun c => negb (is_space c)) t = true ->
                match t with [] => True | c :: _ => is_space c = false end).
  { intros [|c t]; [auto|]. simpl. intros Ht. apply andb_true_iff in Ht.
    now apply negb_true_iff. }
  rewrite (drop_while_head is_space s (Hh _ H)).
  rewrite (drop_while_head is_space (rev s)); [apply rev_involutive|].
  apply Hh. rewrite forallb_forall in *. intros x Hx. apply H. now apply in_rev.
Qed.

Lemma alnum_not_space c : is_alpha c || is_digit c = true -> is_space c = false.
Proof.
  unfold is_alpha, is_upper, is_lower, is_digit, is_space, between. intros H.
  repeat match goal with
         | H : _ || _ = true |- _ => apply orb_true_iff in H; destruct H as [H|H]
         | H : _ && _ = true |- _ => apply andb_true_iff in H; destruct H as [? H]
         | H : (_ <=? _) = true |- _ => apply N.leb_le in H
         end;
    repeat (apply orb_false_iff; split);
    try (apply andb_false_iff; first [left; apply N.leb_gt; lia | right; apply N.leb_gt; lia]);
    apply N.eqb_neq; lia.
Qed.

Lemma number_char_not_space c : is_word c || one_of "-/" c = true -> is_space c = false.
Proof.
  intros H. apply orb_true_iff in H. destruct H as [H|H].
  - unfold is_word in H. apply orb_true_iff in H. destruct H as [H|H].
    + now apply alnum_not_space.
    + apply N.eqb_eq in H. now subst c.
  - unfold one_of in H. cbn in H.
    repeat (apply orb_true_iff in H; destruct H as [H|H]); try discriminate;
      apply N.eqb_eq in H; now subst c.
Qed.

(** A text of the shape of a number holds no white space, and trimming
    leaves it as it is. *)
Lemma numberShape_no_space hi v :
  numberShape hi v -> forallb (fun c => negb (is_space c)) v = true.
Proof.
  intros (c & rest & -> & Hc & Hr & _). simpl.
  rewrite (alnum_not_space _ Hc). simpl.
  rewrite forallb_forall in *. intros x Hx. rewrite (number_char_not_space x); auto.
Qed.

Lemma numberShape_trim hi v : numberShape hi v -> trim v = v.
Proof. intros H. eapply trim_no_space, numberShape_no_space; eauto. Qed.

(** The texts of the value pattern. *)
Lemma number_value_lang hi g :
  lang (cat [Chr is_alnum_ci; rep 1 hi (Chr (fun c => is_word c || one_of "-/" c))]) g ->
  numberShape hi g.
Proof.
  intros (w1 & w2 & -> & (c & -> & Hc) & H2).
  apply lang_rep_chr in H2. destruct H2 as [H2 Hl].
  exists c, w2. auto.
Qed.

Lemma number_value_group hi g :
  group_lang 1 (RX_NUMBER_VALUE hi) g -> numberShape hi g.
Proof.
  intros [[_ H]|H]; [now apply number_value_lang|].
  apply group_lang_has_group in H. discriminate H.
Qed.

(** A line that is a value. *)
Lemma valueLine_shape val : test valueLineRx val = true -> numberShape 30 val.
Proof.
  intros H.
  change valueLineRx
    with (Cat (Bol false)
              (cat [Chr is_alnum_ci; rep 1 30 (Chr (fun c => is_word c || one_of "-/" c));
                    Eol false])) in H.
  apply test_anchored in H; [|reflexivity].
  destruct H as (w1 & w2 & -> & (c & -> & Hc) & w3 & w4 & -> & H3 & ->).
  apply lang_rep_chr in H3. destruct H3 as [H3 Hl].
  exists c, w3. rewrite app_nil_r. auto.
Qed.

Lemma labelThenValue_shape labelRx :
  forall lines v, labelThenValue labelRx lines = Some v -> numberShape 30 v.
Proof.
  induction lines as [|l rest IH]; intros v H; cbn [labelThenValue] in H; [discriminate|].
  destruct rest as [|l2 rest]; [discriminate|].
  destruct (test labelRx l); [|now apply IH].
  destruct (find _ _) as [val|] eqn:E; [|now apply IH].
  injection H as <-. apply find_some in E. destruct E as [_ E].
  apply andb_true_iff in E. now apply valueLine_shape.
Qed.

(** The number found by a label has the shape of a number when the capture
    of the label pattern has it. *)
Lemma labeledNumber_shape rx labelLineRx text v :
  (forall g, group_lang 1 rx g -> numberShape 30 g) ->
  labeledNumber rx labelLineRx text = Exn.Ok (Some v) -> numberShape 30 v.
Proof.
  intros Hrx H. unfold labeledNumber in H.
  destruct (exec rx text) as [m|] eqn:E.
  - destruct (group m 1) as [g|] eqn:Eg; [|discriminate].
    cbn [Exn.must Exn.bind] in H. injection H as <-.
    pose proof (Hrx g (exec_group_lang _ _ _ _ _ E Eg)) as Hs.
    now rewrite (numberShape_trim _ _ Hs).
  - injection H as H. now apply labelThenValue_shape in H.
Qed.

(** The group of a sequence that ends with the value pattern. *)
Ltac value_group H :=
  repeat match type of H with
         | group_lang 1 (Cat _ _) _ =>
             destruct H as [H|H];
             [apply group_lang_has_group in H; vm_compute in H; discriminate H|]
         end;
  now apply number_value_group in H.

Lemma invRx_group g : group_lang 1 invRx g -> numberShape 30 g.
Proof. unfold invRx. cbn [cat]. intros H. value_group H. Qed.

Lemma poRx_group g : group_lang 1 poRx g -> numberShape 30 g.
Proof. unfold poRx. cbn [cat]. intros H. value_group H. Qed.

Lemma quoteRx_group g : group_lang 1 quoteRx g -> numberShape 20 g.
Proof. unfold quoteRx. cbn [cat]. intros H. value_group H. Qed.

End NumberFacts.

Module TotalsFacts.
Import JS Regex Num Schema Primitives Parser Spec RegexFacts PairFacts TokenFacts.
Import AmountFacts NumberFacts.
Local Open Scope N_scope.




















(** ** Labeled amounts and totals *)















End TotalsFacts.

Module CleanFacts.
Import JS Regex Num Schema Primitives Spec RegexFacts ReplaceFacts TokenFacts.
Local Open Scope N_scope.

(** The global replacement of a class by a fixed text. *)
Lemma replace_go_chr p (f : rmatch -> jsstring) t :
  (forall m, f m = t) ->
  forall post pre,
    replace_go (Chr p) f 0 pre post = flat_map (fun c => if p c then t else [c]) post.
Proof.
  intros Hf. induction post as [|c post IH]; intros pre; [reflexivity|].
  cbn [replace_go flat_map]. rewrite match_at_chr.
  destruct (p c).
  - rewrite consumed_one, Hf. cbn [length]. now rewrite IH.
  - cbn [app]. now rewrite IH.
Qed.

(** A replacement by the empty text only deletes. *)
Lemma replace_go_delete_incl r :
  forall post skip pre c,
    In c (replace_go r (fun _ => []) skip pre post) -> In c post.
Proof.
  induction post as [|x post IH]; intros skip pre c H.
  - destruct skip; cbn [replace_go] in H; [|contradiction].
    destruct (match_at r (Cursor pre [])) as [[z' cs]|]; contradiction.
  - destruct skip as [|k]; cbn [replace_go] in H.
    + destruct (match_at r (Cursor pre (x :: post))) as [[z' cs]|].
      * cbn [app] in H.
        destruct (length (consumed (Cursor pre (x :: post)) z')).
        -- destruct H as [<-|H]; [now left|right; eauto].
        -- right. eauto.
      * destruct H as [<-|H]; [now left|right; eauto].
    + right. eauto.
Qed.

Lemma delete_incl r t c :
  In c (replace_all_with r [] t) -> In c t.
Proof. apply (replace_go_delete_incl r t 0 []). Qed.

Lemma dash_step t c :
  In c (replace_all_with RX_DASH (str "-") t) -> is_dash c = false.
Proof.
  unfold replace_all_with, replace_all, RX_DASH.
  rewrite (replace_go_chr is_dash _ (str "-")) by (intros m; reflexivity).
  intros H. apply in_flat_map in H. destruct H as (x & _ & H).
  destruct (is_dash x) eqn:E.
  - destruct H as [<-|[]]. reflexivity.
  - destruct H as [<-|[]]. exact E.
Qed.

Lemma zero_width_step t c :
  In c (replace_all_with RX_ZERO_WIDTH (str "") t) -> is_zero_width c = false /\ In c t.
Proof.
  unfold replace_all_with, replace_all, RX_ZERO_WIDTH.
  rewrite (replace_go_chr is_zero_width _ []) by (intros m; reflexivity).
  intros H. apply in_flat_map in H. destruct H as (x & Hx & H).
  destruct (is_zero_width x) eqn:E; [contradiction|].
  destruct H as [<-|[]]. auto.
Qed.

(** ** The length of the normalised text *)

Local Close Scope N_scope.

Lemma lang_iter_min_len (L : jsstring -> Prop) k :
  (forall w, L w -> k <= length w) ->
  forall n w, lang_iter n L w -> n * k <= length w.
Proof.
  intros HL. induction n as [|n IH]; intros w H; simpl in H.
  - subst w. simpl. lia.
  - destruct H as (w1 & w2 & -> & H1 & H2). apply HL in H1. apply IH in H2.
    rewrite length_app. simpl. lia.
Qed.

Lemma lang_min_len (r : regex) : forall w, lang r w -> min_len r <= length w.
Proof.
  induction r as [|p|a IHa b IHb|a IHa b IHb|lo hi a IHa|j a IHa|ml|ml| |a IHa|a IHa|p];
    intros w H; simpl in *; try lia.
  - destruct H as (c & -> & _). simpl. lia.
  - destruct H as (w1 & w2 & -> & H1 & H2). apply IHa in H1. apply IHb in H2.
    rewrite length_app. lia.
  - destruct H as [H|H]; [apply IHa in H|apply IHb in H]; lia.
  - destruct H as (n & Hlo & _ & H).
    apply (lang_iter_min_len _ (min_len a) IHa) in H.
    apply Nat.le_trans with (n * min_len a); [|exact H].
    now apply Nat.mul_le_mono_r.
  - auto.
Qed.

Lemma match_at_min_len r pre post z' cs :
  match_at r (Cursor pre post) = Some (z', cs) ->
  min_len r <= length (consumed (Cursor pre post) z').
Proof. intros H. apply match_at_sound, den_lang in H. now apply lang_min_len. Qed.

(** A global replacement does not lengthen the text when no match is
    replaced by a longer text. *)
Lemma replace_go_length r f :
  (forall pre post z' cs,
      match_at r (Cursor pre post) = Some (z', cs) ->
      length (f (RMatch (length pre) (consumed (Cursor pre post) z') cs))
      <= length (consumed (Cursor pre post) z')) ->
  forall post skip pre,
    length (replace_go r f skip pre post) + Nat.min skip (length post) <= length post.
Proof.
  intros Hf. induction post as [|c post IH]; intros skip pre.
  - destruct skip as [|k]; cbn [replace_go]; [|simpl; lia].
    destruct (match_at r (Cursor pre [])) as [[z' cs]|] eqn:E; [|simpl; lia].
    apply Hf in E. rewrite app_nil_r. unfold consumed in E at 2. simpl in E. simpl. lia.
  - destruct skip as [|k]; cbn [replace_go].
    + destruct (match_at r (Cursor pre (c :: post))) as [[z' cs]|] eqn:E.
      * pose proof (Hf _ _ _ _ E) as Hl. rewrite length_app.
        assert (Hc : length (consumed (Cursor pre (c :: post)) z') <= S (length post)).
        { unfold consumed. rewrite length_firstn. simpl. lia. }
        destruct (length (consumed (Cursor pre (c :: post)) z')) as [|k] eqn:El.
        -- specialize (IH 0%nat (c :: pre)). simpl in *. lia.
        -- specialize (IH k (c :: pre)). simpl in *. lia.
      * specialize (IH 0%nat (c :: pre)). simpl in *. lia.
    + specialize (IH k (c :: pre)). simpl in *. lia.
Qed.

Lemma replace_all_length r f :
  (forall pre post z' cs,
      match_at r (Cursor pre post) = Some (z', cs) ->
      length (f (RMatch (length pre) (consumed (Cursor pre post) z') cs))
      <= length (consumed (Cursor pre post) z')) ->
  forall s, length (replace_all r f s) <= length s.
Proof.
  intros Hf s. pose proof (replace_go_length r f Hf s 0 []) as H. simpl in H.
  unfold replace_all. lia.
Qed.

(** The case of a fixed replacement that is no longer than the shortest
    match. *)
Lemma replace_const_length r template n s :
  (forall m, length (subst (ngroups r) m template (length template)) = n) ->
  n <= min_len r ->
  length (replace_all_with r template s) <= length s.
Proof.
  intros Ht Hn. unfold replace_all_with. apply replace_all_length.
  intros pre post z' cs E. rewrite Ht. apply match_at_min_len in E. lia.
Qed.

Lemma length_dollar_l t :
  length (replace_all_with RX_DOLLAR_L (str "$11$2") t) <= length t.
Proof.
  unfold replace_all_with. apply replace_all_length. intros pre post z' cs E.
  rewrite NormaliseFacts.subst_dollar_l.
  apply match_at_sound in E.
  cbv [RX_DOLLAR_L cat lit star set digit space List.map str list_ascii_of_string lit1] in E.
  inv_den E. subst. cbn [after] in *.
  assert (E1 : consumed (Cursor pre post) z = c :: w)
    by (apply advances_consumed; cbn [after]; rewrite H0, H6; reflexivity).
  assert (E2 : consumed z1 z' = [c1])
    by (apply advances_consumed; rewrite H14; reflexivity).
  assert (E3 : consumed (Cursor pre post) z' = (c :: w) ++ [c0; c1])
    by (apply advances_consumed; cbn [after]; rewrite H0, H6, H10, H14;
        now rewrite <- app_assoc).
  rewrite E1, E2, E3.
  cbn [group_text group groups lookup Nat.eqb].
  rewrite !length_app. simpl. lia.
Qed.

Lemma length_digit_o t :
  length (replace_all_with RX_DIGIT_O (str "$10$2") t) <= length t.
Proof.
  unfold replace_all_with. apply replace_all_length. intros pre post z' cs E.
  rewrite NormaliseFacts.subst_digit_o.
  apply match_at_sound in E.
  cbv [RX_DIGIT_O cat lit star set digit space List.map str list_ascii_of_string lit1] in E.
  inv_den E. subst. cbn [after] in *.
  assert (E1 : consumed (Cursor pre post) z = [c])
    by (apply advances_consumed; cbn [after]; rewrite H0; reflexivity).
  assert (E2 : consumed z0 z' = [c1])
    by (apply advances_consumed; rewrite H8; reflexivity).
  assert (E3 : consumed (Cursor pre post) z' = [c; c0; c1])
    by (apply advances_consumed; cbn [after]; rewrite H0, H4, H8; reflexivity).
  rewrite E1, E2, E3.
  cbn [group_text group groups lookup Nat.eqb]. simpl. lia.
Qed.

(** ** Blanks at the end of a line *)

Lemma blank_not_terminator c : is_sp_tab c = true -> is_line_terminator c = false.
Proof.
  unfold is_sp_tab. intros H. apply orb_true_iff in H.
  destruct H as [H|H]; apply N.eqb_eq in H; now subst c.
Qed.

(** The run of blanks is taken whole, and only the place after it can be
    the end of a line. *)
Lemma rep_blanks :
  forall bl rest pre n fuel,
    forallb is_sp_tab bl = true ->
    match rest with [] => True | x :: _ => is_sp_tab x = false end ->
    length bl < fuel ->
    rep_loop (run (Chr is_sp_tab)) 1 None line_end_k fuel n (Cursor pre (bl ++ rest)) []
    = if Nat.leb 1 (n + length bl)
      then line_end_k (Cursor (rev bl ++ pre) rest) [] else None.
Proof.
  set (body := run (Chr is_sp_tab)).
  assert (Hbody : forall z cs k,
            body z cs k = match after z with
                          | c :: rest => if is_sp_tab c
                                         then k (Cursor (c :: before z) rest) cs else None
                          | [] => None
                          end) by reflexivity.
  clearbody body.
  induction bl as [|c bl IH]; intros rest pre n fuel Hbl Hrest Hfuel.
  - cbn [app length rev]. rewrite Nat.add_0_r.
    destruct fuel as [|fuel]; [simpl in Hfuel; lia|].
    cbn [rep_loop below]. rewrite Hbody. cbn [after].
    destruct rest as [|x rest]; [reflexivity|]. now rewrite Hrest.
  - destruct fuel as [|fuel]; [simpl in Hfuel; lia|].
    simpl in Hbl. apply andb_true_iff in Hbl. destruct Hbl as [Hc Hbl].
    cbn [app rep_loop below]. rewrite Hbody. cbn [after before]. rewrite Hc.
    assert (Hprog : Nat.ltb (length (bl ++ rest)) (length (c :: bl ++ rest)) = true)
      by (apply Nat.ltb_lt; simpl; lia).
    rewrite Hprog. cbn [orb].
    rewrite (IH rest (c :: pre) (S n) fuel Hbl Hrest) by (simpl in Hfuel; lia).
    assert (Hstop : (if Nat.leb 1 n then line_end_k (Cursor pre (c :: bl ++ rest)) [] else None)
                    = None).
    { destruct (Nat.leb 1 n); [|reflexivity].
      unfold line_end_k. cbn [run at_eol after]. now rewrite (blank_not_terminator _ Hc). }
    rewrite Hstop.
    assert (H1 : Nat.leb 1 (S n + length bl) = true) by (apply Nat.leb_le; lia).
    assert (H2 : Nat.leb 1 (n + length (c :: bl)) = true) by (apply Nat.leb_le; simpl; lia).
    rewrite H1, H2. cbn [rev]. rewrite <- app_assoc. cbn [app].
    match goal with |- _ = ?x => destruct x; reflexivity end.
Qed.

Lemma match_at_trailing bl rest pre :
  forallb is_sp_tab bl = true ->
  match rest with [] => True | x :: _ => is_sp_tab x = false end ->
  match_at RX_TRAILING (Cursor pre (bl ++ rest))
  = match bl with
    | [] => None
    | _ => if at_line_end rest then Some (Cursor (rev bl ++ pre) rest, []) else None
    end.
Proof.
  intros Hbl Hrest. unfold match_at, RX_TRAILING, plus. cbn [cat run after].
  change (fun z1 cs1 => run (Eol true) z1 cs1 ret) with line_end_k.
  rewrite (rep_blanks bl rest pre 0 _ Hbl Hrest) by (rewrite length_app; lia).
  destruct bl as [|c bl]; [reflexivity|]. cbn [Nat.add length Nat.leb].
  unfold line_end_k. cbn [run at_eol after]. unfold at_line_end.
  destruct rest as [|x rest]; reflexivity.
Qed.

(** A text is a run of blanks and a rest that does not begin with one. *)
Lemma blanks_split (s : jsstring) :
  exists bl rest,
    s = bl ++ rest /\ forallb is_sp_tab bl = true /\
    match rest with [] => True | x :: _ => is_sp_tab x = false end.
Proof.
  induction s as [|c s (bl & rest & -> & Hbl & Hrest)].
  - exists [], []. auto.
  - destruct (is_sp_tab c) eqn:E.
    + exists (c :: bl), rest. simpl. rewrite E. auto.
    + exists [], (c :: bl ++ rest). auto.
Qed.

(** The units of a match are passed over. *)
Lemma replace_go_skip r f :
  forall a pre b,
    replace_go r f (length a) pre (a ++ b) = replace_go r f 0 (rev a ++ pre) b.
Proof.
  induction a as [|c a IH]; intros pre b; [reflexivity|].
  cbn [length app replace_go]. rewrite IH. cbn [rev]. now rewrite <- app_assoc.
Qed.

(** A run of blanks before something else stays. *)
Lemma kept_blanks f x rest :
  is_sp_tab x = false -> is_line_terminator x = false ->
  forall bl pre,
    forallb is_sp_tab bl = true ->
    replace_go RX_TRAILING f 0 pre (bl ++ x :: rest)
    = bl ++ x :: replace_go RX_TRAILING f 0 (x :: rev bl ++ pre) rest.
Proof.
  intros Hx Hxt. induction bl as [|c bl IH]; intros pre Hbl.
  - cbn [app rev]. cbn [replace_go].
    pose proof (match_at_trailing [] (x :: rest) pre eq_refl Hx) as E.
    cbn [app] in E. now rewrite E.
  - pose proof (match_at_trailing (c :: bl) (x :: rest) pre Hbl Hx) as E.
    cbn [at_line_end] in E. rewrite Hxt in E.
    cbn [app] in *. cbn [replace_go]. rewrite E.
    simpl in Hbl. apply andb_true_iff in Hbl. destruct Hbl as [_ Hbl].
    rewrite (IH (c :: pre) Hbl). cbn [rev]. now rewrite <- app_assoc.
Qed.

Lemma no_trailing_blank_app bl x t :
  is_line_terminator x = false ->
  forallb is_sp_tab bl = true ->
  no_trailing_blank (x :: t) = true -> no_trailing_blank (bl ++ x :: t) = true.
Proof.
  intros Hx. induction bl as [|c bl IH]; intros Hbl H; [exact H|].
  simpl in Hbl. apply andb_true_iff in Hbl. destruct Hbl as [Hc Hbl].
  cbn [app no_trailing_blank]. rewrite (IH Hbl H), andb_true_r.
  apply negb_true_iff, andb_false_iff. right.
  destruct bl as [|d bl]; cbn [app at_line_end]; [exact Hx|].
  simpl in Hbl. apply andb_true_iff in Hbl. now apply blank_not_terminator.
Qed.

(** After the last replacement no blank is left at the end of a line. *)
Lemma trailing_removed :
  forall n post pre,
    length post <= n ->
    no_trailing_blank (replace_go RX_TRAILING (fun _ => []) 0 pre post) = true.
Proof.
  induction n as [|n IH]; intros post pre Hn.
  - destruct post; [|simpl in Hn; lia]. cbn [replace_go].
    pose proof (match_at_trailing [] [] pre eq_refl I) as E. cbn [app] in E.
    now rewrite E.
  - destruct (blanks_split post) as (bl & rest & -> & Hbl & Hrest).
    destruct bl as [|c bl].
    + cbn [app]. destruct rest as [|x rest].
      * cbn [replace_go].
        pose proof (match_at_trailing [] [] pre eq_refl I) as E. cbn [app] in E.
        now rewrite E.
      * cbn [replace_go].
        pose proof (match_at_trailing [] (x :: rest) pre eq_refl Hrest) as E.
        cbn [app] in E. rewrite E. cbn [no_trailing_blank]. rewrite Hrest. cbn [andb negb].
        apply IH. simpl in Hn. lia.
    + assert (Hlen : length bl + length rest <= n)
        by (rewrite length_app in Hn; simpl in Hn; lia).
      clear Hn.
      destruct (at_line_end rest) eqn:Eend.
      * pose proof (match_at_trailing (c :: bl) rest pre Hbl Hrest) as E.
        rewrite Eend in E. cbn [app] in *. cbn [replace_go]. rewrite E.
        assert (Ec : consumed (Cursor pre (c :: bl ++ rest)) (Cursor (rev (c :: bl) ++ pre) rest)
                     = c :: bl)
          by (apply advances_consumed; reflexivity).
        rewrite Ec. cbn [app length].
        rewrite replace_go_skip. apply IH. lia.
      * destruct rest as [|x rest]; [discriminate Eend|]. cbn [at_line_end] in Eend.
        rewrite (kept_blanks _ x rest Hrest Eend (c :: bl) pre Hbl).
        apply no_trailing_blank_app; [exact Eend|exact Hbl|].
        cbn [no_trailing_blank]. rewrite Hrest. cbn [andb negb].
        apply IH. simpl in Hlen. lia.
Qed.

End CleanFacts.

Module ContactFacts.
Import JS Regex Num Schema Primitives Parser Spec.
Import RegexFacts TokenFacts RequireFacts AmountFacts SearchFacts ClassifyFacts NumberFacts CleanFacts.
Local Close Scope N_scope.

(** ** The matches of a global pattern *)

Lemma exec_all_go_lang r :
  forall post skip pre m, In m (exec_all_go r skip pre post) -> lang r (whole m).
Proof.
  induction post as [|c post IH]; intros skip pre m Hin.
  - destruct skip; simpl in Hin; [|contradiction].
    destruct (match_at r (Cursor pre [])) as [[z' cs]|] eqn:E; [|contradiction].
    destruct Hin as [<-|[]]. cbn [whole]. apply match_at_sound in E.
    now apply den_lang in E.
  - destruct skip; cbn [exec_all_go] in Hin; [|eauto].
    destruct (match_at r (Cursor pre (c :: post))) as [[z' cs]|] eqn:E; [|eauto].
    destruct Hin as [<-|Hin]; [|eauto]. cbn [whole]. apply match_at_sound in E.
    now apply den_lang in E.
Qed.

Lemma match_all_lang r s w : In w (match_all r s) -> lang r w.
Proof.
  unfold match_all. intros H. apply in_map_iff in H. destruct H as (m & <- & Hm).
  now apply (exec_all_go_lang r s 0 []).
Qed.

Lemma lang_iter_within (L : jsstring -> Prop) (p : char -> bool) :
  (forall w, L w -> forallb p w = true) ->
  forall n w, lang_iter n L w -> forallb p w = true.
Proof. apply lang_iter_all. Qed.

Lemma lang_within p r : within p r -> forall w, lang r w -> forallb p w = true.
Proof.
  induction r as [|q|a IHa b IHb|a IHa b IHb|lo hi a IHa|j a IHa|ml|ml| |a IHa|a IHa|q];
    intros Hr w H; simpl in *; try (subst w; reflexivity).
  - destruct H as (c & -> & Hc). simpl. now rewrite (Hr c Hc).
  - destruct H as (w1 & w2 & -> & H1 & H2). rewrite forallb_app.
    now rewrite (IHa (proj1 Hr) _ H1), (IHb (proj2 Hr) _ H2).
  - destruct H as [H|H]; [apply (IHa (proj1 Hr))|apply (IHb (proj2 Hr))]; exact H.
  - destruct H as (n & _ & _ & H). eapply lang_iter_within; [|exact H]. auto.
  - auto.
Qed.

(** ** Sets of texts *)

Lemma dedupe_incl l x : In x (dedupe l) -> In x l.
Proof.
  induction l as [|y l IH]; simpl; [tauto|].
  intros [H|H]; [now left|]. apply filter_In in H. right. tauto.
Qed.

Lemma dedupe_NoDup l : NoDup (dedupe l).
Proof.
  induction l as [|y l IH]; simpl; constructor.
  - intros H. apply filter_In in H. destruct H as [_ H].
    apply negb_true_iff in H.
    assert (E : JS.eqb y y = true) by now apply ScoreFacts.eqb_eq. congruence.
  - now apply NoDup_filter.
Qed.

(** ** Characters *)

Ltac char_cases :=
  unfold is_local_char, is_domain_char, is_phone_char, is_phone_sep, is_sp_tab, eq_ci in *;
  unfold downcase, upcase, is_space, is_word, is_alpha in *;
  unfold is_lower, is_upper, is_digit, between, one_of, non in *;
  repeat match goal with
         | |- context [str ?s] =>
             let l := eval vm_compute in (str s) in change (str s) with l
         | H : context [str ?s] |- _ =>
             let l := eval vm_compute in (str s) in change (str s) with l in H
         end;
  cbn [existsb] in *;
  repeat (cbn [orb andb negb] in *; cbv beta iota in *;
          match goal with
          | |- context [N.leb ?a ?b] => destruct (N.leb_spec a b)
          | |- context [N.eqb ?a ?b] => destruct (N.eqb_spec a b)
          | H : context [N.leb ?a ?b] |- _ => destruct (N.leb_spec a b)
          | H : context [N.eqb ?a ?b] |- _ => destruct (N.eqb_spec a b)
          end; try (exfalso; lia); try subst);
  cbn [orb andb negb] in *; try discriminate; try reflexivity; try lia.

Lemma local_char_lower c :
  is_word c || one_of ".+-" c = true -> is_local_char (downcase c) = true.
Proof. intros H. char_cases. Qed.

Lemma domain_char_lower c :
  is_word c || one_of "-" c = true -> is_domain_char (downcase c) = true.
Proof. intros H. char_cases. Qed.

Lemma tld_char_lower c :
  is_word c || one_of "." c = true -> is_domain_char (downcase c) = true.
Proof. intros H. char_cases. Qed.

Lemma forallb_map_impl (p q : char -> bool) (f : char -> char) :
  (forall c, p c = true -> q (f c) = true) ->
  forall w, forallb p w = true -> forallb q (List.map f w) = true.
Proof.
  intros Hpq. induction w as [|c w IH]; [reflexivity|]. simpl. intros H.
  apply andb_true_iff in H. destruct H as [Hc Hw]. now rewrite (Hpq c Hc), (IH Hw).
Qed.

Lemma lang_atleast_chr lo (p : char -> bool) w :
  lang (Rep lo None (Chr p)) w -> forallb p w = true /\ lo <= length w.
Proof.
  intros (n & Hlo & _ & H). apply lang_iter_chr in H. destruct H as [H <-]. auto.
Qed.

(** ** E-mail addresses *)

Lemma email_lang w :
  lang EMAIL w ->
  exists loc host tld,
    w = loc ++ ch "@" :: host ++ ch "." :: tld /\
    forallb (fun c => is_word c || one_of ".+-" c) loc = true /\ 1 <= length loc /\
    forallb (fun c => is_word c || one_of "-" c) host = true /\ 1 <= length host /\
    forallb (fun c => is_word c || one_of "." c) tld = true /\ 2 <= length tld.
Proof.
  unfold EMAIL. cbn [cat]. intros (w1 & r1 & -> & H1 & H).
  destruct H as (a & r2 & -> & Ha & H).
  destruct H as (w2 & r3 & -> & H2 & H).
  destruct H as (b & w3 & -> & Hb & H3).
  apply lang_atleast_chr in H1, H2, H3.
  destruct Ha as (c & -> & Hc). apply N.eqb_eq in Hc. subst c.
  destruct Hb as (c & -> & Hc). apply N.eqb_eq in Hc. subst c.
  exists w1, w2, w3. cbn [app]. tauto.
Qed.

Lemma email_lower w : lang EMAIL w -> emailShape (toLowerCase w).
Proof.
  intros H. apply email_lang in H.
  destruct H as (loc & host & tld & -> & Hl & Hln & Hh & Hhn & Ht & Htn).
  exists (List.map downcase loc), (List.map downcase host ++ ch "." :: List.map downcase tld).
  split; [|split; [|split; [|split; [|split]]]].
  - unfold toLowerCase. rewrite map_app. cbn [List.map]. rewrite map_app. reflexivity.
  - destruct loc; [simpl in Hln; lia|discriminate].
  - apply (forallb_map_impl _ _ _ local_char_lower _ Hl).
  - rewrite forallb_app. cbn [forallb].
    rewrite (forallb_map_impl _ _ _ domain_char_lower _ Hh).
    rewrite (forallb_map_impl _ _ _ tld_char_lower _ Ht). reflexivity.
  - apply in_elt.
  - rewrite length_app. cbn [length]. rewrite !length_map. lia.
Qed.

(** ** Runs of a class *)

(** A run of exactly [hi] units of a class is taken whole. *)
Lemma rep_exact (p : char -> bool) (hi : nat) (k : cursor -> caps -> result) cs :
  forall w rest pre n fuel,
    forallb p w = true -> n + length w = hi -> length w <= fuel ->
    rep_loop (run (Chr p)) hi (Some hi) k fuel n (Cursor pre (w ++ rest)) cs
    = k (Cursor (rev w ++ pre) rest) cs.
Proof.
  set (body := run (Chr p)).
  assert (Hbody : forall z cs k,
            body z cs k = match after z with
                          | c :: rest => if p c then k (Cursor (c :: before z) rest) cs
                                         else None
                          | [] => None
                          end) by reflexivity.
  clearbody body.
  induction w as [|c w IH]; intros rest pre n fuel Hw Hn Hfuel.
  - simpl in Hn. rewrite Nat.add_0_r in Hn. subst n. cbn [app rev].
    assert (Hb : below (Some hi) hi = false) by apply Nat.ltb_irrefl.
    destruct fuel; cbn [rep_loop]; rewrite ?Hb, Nat.leb_refl; reflexivity.
  - destruct fuel as [|fuel]; [simpl in Hfuel; lia|].
    simpl in Hw. apply andb_true_iff in Hw. destruct Hw as [Hc Hw].
    simpl in Hn.
    assert (Hb : below (Some hi) n = true) by (apply Nat.ltb_lt; lia).
    assert (Hlo : Nat.leb hi n = false) by (apply Nat.leb_gt; lia).
    cbn [app rep_loop]. rewrite Hb, Hlo, Hbody. cbn [after before]. rewrite Hc.
    assert (Hprog : Nat.ltb (length (w ++ rest)) (length (c :: w ++ rest)) = true)
      by (apply Nat.ltb_lt; simpl; lia).
    rewrite Hprog. cbn [orb].
    rewrite (IH rest (c :: pre) (S n) fuel Hw) by (simpl in Hfuel; lia).
    cbn [rev]. rewrite <- app_assoc. cbn [app].
    match goal with |- _ = ?x => destruct x; reflexivity end.
Qed.

(** A run of [lo] units of a class or more is found. *)
Lemma rep_atleast (p : char -> bool) (lo : nat) cs :
  forall w rest pre n fuel,
    forallb p w = true -> lo <= n + length w -> length w <= fuel ->
    rep_loop (run (Chr p)) lo None ret fuel n (Cursor pre (w ++ rest)) cs <> None.
Proof.
  set (body := run (Chr p)).
  assert (Hbody : forall z cs k,
            body z cs k = match after z with
                          | c :: rest => if p c then k (Cursor (c :: before z) rest) cs
                                         else None
                          | [] => None
                          end) by reflexivity.
  clearbody body.
  induction w as [|c w IH]; intros rest pre n fuel Hw Hn Hfuel.
  - simpl in Hn. rewrite Nat.add_0_r in Hn. apply Nat.leb_le in Hn.
    destruct fuel; cbn [rep_loop below]; rewrite Hn; [discriminate|].
    destruct (body _ _ _); discriminate.
  - destruct fuel as [|fuel]; [simpl in Hfuel; lia|].
    simpl in Hw. apply andb_true_iff in Hw. destruct Hw as [Hc Hw].
    cbn [app rep_loop below]. rewrite Hbody. cbn [after before]. rewrite Hc.
    assert (Hprog : Nat.ltb (length (w ++ rest)) (length (c :: w ++ rest)) = true)
      by (apply Nat.ltb_lt; simpl; lia).
    rewrite Hprog. cbn [orb].
    pose proof (IH rest (c :: pre) (S n) fuel Hw) as H.
    destruct (rep_loop body lo None ret fuel (S n) _ cs); [discriminate|].
    exfalso. apply H; [simpl in Hn; lia|simpl in Hfuel; lia|reflexivity].
Qed.

(** ** Phone numbers *)

Lemma phone_within : within is_phone_char PHONE.
Proof.
  unfold PHONE, opt, rep, digit, lit, lit1. cbn [alt cat within List.map].
  repeat match goal with
         | |- context [str ?s] =>
             let l := eval vm_compute in (str s) in change (str s) with l
         end.
  cbn [alt cat within List.map].
  repeat split; intros c H; char_cases.
Qed.

Lemma digitsOf_length p : length (digitsOf p) = length (filter is_digit p).
Proof.
  unfold digitsOf, replace_all_with, replace_all.
  rewrite (replace_go_chr (non is_digit) _ []) by (intros m; reflexivity).
  induction p as [|c p IH]; [reflexivity|]. cbn [flat_map filter]. unfold non at 1.
  destruct (is_digit c); cbn [negb app length]; now rewrite IH.
Qed.

(** The pattern of the ZIP+4 codes finds every one of them. *)
Lemma zip4_found p : zipPlus4 p -> test RX_ZIP4 p = true.
Proof.
  intros (a & b & -> & Ha & Hb & Hda & Hdb).
  apply (test_finds RX_ZIP4 [] (a ++ ch "-" :: b)). unfold match_at.
  change (run RX_ZIP4 (Cursor (rev []) (a ++ ch "-" :: b)) [] ret)
    with (rep_loop (run (Chr is_digit)) 5 (Some 5)
            (fun z1 cs1 => run (cat [lit "-"; times 4 digit; Eol false]) z1 cs1 ret)
            (length (a ++ ch "-" :: b) + 5) 0 (Cursor [] (a ++ ch "-" :: b)) []).
  rewrite (rep_exact is_digit 5 _ [] a (ch "-" :: b) [] 0 _ Hda Ha)
    by (rewrite length_app; lia).
  cbv beta.
  change (run (cat [lit "-"; times 4 digit; Eol false])
              (Cursor (rev a ++ []) (ch "-" :: b)) [] ret)
    with (rep_loop (run (Chr is_digit)) 4 (Some 4)
            (fun z cs => run (Eol false) z cs ret)
            (length b + 4) 0 (Cursor (ch "-" :: rev a ++ []) b) []).
  pose proof (rep_exact is_digit 4 (fun z cs => run (Eol false) z cs ret) [] b []
                        (ch "-" :: rev a ++ []) 0 (length b + 4) Hdb Hb) as E.
  rewrite (app_nil_r b) in E. rewrite E by lia. discriminate.
Qed.

(** The pattern of the long digit runs finds every run of eight digits. *)
Lemma digit8_found p : digitRun 8 p -> test RX_DIGIT8 p = true.
Proof.
  intros (a & w & b & -> & Hw & Hd).
  apply test_finds. unfold match_at, RX_DIGIT8, atleast, digit. cbn [run after].
  apply rep_atleast; [exact Hd|lia|rewrite length_app; lia].
Qed.

Lemma forallb_incl (p : char -> bool) (s t : jsstring) :
  (forall c, In c t -> In c s) -> forallb p s = true -> forallb p t = true.
Proof.
  intros Hi Hs. rewrite forallb_forall in *. auto.
Qed.

Lemma phones_shape text p : In p (extractPhones text) -> phoneShape p.
Proof.
  unfold extractPhones. intros H.
  apply dedupe_incl, filter_In in H. destruct H as [H Hzip].
  apply filter_In in H. destruct H as [H Hlen].
  apply in_map_iff in H. destruct H as (w & <- & Hw).
  apply match_all_lang, (lang_within _ _ phone_within) in Hw.
  split; [|split].
  - apply (forallb_incl _ w); [apply trim_incl|exact Hw].
  - rewrite <- digitsOf_length. now apply Nat.leb_le.
  - intros Hz. apply zip4_found in Hz. rewrite Hz in Hzip. discriminate.
Qed.

Lemma isPhoneLike_shape p :
  isPhoneLike p = true -> length (filter is_digit p) <= 15 /\ ~ digitRun 8 p.
Proof.
  unfold isPhoneLike. cbv zeta. rewrite digitsOf_length.
  destruct (Nat.ltb (length (filter is_digit p)) 7); [discriminate|].
  destruct (Nat.ltb 15 (length (filter is_digit p))) eqn:E; [discriminate|].
  cbn [orb]. destruct (test RX_DIGIT8 p) eqn:E8; [discriminate|]. intros _.
  apply Nat.ltb_ge in E. split; [exact E|].
  intros H. apply digit8_found in H. congruence.
Qed.

(** ** Web addresses *)

Lemma eq_ci_downcase a c : eq_ci a c = true -> downcase c = downcase a.
Proof. intros H. char_cases. Qed.

Lemma lang_liti l :
  forall w, lang (cat (List.map lit1i l)) w -> toLowerCase w = toLowerCase l.
Proof.
  induction l as [|a l IH]; intros w H.
  - simpl in H. now subst w.
  - destruct l as [|b l].
    + destruct H as (c & -> & Hc). simpl. now rewrite (eq_ci_downcase _ _ Hc).
    + destruct H as (w1 & w2 & -> & (c & -> & Hc) & H2). apply IH in H2.
      cbn [app toLowerCase List.map] in *. unfold toLowerCase in H2.
      now rewrite (eq_ci_downcase _ _ Hc), H2.
Qed.

Lemma lang_lit l : forall w, lang (cat (List.map lit1 l)) w -> w = l.
Proof.
  induction l as [|a l IH]; intros w H.
  - simpl in H. now subst w.
  - destruct l as [|b l].
    + destruct H as (c & -> & Hc). apply N.eqb_eq in Hc. now subst c.
    + destruct H as (w1 & w2 & -> & (c & -> & Hc) & H2). apply IH in H2.
      apply N.eqb_eq in Hc. subst. reflexivity.
Qed.

Lemma letter_not_space a c : is_alpha a = true -> eq_ci a c = true -> non is_space c = true.
Proof. intros Ha H. char_cases. Qed.

Lemma url_within : within (non is_space) URL.
Proof.
  unfold URL, opt, plus, lit, liti, lit1, lit1i.
  repeat match goal with
         | |- context [str ?s] =>
             let l := eval vm_compute in (str s) in change (str s) with l
         end.
  cbn [alt cat within List.map].
  repeat split; intros c H; try exact H;
    try (apply (letter_not_space _ _ eq_refl H)); char_cases.
Qed.

Lemma lang_opt r w : lang (opt r) w -> w = [] \/ lang r w.
Proof.
  intros (n & _ & Hhi & H). simpl in Hhi.
  destruct n as [|[|n]]; [left; exact H|right|lia].
  destruct H as (w1 & w2 & -> & H1 & ->). now rewrite app_nil_r.
Qed.

Lemma url_lang w : lang URL w -> urlShape w.
Proof.
  intros H. split; [now apply (lang_within _ _ url_within)|].
  unfold URL in H. cbn [alt cat] in H. destruct H as [H|H].
  - destruct H as (w1 & r1 & -> & H1 & H). destruct H as (w2 & r2 & -> & H2 & H).
    destruct H as (w3 & w4 & -> & H3 & H4).
    apply lang_liti in H1. apply lang_lit in H3. subst w3.
    apply lang_atleast_chr in H4.
    exists (w1 ++ w2 ++ str "://"), w4. split; [now rewrite <- !app_assoc|].
    split; [destruct w4; [simpl in H4; lia|discriminate]|].
    unfold toLowerCase in *. rewrite !map_app, H1.
    apply lang_opt in H2. destruct H2 as [->|H2].
    + left. reflexivity.
    + apply lang_liti in H2. unfold toLowerCase in H2. rewrite H2. right. left. reflexivity.
  - destruct H as (w1 & r1 & -> & H1 & H). destruct H as (w3 & w4 & -> & H3 & H4).
    apply lang_liti in H1. apply lang_lit in H3. subst w3.
    apply lang_atleast_chr in H4.
    exists (w1 ++ str "."), w4. split; [now rewrite <- !app_assoc|].
    split; [destruct w4; [simpl in H4; lia|discriminate]|].
    unfold toLowerCase in *. rewrite !map_app, H1. right. right. reflexivity.
Qed.

Lemma urls_shape text u : In u (extractURLs text) -> urlShape u.
Proof.
  unfold extractURLs. intros H. apply dedupe_incl, in_map_iff in H.
  destruct H as (w & <- & Hw). apply match_all_lang, url_lang in Hw.
  rewrite trim_no_space; [exact Hw|]. exact (proj1 Hw).
Qed.

Lemma emails_shape text e : In e (extractEmails text) -> emailShape e.
Proof.
  unfold extractEmails. intros H.
  apply dedupe_incl, in_map_iff in H. destruct H as (w & <- & Hw).
  apply match_all_lang in Hw. now apply email_lower.
Qed.

Lemma hd_error_In {A} (l : list A) x : hd_error l = Some x -> In x l.
Proof. destruct l; simpl; [discriminate|]. intros [= ->]. now left. Qed.

(** ** The contacts of a record *)

Lemma buildSupplier_contact nameHint block s :
  buildSupplier nameHint block = Exn.Ok s ->
  (forall p, phone (supplierContact s) = Some p ->
             phoneShape p /\ length (filter is_digit p) <= 15 /\ ~ digitRun 8 p) /\
  (forall e, email (supplierContact s) = Some e -> emailShape e) /\
  (forall u, website (supplierContact s) = Some u -> urlShape u).
Proof.
  unfold buildSupplier. cbv zeta. intros H.
  destruct (parseAddress block) as [address|]; cbn [Exn.bind] in H; [|discriminate].
  destruct (extractTaxInformation block) as [taxInfo|]; cbn [Exn.bind] in H; [|discriminate].
  apply Ok_inj in H. subst s. cbn [supplierContact phone email website].
  split; [|split].
  - intros p Hp.
    assert (Hin : In p (extractPhones block) /\ isPhoneLike p = true).
    { unfold orElse in Hp.
      destruct (find _ (extractPhones block)) as [q|] eqn:E1 in Hp.
      - injection Hp as ->. apply find_some in E1. destruct E1 as [Hin E1].
        apply andb_true_iff in E1. tauto.
      - apply find_some in Hp. exact Hp. }
    destruct Hin as [Hin Hlike]. apply phones_shape in Hin.
    apply isPhoneLike_shape in Hlike. tauto.
  - intros e He. apply hd_error_In in He. now apply emails_shape in He.
  - intros u Hu. apply hd_error_In in Hu. now apply urls_shape in Hu.
Qed.

Lemma buildBuyer_contact block b c :
  buildBuyer block = Exn.Ok b -> buyerContact b = Some c ->
  (forall p, phone c = Some p -> phoneShape p) /\
  (forall e, email c = Some e -> emailShape e).
Proof.
  unfold buildBuyer. cbv zeta. intros H Hc.
  destruct (parseAddress block) as [address|]; cbn [Exn.bind] in H; [|discriminate].
  apply Ok_inj in H. subst b. cbn [buyerContact] in Hc. injection Hc as <-.
  cbn [phone email]. split.
  - intros p Hp. apply hd_error_In in Hp. now apply phones_shape in Hp.
  - intros e He. apply hd_error_In in He. now apply emails_shape in He.
Qed.

Lemma extractBuyer_contact fullText lines b c :
  extractBuyer fullText lines = Exn.Ok b -> buyerContact b = Some c ->
  (forall p, phone c = Some p -> phoneShape p) /\
  (forall e, email c = Some e -> emailShape e).
Proof.
  unfold extractBuyer. intros H Hc.
  destruct (buyerSection 0 lines) as [[sectionStart inlineName]|].
  - destruct (buildBuyer _) as [b0|] eqn:E; cbn [Exn.bind] in H; [|discriminate].
    apply Ok_inj in H. subst b.
    apply (buildBuyer_contact _ _ c E).
    destruct (truthy_str inlineName); exact Hc.
  - destruct (find _ _); apply Ok_inj in H; subst b; discriminate Hc.
Qed.

End ContactFacts.

Module DigitFacts.
Import JS Regex Num Schema Primitives Parser Spec.
Import RegexFacts TokenFacts RequireFacts AmountFacts SearchFacts CleanFacts.
Local Close Scope N_scope.

(** ** Texts without a digit *)

Lemma existsb_false_iff {A} (p : A -> bool) (s : list A) :
  existsb p s = false <-> forall c, In c s -> p c = false.
Proof.
  split.
  - intros H c Hc. destruct (p c) eqn:E; [|reflexivity].
    assert (existsb p s = true) by (apply existsb_exists; eauto). congruence.
  - intros H. destruct (existsb p s) eqn:E; [|reflexivity].
    apply existsb_exists in E. destruct E as (c & Hc & Hp). rewrite (H c Hc) in Hp.
    discriminate.
Qed.

(** A pattern that requires a unit replaces nothing in a text without one. *)
Lemma replace_go_requires p r f :
  requires p r ->
  forall post pre, existsb p post = false -> replace_go r f 0 pre post = post.
Proof.
  intros Hr. induction post as [|x post IH]; intros pre Hp; cbn [replace_go].
  - destruct (match_at r (Cursor pre [])) as [[z' cs]|] eqn:E; [|reflexivity].
    apply (match_at_requires p) in E; [|exact Hr]. congruence.
  - destruct (match_at r (Cursor pre (x :: post))) as [[z' cs]|] eqn:E.
    + apply (match_at_requires p) in E; [|exact Hr]. congruence.
    + rewrite IH; [reflexivity|]. simpl in Hp. apply orb_false_iff in Hp. tauto.
Qed.

Lemma replace_all_with_requires p r t s :
  requires p r -> existsb p s = false -> replace_all_with r t s = s.
Proof. intros Hr Hs. now apply (replace_go_requires p). Qed.

(** The units of a replaced text are units of the subject or of a
    replacement. *)
Lemma replace_go_incl r f (P : char -> Prop) :
  (forall m c, In c (f m) -> P c) ->
  forall post skip pre c, In c (replace_go r f skip pre post) -> In c post \/ P c.
Proof.
  intros Hf. induction post as [|x post IH]; intros skip pre c H.
  - destruct skip; cbn [replace_go] in H; [|contradiction].
    destruct (match_at r (Cursor pre [])) as [[z' cs]|]; [|contradiction].
    rewrite app_nil_r in H. right. eauto.
  - destruct skip as [|k]; cbn [replace_go] in H.
    + destruct (match_at r (Cursor pre (x :: post))) as [[z' cs]|].
      * apply in_app_or in H. destruct H as [H|H]; [right; eauto|].
        destruct (length (consumed (Cursor pre (x :: post)) z')).
        -- destruct H as [<-|H]; [left; now left|].
           destruct (IH _ _ _ H); [left; now right|now right].
        -- destruct (IH _ _ _ H); [left; now right|now right].
      * destruct H as [<-|H]; [left; now left|].
        destruct (IH _ _ _ H); [left; now right|now right].
    + destruct (IH _ _ _ H); [left; now right|now right].
Qed.

Lemma replace_const_nodigit r t s :
  (forall m, subst (ngroups r) m t (length t) = t) ->
  existsb is_digit t = false ->
  existsb is_digit s = false -> existsb is_digit (replace_all_with r t s) = false.
Proof.
  intros Ht Hd Hs. rewrite existsb_false_iff in *. intros c Hc.
  apply (replace_go_incl r _ (fun c => is_digit c = false)) in Hc.
  - destruct Hc; auto.
  - intros m x Hx. rewrite Ht in Hx. auto.
Qed.

Lemma requires_digit_dollar_l : requires is_digit RX_DOLLAR_L.
Proof.
  unfold RX_DOLLAR_L. cbn [cat].
  apply requires_cat_r, requires_cat_r, requires_grp. now apply requires_chr.
Qed.

Lemma requires_digit_digit_o : requires is_digit RX_DIGIT_O.
Proof.
  unfold RX_DIGIT_O. cbn [cat]. apply requires_cat_l, requires_grp. now apply requires_chr.
Qed.

Lemma requires_digit_s_amount : requires is_digit RX_S_AMOUNT.
Proof.
  unfold RX_S_AMOUNT. cbn [cat].
  apply requires_cat_r, requires_cat_r, requires_cat_l, requires_grp, requires_cat_l.
  apply requires_rep; [lia|]. now apply requires_chr.
Qed.

(** Normalisation brings no digit into a text that has none. *)
Lemma normalise_nodigit s :
  existsb is_digit s = false -> existsb is_digit (normaliseOCRText s) = false.
Proof.
  intros H. unfold normaliseOCRText. cbv zeta.
  rewrite (replace_all_with_requires is_digit RX_DOLLAR_L _ s requires_digit_dollar_l H).
  rewrite (replace_all_with_requires is_digit RX_DIGIT_O _ s requires_digit_digit_o H).
  rewrite (replace_all_with_requires is_digit RX_S_AMOUNT _ s requires_digit_s_amount H).
  repeat (apply replace_const_nodigit; [intros m; reflexivity|reflexivity|]).
  exact H.
Qed.

(** ** Lines without a digit *)

Lemma split_on_incl sep :
  forall s l c, In l (split_on sep s) -> In c l -> In c s.
Proof.
  induction s as [|x s IH]; intros l c Hl Hc; cbn [split_on] in Hl.
  - destruct Hl as [<-|[]]. contradiction.
  - destruct (x =? sep)%N.
    + destruct Hl as [<-|Hl]; [contradiction|]. right. eauto.
    + destruct (split_on sep s) as [|l0 ls] eqn:E.
      * destruct Hl as [<-|[]]. destruct Hc as [<-|[]]. now left.
      * destruct Hl as [<-|Hl].
        -- destruct Hc as [<-|Hc]; [now left|]. right. apply (IH l0); [now left|exact Hc].
        -- right. apply (IH l); [now right|exact Hc].
Qed.

Lemma trim_nodigit l : existsb is_digit l = false -> existsb is_digit (trim l) = false.
Proof. apply existsb_false_incl, trim_incl. Qed.

Lemma nonblank_lines_nodigits s :
  existsb is_digit s = false -> nodigits (nonblank_lines s).
Proof.
  intros H l Hl. unfold nonblank_lines in Hl. apply filter_In in Hl.
  destruct Hl as [Hl _]. apply in_map_iff in Hl. destruct Hl as (l0 & <- & Hl0).
  apply trim_nodigit. apply existsb_false_iff. intros c Hc.
  rewrite existsb_false_iff in H. apply H. eapply split_on_incl; eauto.
Qed.

Lemma split_on_nodigits s :
  existsb is_digit s = false -> nodigits (split_on newline s).
Proof.
  intros H l Hl. apply existsb_false_iff. intros c Hc.
  rewrite existsb_false_iff in H. apply H. eapply split_on_incl; eauto.
Qed.

Lemma nodigits_incl (a b : list jsstring) :
  (forall l, In l b -> In l a) -> nodigits a -> nodigits b.
Proof. intros Hi Ha l Hl. auto. Qed.

Lemma nodigits_cons l rest : nodigits (l :: rest) -> existsb is_digit l = false /\ nodigits rest.
Proof. intros H. split; [apply H; now left|intros x Hx; apply H; now right]. Qed.

Lemma nodigits_firstn n lines : nodigits lines -> nodigits (firstn n lines).
Proof.
  apply nodigits_incl. intros l Hl. rewrite <- (firstn_skipn n lines).
  apply in_or_app. now left.
Qed.

Lemma nodigits_skipn n lines : nodigits lines -> nodigits (skipn n lines).
Proof.
  apply nodigits_incl. intros l Hl. rewrite <- (firstn_skipn n lines).
  apply in_or_app. now right.
Qed.

Lemma nodigits_slice a b lines : nodigits lines -> nodigits (slice a b lines).
Proof. intros H. unfold slice. now apply nodigits_firstn, nodigits_skipn. Qed.

Lemma join_nodigit sep lines :
  existsb is_digit sep = false -> nodigits lines -> existsb is_digit (join sep lines) = false.
Proof.
  intros Hs. induction lines as [|l rest IH]; intros H; [reflexivity|].
  apply nodigits_cons in H. destruct H as [Hl Hrest]. cbn [join].
  destruct rest as [|l2 rest]; [exact Hl|].
  rewrite !existsb_app, Hl, Hs. cbn [orb]. now apply IH.
Qed.

(** ** No item without a digit *)

Lemma parseLineItem_nodigit line lineNum defaultTaxPct :
  existsb is_digit line = false -> parseLineItem line lineNum defaultTaxPct = None.
Proof.
  intros H. pose proof (trim_nodigit _ H) as Ht.
  unfold parseLineItem. cbv zeta.
  destruct (negb (nonempty (trim line)) || Nat.ltb (length (trim line)) 4); [reflexivity|].
  destruct (test SUMMARY_LINE_RX (trim line)); [reflexivity|].
  destruct (test HEADER_LINE_RX (trim line) && negb (test RX_DIGIT (trim line)));
    [reflexivity|].
  unfold numTokens at 1.
  now rewrite (exec_all_requires is_digit _ _ numPattern_requires_digit Ht).
Qed.

Lemma numRx_requires_digit : requires is_digit numRx.
Proof.
  unfold numRx. cbn [cat].
  apply requires_cat_r, requires_cat_l, requires_grp, requires_cat_l.
  apply requires_rep; [lia|]. now apply requires_chr.
Qed.

Lemma columnRow_nodigit line next :
  existsb is_digit line = false -> columnRow line next = None.
Proof.
  intros H. unfold columnRow. cbv zeta. unfold numTokens at 1.
  now rewrite (exec_all_requires is_digit _ _ numRx_requires_digit H).
Qed.

Lemma columnRows_nodigits rows :
  nodigits rows -> forall skip, columnRows skip rows = [].
Proof.
  induction rows as [|l rest IH]; intros H skip; [reflexivity|].
  apply nodigits_cons in H. destruct H as [Hl Hrest]. cbn [columnRows].
  rewrite (columnRow_nodigit _ _ Hl), !(IH Hrest).
  destruct skip; [reflexivity|].
  destruct (test tableFooterRx (trim l)); [reflexivity|].
  destruct (Nat.ltb (length (trim l)) 4); reflexivity.
Qed.

Lemma extractFromColumnTable_nodigits lines :
  nodigits lines -> extractFromColumnTable lines = [].
Proof.
  intros H. unfold extractFromColumnTable.
  destruct (first_index _ 0 (length lines)); [|reflexivity].
  now apply columnRows_nodigits, nodigits_skipn.
Qed.

Lemma multiRows_nodigits rows :
  nodigits rows -> forall skip i, multiRows skip i rows = [].
Proof.
  induction rows as [|l rest IH]; intros H skip i; [reflexivity|].
  apply nodigits_cons in H. destruct H as [Hl Hrest].
  destruct skip as [|k]; cbn [multiRows]; [|now apply IH].
  rewrite (parseLineItem_nodigit _ _ _ Hl), (IH Hrest).
  destruct (test multiFooterRx (trim l)); reflexivity.
Qed.

Lemma perLine_nodigits lines : nodigits lines -> perLine lines = [].
Proof.
  unfold perLine. intros H.
  assert (G : forall (l : list (nat * jsstring)),
             (forall il, In il l -> existsb is_digit (snd il) = false) ->
             flat_map (fun il => match parseLineItem (snd il) (fst il + 1) None with
                                 | Some item => [item]
                                 | None => []
                                 end) l = []).
  { induction l as [|il l IH]; intros Hl; [reflexivity|]. cbn [flat_map].
    rewrite (parseLineItem_nodigit _ _ _ (Hl il (or_introl eq_refl))).
    apply IH. intros x Hx. apply Hl. now right. }
  apply G. intros [i l] Hil. apply in_combine_r in Hil. now apply H.
Qed.

(** ** The vertical form *)

Lemma test_digit_nodigit s : existsb is_digit s = false -> test RX_DIGIT s = false.
Proof. apply test_requires. now apply requires_chr. Qed.

Lemma labelValue_numeric field cands :
  numericField field = true -> nodigits cands -> labelValue field cands = None.
Proof.
  intros Hf. induction cands as [|l rest IH]; intros H; [reflexivity|].
  apply nodigits_cons in H. destruct H as [Hl Hrest]. cbn [labelValue]. cbv zeta.
  destruct (negb (nonempty (trim l))); [now apply IH|].
  destruct (labelMap (valueKey (trim l))); [reflexivity|].
  destruct (test RX_TOTALS_LABEL (trim l)); [reflexivity|].
  now rewrite (test_digit_nodigit _ (trim_nodigit _ Hl)), Hf.
Qed.

Lemma field_eqb_eq a b : field_eqb a b = true -> a = b.
Proof. destruct a, b; simpl; congruence. Qed.

Lemma no_numeric_get c f : no_numeric c -> numericField f = true -> collected_get c f = None.
Proof.
  intros Hc Hf. unfold collected_get.
  destruct (find (fun kv => field_eqb (fst kv) f) c) as [kv|] eqn:E; [|reflexivity].
  apply find_some in E. destruct E as [Hin E]. apply field_eqb_eq in E.
  apply Hc in Hin. congruence.
Qed.

Lemma no_numeric_set c f v :
  no_numeric c -> numericField f = false -> no_numeric (collected_set c f v).
Proof.
  intros Hc Hf kv [<-|H]; [exact Hf|]. apply filter_In in H. now apply Hc.
Qed.

Lemma collectLabels_no_numeric rows :
  forall all c found,
    nodigits all -> (forall l, In l rows -> In l all) -> no_numeric c ->
    no_numeric (fst (collectLabels rows c found)).
Proof.
  induction rows as [|l rest IH]; intros all c found Hall Hin Hc; [exact Hc|].
  assert (Hrest : forall x, In x rest -> In x all) by (intros x Hx; apply Hin; now right).
  cbn [collectLabels].
  destruct (labelMap (labelKey l)) as [field|]; [|now apply (IH all)].
  destruct (labelValue field (firstn 2 rest)) as [val|] eqn:Ev; [|now apply (IH all)].
  destruct (has_value c field); [now apply (IH all)|].
  apply (IH all); auto. apply no_numeric_set; [exact Hc|].
  destruct (numericField field) eqn:Ef; [|reflexivity].
  rewrite (labelValue_numeric field (firstn 2 rest) Ef) in Ev; [discriminate|].
  apply nodigits_firstn. intros x Hx. auto.
Qed.

Lemma qty_inline_requires_digit : requires is_digit RX_QTY_INLINE.
Proof.
  unfold RX_QTY_INLINE. cbn [cat].
  do 5 apply requires_cat_r. apply requires_cat_l, requires_grp.
  apply requires_rep; [lia|]. now apply requires_chr.
Qed.

Lemma collectInlineQty_nodigits rows :
  nodigits rows -> forall c found, collectInlineQty rows c found = (c, found).
Proof.
  induction rows as [|l rest IH]; intros H c found; [reflexivity|].
  apply nodigits_cons in H. destruct H as [Hl Hrest]. cbn [collectInlineQty].
  rewrite (exec_requires is_digit _ _ qty_inline_requires_digit Hl). now apply IH.
Qed.

Lemma extractVerticalFormItems_nodigits lines :
  nodigits lines -> extractVerticalFormItems lines = Exn.Ok [].
Proof.
  intros H. unfold extractVerticalFormItems.
  pose proof (collectLabels_no_numeric lines lines [] 0 H (fun l Hl => Hl)) as Hc.
  destruct (collectLabels lines [] 0) as [c found]. cbn [fst] in Hc.
  assert (Hc0 : no_numeric c) by (apply Hc; intros kv []).
  clear Hc. rewrite (collectInlineQty_nodigits lines H). cbv zeta.
  match goal with
  | |- context [if Nat.ltb found 2 || (negb (has_value ?x FDescription) && _) then _ else _] =>
      set (c' := x)
  end.
  assert (Hc' : no_numeric c').
  { subst c'.
    destruct (negb (has_value c FDescription) && has_value c FPartNumber); [|exact Hc0].
    destruct (findIndex _ lines); [|exact Hc0].
    destruct (regionDescription _ _); [|exact Hc0].
    now apply no_numeric_set. }
  clearbody c'.
  destruct (Nat.ltb found 2 || _); [reflexivity|].
  rewrite !(no_numeric_get c') by (exact Hc' || reflexivity).
  reflexivity.
Qed.

Lemma extractParts_nodigits bodyLines allLines :
  nodigits bodyLines -> nodigits allLines -> extractParts bodyLines allLines = Exn.Ok [].
Proof.
  intros Hb Ha. unfold extractParts.
  rewrite (extractFromColumnTable_nodigits _ Hb), (extractVerticalFormItems_nodigits _ Ha).
  unfold extractMultiLineItems.
  rewrite (multiRows_nodigits _ Hb), (perLine_nodigits _ Hb), (perLine_nodigits _ Ha).
  reflexivity.
Qed.

(** ** Captures are made of units of the subject *)

Lemma advances_clean (p : char -> bool) z z' :
  advances z z' -> existsb p (after z) = false ->
  existsb p (after z') = false /\ existsb p (consumed z z') = false.
Proof.
  intros (w & Hw & _) H. rewrite (advances_consumed _ _ _ Hw).
  rewrite Hw, existsb_app in H. apply orb_false_iff in H. tauto.
Qed.

Lemma iter_caps (p : char -> bool) (R : step) :
  (forall z cs z' cs', R z cs z' cs' -> advances z z') ->
  (forall z cs z' cs', R z cs z' cs' ->
     existsb p (after z) = false -> clean_caps p cs -> clean_caps p cs') ->
  forall n z cs z' cs', iter n R z cs z' cs' ->
     existsb p (after z) = false -> clean_caps p cs -> clean_caps p cs'.
Proof.
  intros Hadv HR. induction n as [|n IH]; intros z cs z' cs' H Hz Hcs; simpl in H.
  - destruct H as [_ ->]. exact Hcs.
  - destruct H as (z1 & cs1 & H1 & H2).
    apply (IH _ _ _ _ H2).
    + apply (advances_clean p z z1); [eapply Hadv; eauto|exact Hz].
    + eapply HR; eauto.
Qed.

Lemma den_caps (p : char -> bool) (r : regex) :
  forall z cs z' cs', den r z cs z' cs' ->
    existsb p (after z) = false -> clean_caps p cs -> clean_caps p cs'.
Proof.
  induction r as [|q|a IHa b IHb|a IHa b IHb|lo hi a IHa|j a IHa|ml|ml| |a IHa|a IHa|q];
    intros z cs z' cs' H Hz Hcs; simpl in H.
  - destruct H as [_ ->]. exact Hcs.
  - destruct H as (c & rest & _ & _ & _ & ->). exact Hcs.
  - destruct H as (z1 & cs1 & H1 & H2).
    apply (IHb _ _ _ _ H2); [|eapply IHa; eauto].
    apply (advances_clean p z z1); [eapply den_advances; eauto|exact Hz].
  - destruct H as [H|H]; [eapply IHa | eapply IHb]; eauto.
  - destruct H as (n & _ & _ & H).
    eapply (iter_caps p (den a)); eauto. intros; eapply den_advances; eauto.
  - destruct H as (cs1 & H & ->). intros i w Hl. simpl in Hl.
    destruct (Nat.eqb i j).
    + injection Hl as <-.
      apply (advances_clean p z z'); [eapply den_advances; eauto|exact Hz].
    + eapply IHa; eauto.
  - destruct H as (_ & _ & ->). exact Hcs.
  - destruct H as (_ & _ & ->). exact Hcs.
  - destruct H as (_ & _ & ->). exact Hcs.
  - destruct H as (_ & z1 & H). eapply IHa; eauto.
  - destruct H as (_ & _ & ->). exact Hcs.
  - destruct H as (_ & _ & ->). exact Hcs.
Qed.

(** The captures of a match hold nothing the subject does not hold. *)
Lemma exec_caps (p : char -> bool) r s m i w :
  exec r s = Some m -> existsb p s = false -> group m i = Some w -> existsb p w = false.
Proof.
  intros H Hs Hg. apply exec_sound in H.
  destruct H as (pre & post & z' & Hd & _ & _ & E).
  apply (den_caps p _ _ _ _ _ Hd) with (i := i); [| |exact Hg].
  - cbn [after]. rewrite <- E, existsb_app in Hs. apply orb_false_iff in Hs. tauto.
  - intros k x Hk. discriminate Hk.
Qed.


(** ** No amount without a digit *)

Lemma take_digits_nodigit s : existsb is_digit s = false -> take_digits s = ([], s).
Proof.
  destruct s as [|c s]; [reflexivity|]. simpl. intros H.
  apply orb_false_iff in H. destruct H as [-> _]. reflexivity.
Qed.

Lemma parseFloat_nodigit s : existsb is_digit s = false -> parseFloat s = NaN.
Proof.
  intros H. unfold parseFloat. rewrite (take_digits_nodigit _ H).
  destruct s as [|c s]; [reflexivity|].
  simpl in H. apply orb_false_iff in H. destruct H as [_ H].
  rewrite (take_digits_nodigit _ H). destruct (c =? 46)%N; reflexivity.
Qed.

Lemma delete_nodigit r s :
  existsb is_digit s = false -> existsb is_digit (replace_all_with r [] s) = false.
Proof. apply existsb_false_incl. intros c. apply delete_incl. Qed.

Lemma amountOf_nodigit t : existsb is_digit t = false -> amountOf t = NaN.
Proof. intros H. unfold amountOf. now apply parseFloat_nodigit, delete_nodigit. Qed.

Lemma amount_group_requires_digit :
  requires is_digit
    (Grp 1 (cat [plus (Chr is_digit_or_comma); lit "."; rep 1 4 digit])).
Proof.
  apply requires_grp. cbn [cat]. apply requires_cat_r, requires_cat_r.
  apply requires_rep; [lia|]. now apply requires_chr.
Qed.

Lemma inline_amount_requires_digit : requires is_digit RX_INLINE_AMOUNT.
Proof.
  unfold RX_INLINE_AMOUNT. cbn [cat].
  apply requires_cat_r, requires_cat_r. exact amount_group_requires_digit.
Qed.

Lemma amount_line_requires_digit : requires is_digit RX_AMOUNT_LINE.
Proof.
  unfold RX_AMOUNT_LINE. cbn [cat].
  apply requires_cat_r, requires_cat_r, requires_cat_r, requires_cat_l.
  exact amount_group_requires_digit.
Qed.

Lemma aheadAmount_nodigits cands : nodigits cands -> aheadAmount cands = None.
Proof.
  induction cands as [|l rest IH]; intros H; [reflexivity|].
  apply nodigits_cons in H. destruct H as [Hl Hrest]. cbn [aheadAmount]. cbv zeta.
  destruct (test RX_STOP_LABEL (trim l)); [reflexivity|].
  rewrite (exec_requires is_digit _ _ amount_line_requires_digit (trim_nodigit _ Hl)).
  now apply IH.
Qed.

Lemma multiLineAmount_nodigits label lines :
  nodigits lines -> multiLineAmount label lines = None.
Proof.
  induction lines as [|l rest IH]; intros H; [reflexivity|].
  apply nodigits_cons in H. destruct H as [Hl Hrest]. cbn [multiLineAmount]. cbv zeta.
  destruct (negb (test label l)); [now apply IH|].
  rewrite (exec_requires is_digit _ _ inline_amount_requires_digit (delete_nodigit label _ Hl)).
  rewrite (aheadAmount_nodigits _ (nodigits_firstn 4 _ Hrest)). now apply IH.
Qed.

Lemma extractLabeledAmount_nodigit text label :
  existsb is_digit text = false -> extractLabeledAmount text label = None.
Proof.
  intros H. unfold extractLabeledAmount. cbv zeta.
  rewrite (multiLineAmount_nodigits label _ (split_on_nodigits _ H)).
  destruct (exec (sameLineRx label) text) as [m|] eqn:E; [|reflexivity].
  destruct (group m 1) as [t|] eqn:Eg; [|reflexivity].
  rewrite (amountOf_nodigit t (exec_caps is_digit _ _ _ _ _ E H Eg)).
  destruct (nonempty t); reflexivity.
Qed.

(** ** No total without a digit *)

Lemma standalone_requires_digit : requires is_digit RX_STANDALONE_AMOUNT.
Proof.
  unfold RX_STANDALONE_AMOUNT. cbn [cat].
  apply requires_cat_r, requires_cat_r, requires_cat_r, requires_cat_l.
  exact amount_group_requires_digit.
Qed.

Lemma standaloneAmounts_nodigits rows :
  nodigits rows -> standaloneAmounts rows = Exn.Ok [].
Proof.
  induction rows as [|l rest IH]; intros H; [reflexivity|].
  apply nodigits_cons in H. destruct H as [Hl Hrest]. cbn [standaloneAmounts].
  rewrite (exec_requires is_digit _ _ standalone_requires_digit (trim_nodigit _ Hl)).
  now apply IH.
Qed.

Lemma posTax_nodigits rows : nodigits rows -> posTax rows = Exn.Ok None.
Proof.
  induction rows as [|l rest IH]; intros H; [reflexivity|].
  apply nodigits_cons in H. destruct H as [Hl Hrest]. cbn [posTax].
  rewrite (standaloneAmounts_nodigits _ (nodigits_firstn 4 _ Hrest)), (IH Hrest).
  destruct (test RX_PCT l || test RX_TAXTABLE l); reflexivity.
Qed.

Lemma extractTotals_nodigit fullText footerText :
  existsb is_digit fullText = false -> existsb is_digit footerText = false ->
  extractTotals fullText footerText []
  = Exn.Ok (Totals None None None None None None (Fin 0) None None).
Proof.
  intros Hf Hfoot. unfold extractTotals. cbv zeta.
  rewrite (posTax_nodigits _ (split_on_nodigits _ Hf)). cbn [Exn.bind].
  assert (Hs : existsb is_digit
                 ((if Nat.ltb 10 (length footerText) then footerText ++ [newline] else [])
                  ++ fullText) = false).
  { rewrite existsb_app, Hf. destruct (Nat.ltb 10 (length footerText)); [|reflexivity].
    rewrite existsb_app, Hfoot. reflexivity. }
  assert (Hfs : existsb is_digit
                  (if Nat.ltb 10 (length footerText) then footerText else fullText) = false)
    by (destruct (Nat.ltb 10 (length footerText)); assumption).
  rewrite !(extractLabeledAmount_nodigit _ _ Hs), (extractLabeledAmount_nodigit _ _ Hfs).
  reflexivity.
Qed.

(** ** No date and no phone number without a digit *)

Lemma date_value_requires_digit : requires is_digit RX_DATE_VALUE.
Proof.
  unfold RX_DATE_VALUE. apply requires_grp. cbn [cat]. apply requires_cat_l.
  apply requires_rep; [lia|]. now apply requires_chr.
Qed.

Lemma td_nodigit rx text :
  requires is_digit rx -> existsb is_digit text = false -> td rx text = Exn.Ok None.
Proof.
  intros Hr H. unfold td, labeledValue. now rewrite (exec_requires is_digit _ _ Hr H).
Qed.

Lemma invDateRx_requires_digit : requires is_digit invDateRx.
Proof.
  unfold invDateRx. cbn [cat]. apply requires_cat_r, requires_cat_r.
  exact date_value_requires_digit.
Qed.

Lemma dueDateRx_requires_digit : requires is_digit dueDateRx.
Proof.
  unfold dueDateRx. cbn [cat]. apply requires_cat_r, requires_cat_r.
  exact date_value_requires_digit.
Qed.

Lemma txDateRx_requires_digit : requires is_digit txDateRx.
Proof.
  unfold txDateRx. cbn [cat]. do 4 apply requires_cat_r.
  exact date_value_requires_digit.
Qed.

Lemma date_iso_requires_digit : requires is_digit DATE_ISO.
Proof.
  unfold DATE_ISO. cbn [cat]. apply requires_cat_r, requires_cat_l, requires_grp, requires_cat_l.
  apply requires_rep; [lia|]. now apply requires_chr.
Qed.

Lemma extractDates_nodigit text :
  existsb is_digit text = false -> extractDates text = Exn.Ok (MkDates None None None).
Proof.
  intros H. unfold extractDates.
  rewrite (td_nodigit _ _ invDateRx_requires_digit H).
  rewrite (td_nodigit _ _ dueDateRx_requires_digit H).
  rewrite (td_nodigit _ _ txDateRx_requires_digit H). cbn [Exn.bind].
  unfold match_all. rewrite (exec_all_requires is_digit _ _ date_iso_requires_digit H).
  reflexivity.
Qed.

Lemma extractTransaction_nodigit text code tx :
  existsb is_digit text = false -> extractTransaction text code = Exn.Ok tx ->
  txInvoiceDate tx = None /\ txDueDate tx = None /\ transactionDate tx = None.
Proof.
  intros H E. unfold extractTransaction in E.
  rewrite (extractDates_nodigit _ H) in E.
  repeat match type of E with
         | Exn.bind ?m _ = _ => destruct m; cbn [Exn.bind] in E; [|discriminate]
         end.
  apply Ok_inj in E. subst tx. auto.
Qed.

Lemma phone_requires_digit : requires is_digit PHONE.
Proof.
  unfold PHONE. cbn [alt cat]. apply requires_alt.
  - apply requires_cat_r, requires_cat_l. apply requires_rep; [lia|]. now apply requires_chr.
  - apply requires_cat_r, requires_cat_l. apply requires_rep; [lia|]. now apply requires_chr.
Qed.

Lemma extractPhones_nodigit text : existsb is_digit text = false -> extractPhones text = [].
Proof.
  intros H. unfold extractPhones, match_all.
  now rewrite (exec_all_requires is_digit _ _ phone_requires_digit H).
Qed.

Lemma buildSupplier_nodigit nameHint block s :
  existsb is_digit block = false -> buildSupplier nameHint block = Exn.Ok s ->
  phone (supplierContact s) = None.
Proof.
  intros H E. unfold buildSupplier in E. cbv zeta in E.
  rewrite (extractPhones_nodigit _ H) in E.
  repeat match type of E with
         | Exn.bind ?m _ = _ => destruct m; cbn [Exn.bind] in E; [|discriminate]
         end.
  apply Ok_inj in E. subst s. reflexivity.
Qed.

(** ** The record of a text without a digit *)

Lemma parse_nodigit now rawText options r :
  existsb is_digit rawText = false -> parse now rawText options = Exn.Ok r ->
  parts r = [] /\
  totals r = Totals None None None None None None (Fin 0) None None /\
  txInvoiceDate (transaction r) = None /\ txDueDate (transaction r) = None /\
  transactionDate (transaction r) = None /\
  phone (supplierContact (supplier r)) = None.
Proof.
  intros Hraw H. pose proof (normalise_nodigit _ Hraw) as Hn.
  pose proof (nonblank_lines_nodigits _ Hn) as Hl.
  revert H. unfold parse. cbv zeta.
  set (normText := normaliseOCRText rawText) in *.
  set (lines := nonblank_lines normText) in *.
  assert (Hh : nodigits (headerLines (segmentDocument lines)))
    by (apply nodigits_slice; exact Hl).
  assert (Hb : nodigits (bodyLines (segmentDocument lines)))
    by (apply nodigits_slice; exact Hl).
  assert (Hf : nodigits (footerLines (segmentDocument lines)))
    by (apply nodigits_skipn; exact Hl).
  pose proof (join_nodigit [newline] _ eq_refl Hh) as Hht.
  pose proof (join_nodigit [newline] _ eq_refl Hf) as Hft.
  rewrite (extractParts_nodigits _ _ Hb Hl).
  intros H.
  repeat match type of H with
         | Exn.bind (buildSupplier ?a ?b) _ = _ =>
             destruct (buildSupplier a b) as [s|] eqn:Es; cbn [Exn.bind] in H;
             [|discriminate]
         | Exn.bind (extractTransaction ?a ?b) _ = _ =>
             destruct (extractTransaction a b) as [tx|] eqn:Et; cbn [Exn.bind] in H;
             [|discriminate]
         | Exn.bind (extractTotals ?a ?b ?c) _ = _ =>
             rewrite (extractTotals_nodigit a b Hn Hft) in H; cbn [Exn.bind] in H
         | Exn.bind ?m _ = _ => destruct m; cbn [Exn.bind] in H; [|discriminate]
         end.
  apply Ok_inj in H. subst r. cbn [parts totals transaction supplier].
  destruct (extractTransaction_nodigit _ _ _ Hn Et) as (H1 & H2 & H3).
  pose proof (buildSupplier_nodigit _ _ _ Hht Es) as Hp.
  repeat split; auto.
  match goal with |- phone (supplierContact ?x) = None =>
    assert (Hx : supplierContact x = supplierContact s) by (destruct a0; reflexivity)
  end.
  now rewrite Hx.
Qed.

End DigitFacts.

Module AddressFacts.
Import JS Regex Num Schema Primitives Parser Spec.
Import RegexFacts TokenFacts RequireFacts AmountFacts SearchFacts NumberFacts ContactFacts.
Local Close Scope N_scope.

Lemma lang_times_chr n (p : char -> bool) w :
  lang (times n (Chr p)) w -> length w = n /\ forallb p w = true.
Proof.
  intros H. apply lang_rep_chr in H. destruct H as [H Hn]. split; [lia|exact H].
Qed.

Lemma au_postal block m pc :
  exec AU_SUBURB_STATE_PC block = Some m -> group m 3 = Some pc -> digitsN 4 pc.
Proof.
  intros E Hg. pose proof (exec_group_lang _ _ _ _ _ E Hg) as H.
  unfold AU_SUBURB_STATE_PC in H. cbn [cat] in H.
  repeat match type of H with
         | group_lang 3 (Cat _ _) _ =>
             destruct H as [H|H];
             [apply group_lang_has_group in H; vm_compute in H; discriminate H|]
         end.
  destruct H as [[_ H]|H]; [|apply group_lang_has_group in H; vm_compute in H; discriminate H].
  now apply lang_times_chr in H.
Qed.

Lemma zip_postal block m pc :
  exec RX_ZIP block = Some m -> group m 1 = Some pc -> digitsN 5 pc \/ zipPlus4 pc.
Proof.
  intros E Hg. pose proof (exec_group_lang _ _ _ _ _ E Hg) as H.
  unfold RX_ZIP in H. cbn [cat] in H.
  destruct H as [H|[H|H]];
    try (apply group_lang_has_group in H; vm_compute in H; discriminate H).
  destruct H as [[_ H]|H]; [|apply group_lang_has_group in H; vm_compute in H; discriminate H].
  destruct H as (w1 & w2 & -> & H1 & H2). apply lang_times_chr in H1.
  apply lang_opt in H2. destruct H2 as [->|H2].
  - left. now rewrite app_nil_r.
  - right. destruct H2 as (d & w3 & -> & Hd & H3). apply lang_lit in Hd. subst d.
    apply lang_times_chr in H3. exists w1, w3. cbn [app]. tauto.
Qed.

Lemma country_known block nc :
  find (fun nc => includes (toLowerCase block) (fst nc)) COUNTRY_CODES = Some nc ->
  In (snd nc) COUNTRIES.
Proof.
  intros H. apply find_some in H. destruct H as [H _]. unfold COUNTRY_CODES in H.
  repeat (destruct H as [<-|H]; [vm_compute; tauto|]). contradiction.
Qed.

Lemma street_shape line :
  test RX_STREET line = true -> exists d rest, line = d :: rest /\ is_digit d = true.
Proof.
  unfold test. intros H. destruct (exec RX_STREET line) as [m|] eqn:E; [|discriminate].
  apply exec_sound in E. destruct E as (pre & post & z' & Hd & _ & _ & Hs).
  unfold RX_STREET in Hd. cbn [cat] in Hd.
  destruct Hd as (z1 & cs1 & (Hb & -> & ->) & (z2 & cs2 & Hr & _)).
  apply at_bol_false in Hb. simpl in Hb. subst pre. simpl in Hs. subst post.
  destruct Hr as (n & Hn & _ & Hi). destruct n as [|n]; [lia|].
  destruct Hi as (z3 & cs3 & (c & rest & Ea & Hc & _) & _). simpl in Ea.
  exists c, rest. auto.
Qed.

Lemma bind_ok_inv {A B} (m : Exn.result A) (k : A -> Exn.result B) b :
  Exn.bind m k = Exn.Ok b -> exists x, m = Exn.Ok x /\ k x = Exn.Ok b.
Proof. destruct m as [x|]; simpl; [eauto|discriminate]. Qed.

Lemma digits4_nonempty pc : digitsN 4 pc -> nonempty pc = true.
Proof. intros [H _]. destruct pc; [discriminate|reflexivity]. Qed.

Lemma parseAddress_fields block a :
  parseAddress block = Exn.Ok a ->
  (forall k, country a = Some k -> In k COUNTRIES) /\
  (forall pc, postalCode a = Some pc ->
     postalShape pc /\ (length pc = 4 -> country a = Some (str "AU"))) /\
  (forall st, street a = Some st ->
     5 < length st /\ exists d rest, st = d :: rest /\ is_digit d = true).
Proof.
  unfold parseAddress. intros H. cbv zeta in H.
  apply bind_ok_inv in H. destruct H as ([[[city0 state0] postal0] country0] & Hau & H).
  cbv beta iota in H.
  apply bind_ok_inv in H. destruct H as ([[[city1 state1] postal1] country1] & Hus & H).
  cbv beta iota in H. apply Ok_inj in H. subst a. cbn [country postalCode street].
  (* the street *)
  split; [|split];
    [| |intros st Hf; apply find_some in Hf; destruct Hf as [_ Hf];
        apply andb_true_iff in Hf; destruct Hf as [H1 H2]; apply Nat.ltb_lt in H2;
        split; [exact H2|now apply street_shape]].
  all: set (c1 := if negb (truthy_str country0)
                  then match find (fun nc : jsstring * jsstring =>
                                     includes (toLowerCase block) (fst nc)) COUNTRY_CODES with
                       | Some nc => Some (snd nc)
                       | None => country0
                       end
                  else country0) in Hus.
  all: assert (F0 : (country0 = None /\ postal0 = None) \/
                    (country0 = Some (str "AU") /\
                     forall pc, postal0 = Some pc -> digitsN 4 pc)).
  1,3: destruct (exec AU_SUBURB_STATE_PC block) as [am|] eqn:Eau;
       [destruct (group am 1) as [c|]; cbn [Exn.must Exn.bind] in Hau; [|discriminate];
        apply Ok_inj in Hau; injection Hau as _ _ <- <-; right;
        split; [reflexivity|intros pc; apply (au_postal _ _ _ Eau)]
       |apply Ok_inj in Hau; injection Hau as _ _ <- <-; left; auto].
  all: assert (F1 : (forall k, c1 = Some k -> In k COUNTRIES) /\
                    (country0 = Some (str "AU") -> c1 = Some (str "AU"))).
  1,3: subst c1; destruct F0 as [[-> _]|[-> _]];
       [split; [|discriminate]; cbn [truthy_str negb]; intros k Hk;
        destruct (find _ COUNTRY_CODES) as [nc|] eqn:Ef; [|discriminate];
        injection Hk as <-; now apply (country_known block)
       |split; [intros k Hk; injection Hk as <-; vm_compute; tauto|reflexivity]].
  all: clearbody c1; clear Hau.
  - (* the country *)
    intros k Hk. destruct F1 as [F1 _].
    assert (HUS : In (str "US") COUNTRIES) by (vm_compute; tauto).
    destruct (negb (truthy_str postal0)).
    + destruct (exec RX_CITY_STATE_ZIP block) as [csz|].
      * destruct (group csz 1) as [c|]; cbn [Exn.must Exn.bind] in Hus; [|discriminate].
        apply Ok_inj in Hus. injection Hus as _ _ _ <-.
        destruct (_ && _) in Hk.
        -- cbn in Hk. now injection Hk as <-.
        -- destruct (negb (truthy_str c1)); [now injection Hk as <-|auto].
      * apply Ok_inj in Hus. injection Hus as _ _ _ <-. auto.
    + apply Ok_inj in Hus. injection Hus as _ _ _ <-. auto.
  - (* the postal code *)
    intros pc Hpc.
    assert (Hzip : forall m, exec RX_ZIP block = Some m -> group m 1 = Some pc ->
                     postalShape pc /\ (length pc = 4 -> country1 = Some (str "AU"))).
    { intros m Em Hg. destruct (zip_postal _ _ _ Em Hg) as [[Hl Hd]|Hz].
      - split; [right; left; split; assumption|intros; lia].
      - split; [right; right; exact Hz|].
        destruct Hz as (x & y & -> & Hx & Hy & _). rewrite length_app. simpl. lia. }
    assert (Hold : negb (truthy_str postal0) = true -> postal0 = Some pc -> False).
    { intros Hn E. destruct F0 as [[_ F0]|[_ F0]]; [congruence|].
      rewrite E in Hn. cbn [truthy_str] in Hn.
      rewrite (digits4_nonempty pc (F0 pc E)) in Hn. discriminate. }
    destruct (negb (truthy_str postal0)) eqn:En.
    + destruct (exec RX_CITY_STATE_ZIP block) as [csz|].
      * destruct (group csz 1) as [c|]; cbn [Exn.must Exn.bind] in Hus; [|discriminate].
        apply Ok_inj in Hus. injection Hus as _ _ Hp _. rewrite Hpc in Hp.
        destruct (exec RX_ZIP block) as [m|] eqn:Em; [now apply (Hzip m)|].
        exfalso. now apply Hold.
      * apply Ok_inj in Hus. injection Hus as _ _ Hp _. rewrite Hpc in Hp.
        destruct (exec RX_ZIP block) as [m|] eqn:Em; [now apply (Hzip m)|].
        exfalso. now apply Hold.
    + apply Ok_inj in Hus. injection Hus as _ _ Hp Hc. rewrite Hpc in Hp.
      destruct F0 as [[_ F0]|[Ec F0]]; [congruence|].
      split; [left; now apply F0|]. intros _. rewrite <- Hc. now apply F1.
Qed.

End AddressFacts.

Module TableFacts.
Import JS Regex Num Schema Primitives Parser Spec.
Local Close Scope N_scope.

(** A footer line is never the description of the row before it. *)
Lemma columnRow_footer_next line f :
  test tableFooterRx (trim f) = true -> columnRow line (Some f) = columnRow line None.
Proof.
  intros H. unfold columnRow. cbv zeta. rewrite H. cbn [negb].
  rewrite andb_false_r. cbn [andb]. reflexivity.
Qed.

(** The rows after a footer line are not read. *)
Lemma columnRows_footer f post :
  test tableFooterRx (trim f) = true ->
  forall rows skip,
    (skip = true -> rows <> []) ->
    columnRows skip (rows ++ f :: post) = columnRows skip rows.
Proof.
  intros Hf. induction rows as [|l rest IH]; intros skip Hs.
  - destruct skip; [now exfalso; apply Hs|]. cbn [app columnRows]. now rewrite Hf.
  - cbn [app columnRows]. destruct skip.
    + destruct rest as [|l2 rest].
      * cbn [app columnRows]. now rewrite Hf.
      * apply IH. discriminate.
    + destruct (test tableFooterRx (trim l)); [reflexivity|].
      assert (Hrow : columnRow l (hd_error (rest ++ f :: post)) = columnRow l (hd_error rest)).
      { destruct rest as [|l2 rest]; [|reflexivity]. cbn [app hd_error].
        now apply columnRow_footer_next. }
      assert (Htook : forall item, columnRow l (hd_error rest) = Some (item, true) ->
                                   rest <> []).
      { intros item E ->. cbn [hd_error] in E. unfold columnRow in E. cbv zeta in E.
        repeat match type of E with
               | match ?x with _ => _ end = _ => destruct x; try discriminate
               | (if ?x then _ else _) = _ => destruct x; try discriminate
               | (let '(_, _) := ?x in _) = _ => destruct x
               end. }
      rewrite Hrow.
      destruct (Nat.ltb (length (trim l)) 4); [apply IH; discriminate|].
      destruct (columnRow l (hd_error rest)) as [[item took]|] eqn:E.
      * f_equal. apply IH. intros ->. now apply (Htook item).
      * apply IH. discriminate.
Qed.

Lemma find_seq_ext (g g' : nat -> bool) :
  forall len lo, (forall i, lo <= i < lo + len -> g i = g' i) ->
                 find g (seq lo len) = find g' (seq lo len).
Proof.
  induction len as [|len IH]; intros lo H; [reflexivity|]. cbn [seq find].
  rewrite (H lo) by lia. rewrite (IH (S lo)) by (intros i Hi; apply H; lia). reflexivity.
Qed.

Lemma find_seq_more (g : nat -> bool) h :
  forall len lo extra, find g (seq lo len) = Some h -> find g (seq lo (len + extra)) = Some h.
Proof.
  induction len as [|len IH]; intros lo extra H; [discriminate|].
  cbn [seq find Nat.add] in *. destruct (g lo); [exact H|]. now apply IH.
Qed.

Lemma find_seq_exists (g : nat -> bool) :
  forall len lo i, lo <= i < lo + len -> g i = true -> find g (seq lo len) <> None.
Proof.
  induction len as [|len IH]; intros lo i Hi Hg; [lia|]. cbn [seq find].
  destruct (g lo) eqn:E; [discriminate|].
  apply (IH (S lo) i); [|exact Hg].
  destruct (Nat.eq_dec i lo) as [->|]; [congruence|lia].
Qed.

(** The header row of a table with more lines after it. *)
Lemma header_index_app pre more h :
  first_index (fun i => Nat.leb 2 (hits headerKws (toLowerCase (line_at pre i))))
              0 (length pre) = Some h ->
  first_index (fun i => Nat.leb 2 (hits headerKws (toLowerCase (line_at (pre ++ more) i))))
              0 (length (pre ++ more)) = Some h.
Proof.
  unfold first_index. rewrite !Nat.sub_0_r, length_app. intros H.
  apply find_seq_more.
  rewrite (find_seq_ext _ (fun i => Nat.leb 2 (hits headerKws (toLowerCase (line_at pre i)))));
    [exact H|].
  intros i Hi. unfold line_at. rewrite app_nth1 by lia. reflexivity.
Qed.

Lemma table_stops_at_footer pre f post :
  (exists i, i < length pre /\ 2 <= hits headerKws (toLowerCase (line_at pre i))) ->
  test tableFooterRx (trim f) = true ->
  extractFromColumnTable (pre ++ f :: post) = extractFromColumnTable pre.
Proof.
  intros (i & Hi & Hh) Hf. unfold extractFromColumnTable.
  destruct (first_index _ 0 (length pre)) as [h|] eqn:E.
  - rewrite (header_index_app pre (f :: post) h E).
    assert (Hlt : h < length pre).
    { unfold first_index in E. apply find_some in E. destruct E as [E _].
      apply in_seq in E. lia. }
    rewrite skipn_app.
    replace (S h - length pre) with 0 by lia. cbn [skipn].
    apply columnRows_footer; [exact Hf|discriminate].
  - exfalso. unfold first_index in E. revert E.
    apply (find_seq_exists _ _ 0 i); [lia|]. now apply Nat.leb_le.
Qed.

End TableFacts.

Module TaxFacts.
Import JS Regex Num Schema Primitives Parser Spec.
Import RegexFacts TokenFacts RequireFacts AmountFacts SearchFacts NumberFacts CleanFacts.
Import ContactFacts DigitFacts AddressFacts.
Local Close Scope N_scope.

(** ** Replacements that touch no unit of a class *)

Lemma match_at_prefix r pre post z' cs :
  match_at r (Cursor pre post) = Some (z', cs) ->
  post = consumed (Cursor pre post) z'
         ++ skipn (length (consumed (Cursor pre post) z')) post.
Proof.
  intros H. apply match_at_sound, den_advances in H. destruct H as (w & Hw & _).
  rewrite (advances_consumed _ _ _ Hw). cbn [after] in Hw. rewrite Hw at 1.
  rewrite Hw, skipn_app, Nat.sub_diag, skipn_all. reflexivity.
Qed.

Lemma replace_go_filter (p : char -> bool) r f :
  (forall pre post z' cs,
      match_at r (Cursor pre post) = Some (z', cs) ->
      filter p (consumed (Cursor pre post) z') = [] /\
      filter p (f (RMatch (length pre) (consumed (Cursor pre post) z') cs)) = []) ->
  forall post skip pre, filter p (replace_go r f skip pre post) = filter p (skipn skip post).
Proof.
  intros Hm. induction post as [|c post IH]; intros skip pre.
  - destruct skip; cbn [replace_go skipn]; [|reflexivity].
    destruct (match_at r (Cursor pre [])) as [[z' cs]|] eqn:E; [|reflexivity].
    rewrite app_nil_r. now apply (Hm _ _ _ _ E).
  - destruct skip as [|k]; cbn [replace_go skipn]; [|apply IH].
    destruct (match_at r (Cursor pre (c :: post))) as [[z' cs]|] eqn:E.
    + destruct (Hm _ _ _ _ E) as [Hw Hf]. pose proof (match_at_prefix _ _ _ _ _ E) as Hp.
      rewrite filter_app, Hf. cbn [app].
      destruct (length (consumed (Cursor pre (c :: post)) z')) as [|n] eqn:El.
      * cbn [filter]. now rewrite IH.
      * rewrite IH.
        transitivity (filter p (consumed (Cursor pre (c :: post)) z'
                                ++ skipn (S n) (c :: post))); [|now rewrite <- Hp].
        rewrite filter_app, Hw. reflexivity.
    + cbn [filter]. now rewrite IH.
Qed.

(** ** White space and digits *)

Lemma digit_not_space c : is_digit c = true -> is_space c = false.
Proof. intros H. apply alnum_not_space. rewrite H. apply orb_true_r. Qed.

Lemma space_not_digit c : is_space c = true -> is_digit c = false.
Proof.
  intros H. destruct (is_digit c) eqn:E; [|reflexivity].
  apply digit_not_space in E. congruence.
Qed.

Lemma filter_none (p q : char -> bool) w :
  (forall c, q c = true -> p c = false) -> forallb q w = true -> filter p w = [].
Proof.
  intros Hpq. induction w as [|c w IH]; [reflexivity|]. simpl. intros H.
  apply andb_true_iff in H. destruct H as [Hc Hw]. now rewrite (Hpq c Hc), IH.
Qed.

Lemma filter_all (p : char -> bool) w : forallb p w = true -> filter p w = w.
Proof.
  induction w as [|c w IH]; [reflexivity|]. simpl. intros H.
  apply andb_true_iff in H. destruct H as [Hc Hw]. now rewrite Hc, IH.
Qed.

Lemma filter_drop_while (p q : char -> bool) :
  (forall c, q c = true -> p c = false) ->
  forall s, filter p (drop_while q s) = filter p s.
Proof.
  intros Hpq. induction s as [|c s IH]; [reflexivity|]. cbn [drop_while].
  destruct (q c) eqn:E; [|reflexivity]. cbn [filter]. now rewrite (Hpq c E).
Qed.

Lemma filter_rev_length (p : char -> bool) s :
  length (filter p (rev s)) = length (filter p s).
Proof.
  induction s as [|c s IH]; [reflexivity|]. cbn [rev filter].
  rewrite filter_app, length_app, IH. cbn [filter].
  destruct (p c); simpl; lia.
Qed.

Lemma trim_digits s : length (filter is_digit (trim s)) = length (filter is_digit s).
Proof.
  unfold trim, trimEnd, trimStart.
  rewrite filter_rev_length, (filter_drop_while _ _ space_not_digit), filter_rev_length.
  now rewrite (filter_drop_while _ _ space_not_digit).
Qed.

Lemma squeeze_digits g : filter is_digit (squeeze g) = filter is_digit g.
Proof.
  unfold squeeze, replace_all_with, replace_all.
  rewrite (replace_go_filter is_digit); [reflexivity|].
  intros pre post z' cs E. split; [|reflexivity].
  apply match_at_sound, den_lang in E. apply lang_atleast_chr in E.
  exact (filter_none _ _ _ space_not_digit (proj1 E)).
Qed.

(** What is left of the white space after squeezing is single blanks. *)
Lemma squeeze_go_chars (f : rmatch -> jsstring) :
  (forall m, f m = str " ") ->
  forall post skip pre c,
    In c (replace_go (plus space) f skip pre post) ->
    (In c post /\ is_space c = false) \/ c = ch " ".
Proof.
  intros Hf. induction post as [|x post IH]; intros skip pre c H.
  - destruct skip; cbn [replace_go] in H; [|contradiction].
    destruct (match_at (plus space) (Cursor pre [])) as [[z' cs]|]; [|contradiction].
    rewrite app_nil_r, Hf in H. destruct H as [<-|[]]. now right.
  - assert (Hrec : forall k, In c (replace_go (plus space) f k (x :: pre) post) ->
                     (In c (x :: post) /\ is_space c = false) \/ c = ch " ").
    { intros k Hk. destruct (IH _ _ _ Hk) as [[Hin Hs]|]; [left; split; [now right|exact Hs]|
                                                          now right]. }
    destruct skip as [|k]; cbn [replace_go] in H; [|now apply (Hrec k)].
    destruct (match_at (plus space) (Cursor pre (x :: post))) as [[z' cs]|] eqn:E.
    + apply in_app_or in H. destruct H as [H|H].
      * rewrite Hf in H. destruct H as [<-|[]]. now right.
      * destruct (length (consumed (Cursor pre (x :: post)) z')) as [|n] eqn:El.
        -- exfalso. apply match_at_sound, den_lang, lang_atleast_chr in E.
           rewrite El in E. lia.
        -- now apply (Hrec n).
    + destruct H as [<-|H]; [|now apply (Hrec 0)].
      left. split; [now left|]. destruct (is_space x) eqn:Ex; [|reflexivity].
      exfalso. revert E. unfold match_at, plus. cbn [run after].
      apply (rep_atleast is_space 1 [] [x] post pre 0); [simpl; now rewrite Ex|simpl; lia|
                                                         simpl; lia].
Qed.

Lemma squeeze_chars g c :
  In c (squeeze g) -> (In c g /\ is_space c = false) \/ c = ch " ".
Proof.
  unfold squeeze, replace_all_with, replace_all.
  apply squeeze_go_chars. intros m. reflexivity.
Qed.

(** The digits of a squeezed and trimmed identifier. *)
Lemma spaced_digits n g :
  forallb (fun c => is_digit c || is_space c) g = true ->
  length (filter is_digit g) = n ->
  spacedDigits n (trim (squeeze g)).
Proof.
  intros Hg Hn. split.
  - apply forallb_forall. intros c Hc. apply trim_incl, squeeze_chars in Hc.
    unfold is_digit_or_blank. destruct Hc as [[Hin Hs]| ->]; [|reflexivity].
    rewrite forallb_forall in Hg. specialize (Hg c Hin). rewrite Hs, orb_false_r in Hg.
    now rewrite Hg.
  - now rewrite trim_digits, squeeze_digits.
Qed.

(** ** The captures of the identifier patterns *)

Ltac only_group H i :=
  repeat match type of H with
         | group_lang i (Cat _ _) _ =>
             destruct H as [H|H];
             [apply group_lang_has_group in H; vm_compute in H; discriminate H|]
         end;
  repeat match type of H with
         | group_lang i (Cat _ _) _ =>
             destruct H as [H|H];
             [|apply group_lang_has_group in H; vm_compute in H; discriminate H]
         end;
  destruct H as [[_ H]|H]; [|apply group_lang_has_group in H; vm_compute in H; discriminate H].

Lemma truthy_group m i :
  truthy_str (group m i) = true -> exists g, group m i = Some g /\ group_text m i = g.
Proof.
  unfold group_text. destruct (group m i) as [g|]; [eauto|discriminate].
Qed.

Lemma digits_piece n w :
  lang (times n digit) w ->
  forallb (fun c => is_digit c || is_space c) w = true /\ length (filter is_digit w) = n.
Proof.
  intros H. apply lang_times_chr in H. destruct H as [Hn Hd]. split.
  - rewrite forallb_forall in *. intros c Hc. now rewrite (Hd c Hc).
  - now rewrite (filter_all _ _ Hd).
Qed.

Lemma space_piece w :
  lang (opt space) w ->
  forallb (fun c => is_digit c || is_space c) w = true /\ length (filter is_digit w) = 0.
Proof.
  intros H. apply lang_opt in H. destruct H as [->|(c & -> & Hc)]; [auto|].
  simpl. rewrite Hc, orb_true_r, (space_not_digit _ Hc). auto.
Qed.

Lemma pieces_app a b w1 w2 :
  forallb (fun c => is_digit c || is_space c) w1 = true /\ length (filter is_digit w1) = a ->
  forallb (fun c => is_digit c || is_space c) w2 = true /\ length (filter is_digit w2) = b ->
  forallb (fun c => is_digit c || is_space c) (w1 ++ w2) = true /\
  length (filter is_digit (w1 ++ w2)) = a + b.
Proof.
  intros [H1 L1] [H2 L2]. rewrite forallb_app, filter_app, length_app, H1, H2, L1, L2. auto.
Qed.

Lemma abn_value text v :
  match exec ABN text with
  | Some m => if truthy_str (group m 1)
              then Some (str "ABN: " ++ trim (squeeze (group_text m 1))) else None
  | None => None
  end = Some v ->
  exists d, v = str "ABN: " ++ d /\ spacedDigits 11 d.
Proof.
  destruct (exec ABN text) as [m|] eqn:E; [|discriminate].
  destruct (truthy_str (group m 1)) eqn:Et; [|discriminate].
  apply truthy_group in Et. destruct Et as (g & Hg & ->). intros [= <-].
  eexists. split; [reflexivity|].
  pose proof (exec_group_lang _ _ _ _ _ E Hg) as H. unfold ABN in H. cbn [cat] in H.
  only_group H 1.
  destruct H as (w1 & r1 & -> & H1 & H). destruct H as (s1 & r2 & -> & S1 & H).
  destruct H as (w2 & r3 & -> & H2 & H). destruct H as (s2 & r4 & -> & S2 & H).
  destruct H as (w3 & r5 & -> & H3 & H). destruct H as (s3 & w4 & -> & S3 & H4).
  apply digits_piece in H1, H2, H3, H4. apply space_piece in S1, S2, S3.
  pose proof (pieces_app _ _ _ _ H1 (pieces_app _ _ _ _ S1 (pieces_app _ _ _ _ H2
               (pieces_app _ _ _ _ S2 (pieces_app _ _ _ _ H3
                 (pieces_app _ _ _ _ S3 H4)))))) as [Hc Hn].
  now apply spaced_digits.
Qed.

Lemma acn_value text v :
  match exec ACN text with
  | Some m => if truthy_str (group m 1) then Some (trim (squeeze (group_text m 1))) else None
  | None => None
  end = Some v ->
  spacedDigits 9 v.
Proof.
  destruct (exec ACN text) as [m|] eqn:E; [|discriminate].
  destruct (truthy_str (group m 1)) eqn:Et; [|discriminate].
  apply truthy_group in Et. destruct Et as (g & Hg & ->). intros [= <-].
  pose proof (exec_group_lang _ _ _ _ _ E Hg) as H. unfold ACN in H. cbn [cat] in H.
  only_group H 1.
  destruct H as (w1 & r1 & -> & H1 & H). destruct H as (s1 & r2 & -> & S1 & H).
  destruct H as (w2 & r3 & -> & H2 & H). destruct H as (s2 & w3 & -> & S2 & H3).
  apply digits_piece in H1, H2, H3. apply space_piece in S1, S2.
  pose proof (pieces_app _ _ _ _ H1 (pieces_app _ _ _ _ S1 (pieces_app _ _ _ _ H2
               (pieces_app _ _ _ _ S2 H3)))) as [Hc Hn].
  now apply spaced_digits.
Qed.

Lemma ein_value text v :
  match exec EIN text with Some m => group m 1 | None => None end = Some v -> einShape v.
Proof.
  destruct (exec EIN text) as [m|] eqn:E; [|discriminate]. intros Hg.
  pose proof (exec_group_lang _ _ _ _ _ E Hg) as H. unfold EIN in H. cbn [cat] in H.
  only_group H 1.
  destruct H as (a & r1 & -> & Ha & H). destruct H as (d & b & -> & Hd & Hb).
  apply lang_lit in Hd. subst d. apply lang_times_chr in Ha, Hb.
  exists a, b. cbn [app]. repeat split; tauto.
Qed.

Lemma unspace_filter g : unspace g = filter (fun c => negb (is_space c)) g.
Proof.
  unfold unspace, replace_all_with, replace_all.
  rewrite (replace_go_chr is_space _ []) by (intros m; reflexivity).
  induction g as [|c g IH]; [reflexivity|]. cbn [flat_map filter].
  destruct (is_space c); cbn [negb app]; now rewrite IH.
Qed.

Lemma vat_value text v :
  match exec VAT text with
  | Some m => if truthy_str (group m 1) then Some (unspace (group_text m 1)) else None
  | None => None
  end = Some v ->
  vatShape v.
Proof.
  destruct (exec VAT text) as [m|] eqn:E; [|discriminate].
  destruct (truthy_str (group m 1)) eqn:Et; [|discriminate].
  apply truthy_group in Et. destruct Et as (g & Hg & ->). intros [= <-].
  pose proof (exec_group_lang _ _ _ _ _ E Hg) as H. unfold VAT in H. cbn [cat] in H.
  only_group H 1.
  destruct H as (a & r1 & -> & Ha & H). destruct H as (s1 & b & -> & S1 & Hb).
  apply lang_times_chr in Ha. apply lang_rep_chr in Hb. destruct Ha as [La Ha], Hb as [Hb Lb].
  exists a, b. rewrite unspace_filter, !filter_app.
  assert (Ea : filter (fun c => negb (is_space c)) a = a).
  { apply filter_all. rewrite forallb_forall in *. intros c Hc. apply negb_true_iff.
    apply alnum_not_space. now rewrite (Ha c Hc). }
  assert (Eb : filter (fun c => negb (is_space c)) b = b).
  { apply filter_all. rewrite forallb_forall in *. intros c Hc. apply negb_true_iff.
    apply digit_not_space. now apply Hb. }
  assert (Es : filter (fun c => negb (is_space c)) s1 = []).
  { apply lang_opt in S1. destruct S1 as [->|(c & -> & Hc)]; [reflexivity|].
    simpl. now rewrite Hc. }
  rewrite Ea, Eb, Es. cbn [app]. repeat split; tauto || lia.
Qed.

Lemma tax_fields text ti :
  extractTaxInformation text = Exn.Ok (Some ti) -> taxShape ti.
Proof.
  unfold extractTaxInformation, taxShape. cbv zeta. intros H.
  apply bind_ok_inv in H. destruct H as (gst & _ & H).
  pose proof (abn_value text) as Habn. pose proof (acn_value text) as Hacn.
  pose proof (ein_value text) as Hein. pose proof (vat_value text) as Hvat.
  repeat match type of H with
         | (match ?a with _ => _ end) = _ => destruct a
         end;
    try discriminate; apply Ok_some_inj in H; subst ti;
    cbn [abnNumber acnNumber taxId vatNumber];
    (split; [|split; [|split]]); intros x Hx; try discriminate; auto.
Qed.

Lemma orElse_some {A} (a b : option A) v :
  orElse a b = Some v -> a = Some v \/ b = Some v.
Proof. destruct a; simpl; auto. Qed.

Lemma merge_tax a b :
  match a with Some x => taxShape x | None => True end -> taxShape b ->
  taxShape (mergeTaxInformation a b).
Proof.
  destruct a as [a|]; [|auto]. intros (A1 & A2 & A3 & A4) (B1 & B2 & B3 & B4).
  unfold mergeTaxInformation, taxShape. cbn [abnNumber acnNumber taxId vatNumber].
  (split; [|split; [|split]]); intros v Hv; apply orElse_some in Hv; destruct Hv; auto.
Qed.

Lemma buildSupplier_tax nameHint block s :
  buildSupplier nameHint block = Exn.Ok s ->
  match taxInformation s with Some x => taxShape x | None => True end.
Proof.
  unfold buildSupplier. cbv zeta. intros H.
  destruct (parseAddress block) as [address|]; cbn [Exn.bind] in H; [|discriminate].
  destruct (extractTaxInformation block) as [taxInfo|] eqn:E; cbn [Exn.bind] in H;
    [|discriminate].
  apply Ok_inj in H. subst s. cbn [taxInformation].
  destruct taxInfo as [ti|]; [|exact I]. now apply (tax_fields block).
Qed.

Lemma parse_tax now rawText options r ti :
  parse now rawText options = Exn.Ok r ->
  taxInformation (supplier r) = Some ti -> taxShape ti.
Proof.
  unfold parse. cbv zeta. intros H.
  repeat match type of H with
         | Exn.bind (buildSupplier ?a ?b) _ = _ =>
             destruct (buildSupplier a b) as [s|] eqn:Es; cbn [Exn.bind] in H;
             [|discriminate]
         | Exn.bind (extractTaxInformation ?a) _ = _ =>
             destruct (extractTaxInformation a) as [full|] eqn:Ef; cbn [Exn.bind] in H;
             [|discriminate]
         | Exn.bind ?m _ = _ => destruct m; cbn [Exn.bind] in H; [|discriminate]
         end.
  apply Ok_inj in H. subst r. cbn [supplier].
  pose proof (buildSupplier_tax _ _ _ Es) as Hs.
  destruct full as [f|]; cbn [taxInformation].
  - intros [= <-]. apply merge_tax; [exact Hs|]. now apply (tax_fields _ _ Ef).
  - intros E. now rewrite E in Hs.
Qed.

End TaxFacts.

Module Extras.
Import JS Regex Num Schema Primitives Parser Confidence Spec.
Import RegexFacts PairFacts TokenFacts DateFacts SegmentFacts MoreDateFacts RequireFacts AmountFacts ScoreFacts SearchFacts ClassifyFacts NumberFacts TotalsFacts CleanFacts ContactFacts DigitFacts AddressFacts TableFacts TaxFacts.

(** [segmentDocument] loses no line: every line of the input is in the
    header, in the body or in the footer, whatever the two cut points
    are. *)
Theorem segments_cover (lines : list jsstring) (l : jsstring) :
  In l lines ->
  In l (headerLines (segmentDocument lines)) \/
  In l (bodyLines (segmentDocument lines)) \/
  In l (footerLines (segmentDocument lines)).
Proof.
  intros Hin. unfold segmentDocument. cbn [headerLines bodyLines footerLines].
  destruct (Nat.le_gt_cases (headerEnd lines) (footerStart lines)) as [Hle|Hgt].
  - rewrite <- (slices_partition lines _ _ Hle) in Hin.
    rewrite !in_app_iff in Hin. exact Hin.
  - rewrite <- (firstn_skipn (headerEnd lines) lines) in Hin.
    apply in_app_iff in Hin. destruct Hin as [Hin|Hin].
    + left. unfold slice. now rewrite Nat.sub_0_r.
    + right. right.
      rewrite <- (firstn_skipn (headerEnd lines - footerStart lines)
                                (skipn (footerStart lines) lines)).
      apply in_or_app. right. rewrite skipn_skipn.
      now replace (headerEnd lines - footerStart lines + footerStart lines)
        with (headerEnd lines) by lia.
Qed.

Lemma segments_cover_witness :
  In (str "ACME") (headerLines (segmentDocument [str "ACME"])) \/
  In (str "ACME") (bodyLines (segmentDocument [str "ACME"])) \/
  In (str "ACME") (footerLines (segmentDocument [str "ACME"])).
Proof. apply (segments_cover [str "ACME"] (str "ACME")). now left. Defined.

(** In a document of 32 lines or more the three regions are a partition:
    the header has at most 24 lines, the footer does not start before the
    header ends, and header, body and footer concatenate to the input. *)
Theorem segments_partition_long (lines : list jsstring) :
  32 <= length lines ->
  length (headerLines (segmentDocument lines)) <= 24 /\
  headerEnd lines <= footerStart lines <= length lines /\
  headerLines (segmentDocument lines) ++ bodyLines (segmentDocument lines)
    ++ footerLines (segmentDocument lines) = lines.
Proof.
  intros Hlen. pose proof (headerEnd_bounds lines) as [Hh H24].
  pose proof (footerStart_after_header lines Hlen) as Hle.
  pose proof (footerStart_bounds lines) as Hf.
  unfold segmentDocument. cbn [headerLines bodyLines footerLines].
  split; [|split; [lia|now apply slices_partition]].
  unfold slice. rewrite length_firstn. lia.
Qed.

Lemma segments_partition_long_witness :
  headerLines (segmentDocument (repeat (str "x") 32))
    ++ bodyLines (segmentDocument (repeat (str "x") 32))
    ++ footerLines (segmentDocument (repeat (str "x") 32)) = repeat (str "x") 32.
Proof. apply (segments_partition_long (repeat (str "x") 32)). simpl. lia. Defined.

(** [normaliseDateString] is idempotent: a value it has produced is left as
    it is by a second application. *)
Theorem normaliseDateString_idempotent (raw v : jsstring) :
  normaliseDateString raw = Exn.Ok v -> normaliseDateString v = Exn.Ok v.
Proof.
  intros H. destruct (normalise_cases raw) as [E|(d & m & y & Hr & E)];
    rewrite E in H; injection H as <-; [exact E|].
  destruct Hr as (Hd & Hm & Hy & _). now apply normalise_iso.
Qed.

Lemma normaliseDateString_idempotent_witness :
  normaliseDateString (str "2024-01-15") = Exn.Ok (str "2024-01-15").
Proof.
  apply (normaliseDateString_idempotent (str "15/01/2024") (str "2024-01-15")).
  vm_compute. reflexivity.
Defined.



(** A line without a decimal digit is never an item. *)
Theorem parseLineItem_needs_digit (line : jsstring) (lineNum : nat)
                                  (defaultTaxPct : option number) :
  existsb is_digit line = false -> parseLineItem line lineNum defaultTaxPct = None.
Proof. apply parseLineItem_nodigit. Qed.

Lemma parseLineItem_needs_digit_witness :
  parseLineItem (str "Widget with no price") 1 None = None.
Proof. apply parseLineItem_needs_digit. reflexivity. Defined.

(** [score] throws for exactly two document types: those that lower-case to
    "constructor" or to "__proto__", whose keyword entry is an inherited
    value and no array. *)
Theorem score_throws_on_inherited_type (response : DataLiftResponse)
    (rawText : jsstring) (ocrConf : number) (documentType : jsstring) :
  score response rawText ocrConf documentType = Exn.Throw <->
  toLowerCase documentType = str "constructor" \/
  toLowerCase documentType = str "__proto__".
Proof. apply score_throws_iff. Qed.

(** For a provider confidence between 0 and 1 and any other document type,
    [score] returns a breakdown whose overall score and five component
    scores are all between 0 and 1. *)
Theorem score_in_unit_interval (response : DataLiftResponse)
    (rawText : jsstring) (ocrConf : number) (documentType : jsstring) :
  unitInterval ocrConf ->
  toLowerCase documentType <> str "constructor" ->
  toLowerCase documentType <> str "__proto__" ->
  exists b,
    score response rawText ocrConf documentType = Exn.Ok b /\
    unitInterval (overall b) /\ unitInterval (ocr b) /\ unitInterval (fields b) /\
    unitInterval (numeric b) /\ unitInterval (docType b) /\ unitInterval (keyword b).
Proof. apply score_unit. Qed.

Lemma score_in_unit_interval_witness :
  exists b,
    score (Response (Metadata (str "invoice") (Fin 0) (str "") (str "en") None None None)
                    (Supplier (str "ACME") (Address None None None None None None)
                              (Contact None None None) None)
                    (Buyer None None None)
                    (Transaction None None None None None None None None None (str "USD"))
                    ZERO_PARTS ZERO_TOTALS)
          (str "invoice acme") (Fin (9 # 10)) (str "invoice") = Exn.Ok b /\
    unitInterval (overall b).
Proof.
  destruct (score_in_unit_interval
              (Response (Metadata (str "invoice") (Fin 0) (str "") (str "en") None None None)
                        (Supplier (str "ACME") (Address None None None None None None)
                                  (Contact None None None) None)
                        (Buyer None None None)
                        (Transaction None None None None None None None None None (str "USD"))
                        ZERO_PARTS ZERO_TOTALS)
              (str "invoice acme") (Fin (9 # 10)) (str "invoice"))
    as (b & Hb & Ho & _).
  - exists (9 # 10)%Q. split; [reflexivity|]. split; discriminate.
  - vm_compute. discriminate.
  - vm_compute. discriminate.
  - exists b. auto.
Defined.

(** The scoring step after the parser, as [extract] chains them: when the
    caller names no document type, [parse] returns a record and [score],
    given that record, the same text and the record's own document type,
    returns a breakdown with scores between 0 and 1, for every provider
    confidence between 0 and 1. *)
Theorem parsed_record_is_scored (now rawText : jsstring) (language : option jsstring)
                                (ocrConf : number) :
  unitInterval ocrConf ->
  exists r b,
    parse now rawText (Options None language) = Exn.Ok r /\
    score r rawText ocrConf (documentType (metadata r)) = Exn.Ok b /\
    unitInterval (overall b) /\ unitInterval (ocr b) /\ unitInterval (fields b) /\
    unitInterval (numeric b) /\ unitInterval (docType b) /\ unitInterval (keyword b).
Proof.
  intros Hc. destruct (Totality.parse_ok now rawText (Options None language)) as [r Hr].
  exists r.
  assert (Ht : exists t, documentType (metadata r) = docTypeName t).
  { revert Hr. unfold parse. cbv zeta. cbn [optDocumentType]. intros H.
    destruct (classifyDocumentType (normaliseOCRText rawText)) as [t|];
      cbn [Exn.bind] in H; [|discriminate].
    repeat match type of H with
           | Exn.bind ?m _ = _ => destruct m; cbn [Exn.bind] in H; [|discriminate]
           end.
    apply Ok_inj in H. subst r. now exists t. }
  destruct Ht as [t Et]. destruct (docTypeName_scored t) as [H1 H2].
  rewrite <- Et in H1, H2.
  destruct (score_unit r rawText ocrConf _ Hc H1 H2) as (b & Hb & Hu).
  exists b. auto.
Qed.

Lemma parsed_record_is_scored_witness :
  exists r b,
    parse NOW (str "invoice acme") (Options None None) = Exn.Ok r /\
    score r (str "invoice acme") (Fin (9 # 10)) (documentType (metadata r)) = Exn.Ok b /\
    unitInterval (overall b).
Proof.
  destruct (parsed_record_is_scored NOW (str "invoice acme") None (Fin (9 # 10)))
    as (r & b & Hr & Hb & Ho & _).
  - exists (9 # 10)%Q. split; [reflexivity|]. split; discriminate.
  - exists r, b. auto.
Defined.



(** A text that holds a dollar sign is taken for Australian or US dollars:
    the entries "NZ$", "C$" and "S$" of the currency table come after the
    pattern of the US dollar, which matches the sign alone. *)
Theorem detectCurrency_dollar_sign (text : jsstring) :
  In (ch "$") text ->
  detectCurrency text = MkCurrency (str "AUD") (str "A$") \/
  detectCurrency text = MkCurrency (str "USD") (str "$").
Proof.
  intros H. apply dollar_is_usd in H.
  unfold detectCurrency, CURRENCY_MAP. cbn [find fst snd].
  rewrite H. clear H. destruct (test _ text); [left|right]; reflexivity.
Qed.

Lemma detectCurrency_dollar_sign_witness :
  detectCurrency (str "Total NZ$ 12.00") = MkCurrency (str "AUD") (str "A$") \/
  detectCurrency (str "Total NZ$ 12.00") = MkCurrency (str "USD") (str "$").
Proof.
  apply detectCurrency_dollar_sign.
  change (In 36%N (str "Total NZ" ++ 36%N :: str " 12.00")). apply in_elt.
Defined.

(** [classifyDocumentType] returns the type with the most keywords in the
    lower-cased text, the first of them in the order of the table when
    several have as many, and "generic" when the text holds no keyword at
    all. *)
Theorem classify_most_keywords (text : jsstring) :
  exists t,
    classifyDocumentType text = Exn.Ok t /\
    ((forall e, In e CLASSIFY_KEYWORDS -> keywordHits text (snd e) = 0) /\ t = generic
     \/
     exists earlier kws later,
       CLASSIFY_KEYWORDS = earlier ++ (t, kws) :: later /\
       0 < keywordHits text kws /\
       (forall e, In e earlier -> keywordHits text (snd e) < keywordHits text kws) /\
       (forall e, In e later -> keywordHits text (snd e) <= keywordHits text kws)).
Proof.
  unfold classifyDocumentType. cbv zeta.
  set (g := fun e : DataLiftDocumentType * list jsstring =>
              (fst e, length (filter (fun kw => includes (toLowerCase text) kw) (snd e)))).
  assert (Hg : forall e, snd (g e) = keywordHits text (snd e)) by reflexivity.
  destruct CLASSIFY_KEYWORDS as [|first others] eqn:EK; [discriminate EK|].
  cbn [List.map].
  destruct (argmax_split (@snd DataLiftDocumentType nat) (List.map g others) [] (g first) [])
    as (l1 & l2 & Heq & Hl1 & Hl2); [intros x []|intros x []|].
  set (best := fold_left _ (List.map g others) (g first)) in *.
  cbn [app] in Heq. change (g first :: List.map g others) with (List.map g (first :: others)) in Heq.
  apply map_eq_app in Heq. destruct Heq as (earlier & rest & E1 & E2 & E3).
  apply map_eq_cons in E3. destruct E3 as (e & later & E3 & E4 & E5). subst rest l1 l2.
  eexists. split; [reflexivity|].
  destruct (Nat.ltb 0 (snd best)) eqn:Epos.
  - right. apply Nat.ltb_lt in Epos. exists earlier, (snd e), later.
    rewrite <- E4 in *. rewrite Hg in *.
    split; [rewrite E1; now destruct e|]. split; [exact Epos|]. split.
    + intros x Hx. rewrite <- Hg. apply Hl1. now apply in_map.
    + intros x Hx. rewrite <- Hg. apply Hl2. now apply in_map.
  - left. apply Nat.ltb_ge in Epos. split; [|reflexivity].
    intros x Hx. rewrite E1 in Hx. rewrite <- E4 in *. rewrite Hg in *.
    apply in_app_iff in Hx. destruct Hx as [Hx|[<-|Hx]].
    + apply (in_map g) in Hx. apply Hl1 in Hx. rewrite Hg in Hx. lia.
    + lia.
    + apply (in_map g) in Hx. apply Hl2 in Hx. rewrite Hg in Hx. lia.
Qed.

(** The invoice number, the purchase-order number and the quote number that
    [extractTransaction] returns are single tokens: a letter or a digit
    followed by 1 to 30 (for a quote, 1 to 20) letters, digits, underscores,
    hyphens or slashes, on the label line as on a following line. *)
Theorem transaction_numbers_shape (fullText currencyCode : jsstring)
                                  (tx : DataLiftTransaction) :
  extractTransaction fullText currencyCode = Exn.Ok tx ->
  (forall v, invoiceNumber tx = Some v -> numberShape 30 v) /\
  (forall v, purchaseOrderNumber tx = Some v -> numberShape 30 v) /\
  (forall v, quoteNumber tx = Some v -> numberShape 20 v).
Proof.
  unfold extractTransaction. intros H.
  destruct (labeledNumber invRx invLabelLineRx fullText) as [inv|] eqn:Ei; [|discriminate].
  destruct (labeledNumber poRx poLabelLineRx fullText) as [po|] eqn:Ep; [|discriminate].
  cbn [Exn.bind] in H.
  destruct (exec quoteRx fullText) as [qm|] eqn:Eq.
  - destruct (group qm 1) as [g|] eqn:Eg; [|discriminate].
    cbn [Exn.must Exn.bind] in H.
    repeat match type of H with
           | Exn.bind ?m _ = _ => destruct m; cbn [Exn.bind] in H; [|discriminate]
           end.
    injection H as <-. cbn [invoiceNumber purchaseOrderNumber quoteNumber].
    split; [|split].
    + intros v ->. eapply labeledNumber_shape; [exact invRx_group|exact Ei].
    + intros v ->. eapply labeledNumber_shape; [exact poRx_group|exact Ep].
    + intros v [= <-].
      pose proof (quoteRx_group g (exec_group_lang _ _ _ _ _ Eq Eg)) as Hs.
      now rewrite (numberShape_trim _ _ Hs).
  - cbn [Exn.bind] in H.
    repeat match type of H with
           | Exn.bind ?m _ = _ => destruct m; cbn [Exn.bind] in H; [|discriminate]
           end.
    injection H as <-. cbn [invoiceNumber purchaseOrderNumber quoteNumber].
    split; [|split].
    + intros v ->. eapply labeledNumber_shape; [exact invRx_group|exact Ei].
    + intros v ->. eapply labeledNumber_shape; [exact poRx_group|exact Ep].
    + discriminate.
Qed.

Lemma transaction_numbers_shape_witness :
  numberShape 30 (str "INV-2025-00842").
Proof.
  destruct (extractTransaction (str "Invoice No: INV-2025-00842") (str "USD")) as [tx|] eqn:E;
    [|vm_compute in E; discriminate E].
  destruct (transaction_numbers_shape _ _ _ E) as (H & _).
  apply H. vm_compute in E. injection E as <-. reflexivity.
Defined.

(** The supplier name is one of the first eight header lines, as it stands
    or trimmed; that line has three characters or more and does not begin
    with one of the words that [SKIP_HEADER_WORDS] lists (invoice, receipt,
    date, page, ...). *)
Theorem supplier_name_source (headerLines : list jsstring) (name : jsstring) :
  extractSupplierName headerLines = Some name ->
  exists line,
    In line (firstn 8 headerLines) /\ (name = trim line \/ name = line) /\
    test SKIP_HEADER_WORDS line = false /\ 3 <= length line.
Proof.
  unfold extractSupplierName. destruct headerLines as [|h0 hs]; [discriminate|].
  cbv beta iota zeta. set (candidates := firstn 8 (h0 :: hs)).
  assert (Hthird : forall n, firstMeaningful candidates = Some n ->
            exists line, In line candidates /\ (n = trim line \/ n = line) /\
                         test SKIP_HEADER_WORDS line = false /\ 3 <= length line).
  { intros n H. apply find_some in H. destruct H as [Hin H].
    apply andb_true_iff in H. destruct H as [H Hs]. apply andb_true_iff in H.
    destruct H as [Hl _]. apply Nat.ltb_lt in Hl. apply negb_true_iff in Hs.
    exists n. repeat split; auto. lia. }
  assert (Hcorp : forall b, bestCorpLine candidates = Some b ->
            exists line, In line candidates /\ b = trim line /\
                         test SKIP_HEADER_WORDS line = false /\ 3 <= length line).
  { unfold bestCorpLine.
    apply (fold_left_invariant
             (fun best => forall b, best = Some b ->
                exists line, In line candidates /\ b = trim line /\
                             test SKIP_HEADER_WORDS line = false /\ 3 <= length line));
      [|discriminate].
    intros best line Hin Hb b.
    destruct (Nat.ltb (length line) 3) eqn:El; [apply Hb|].
    destruct (test SKIP_HEADER_WORDS line) eqn:Es; [apply Hb|].
    destruct (test CORP_SUFFIX_RX line); [|apply Hb].
    apply Nat.ltb_ge in El.
    assert (Hnew : Some (trim line) = Some b ->
              exists line0, In line0 candidates /\ b = trim line0 /\
                            test SKIP_HEADER_WORDS line0 = false /\ 3 <= length line0)
      by (intros [= <-]; exists line; auto).
    destruct best as [b0|]; [|exact Hnew].
    destruct (nonempty b0 && negb (Nat.ltb (length line) (length b0))); [apply Hb|exact Hnew]. }
  match goal with
  | |- context [find ?f candidates] => destruct (find f candidates) as [line|] eqn:E1
  end.
  - intros [= <-]. apply find_some in E1. destruct E1 as [Hin H].
    apply andb_true_iff in H. destruct H as [H _]. apply andb_true_iff in H.
    destruct H as [Hl Hs]. apply negb_true_iff in Hl, Hs. apply orb_false_iff in Hl.
    destruct Hl as [Hl _]. apply Nat.ltb_ge in Hl. exists line. auto.
  - destruct (bestCorpLine candidates) as [b|] eqn:E2; [|apply Hthird].
    destruct (nonempty b); [|apply Hthird].
    intros [= <-]. destruct (Hcorp b eq_refl) as (line & ? & ? & ? & ?).
    exists line. auto.
Qed.

Lemma supplier_name_source_witness :
  exists line,
    In line (firstn 8 [str "INVOICE"; str "ACME TOOLS"]) /\
    (str "ACME TOOLS" = trim line \/ str "ACME TOOLS" = line) /\
    test SKIP_HEADER_WORDS line = false /\ 3 <= length line.
Proof.
  apply (supplier_name_source [str "INVOICE"; str "ACME TOOLS"] (str "ACME TOOLS")).
  vm_compute. reflexivity.
Defined.





(** The normalised text holds no zero-width character (U+200B to U+200D,
    U+FEFF) and no en dash or em dash. *)
Theorem normalise_no_invisible (s : jsstring) (c : char) :
  In c (normaliseOCRText s) -> is_zero_width c = false /\ is_dash c = false.
Proof.
  unfold normaliseOCRText. cbv zeta. intros H.
  apply delete_incl, zero_width_step in H. destruct H as [Hz H].
  apply dash_step in H. auto.
Qed.

Lemma normalise_no_invisible_witness :
  is_zero_width (ch "-") = false /\ is_dash (ch "-") = false.
Proof.
  apply (normalise_no_invisible [8212%N; 8203%N] (ch "-")).
  vm_compute. now left.
Defined.

(** Normalisation never lengthens the text. *)
Theorem normalise_not_longer (s : jsstring) :
  length (normaliseOCRText s) <= length s.
Proof.
  unfold normaliseOCRText. cbv zeta.
  eapply Nat.le_trans; [apply (replace_const_length _ _ 0); [intros m; reflexivity|apply Nat.le_0_l]|].
  eapply Nat.le_trans; [apply (replace_const_length _ _ 0); [intros m; reflexivity|apply Nat.le_0_l]|].
  eapply Nat.le_trans; [apply (replace_const_length _ _ 1); [intros m; reflexivity|vm_compute; lia]|].
  eapply Nat.le_trans; [apply (replace_const_length _ _ 0); [intros m; reflexivity|apply Nat.le_0_l]|].
  eapply Nat.le_trans; [apply (replace_const_length _ _ 2); [intros m; reflexivity|vm_compute; lia]|].
  eapply Nat.le_trans; [apply (replace_const_length _ _ 2); [intros m; reflexivity|vm_compute; lia]|].
  eapply Nat.le_trans; [apply length_digit_o|apply length_dollar_l].
Qed.

(** No line of the normalised text ends with a space or a tab. *)
Theorem normalise_no_trailing_blank (s : jsstring) :
  no_trailing_blank (normaliseOCRText s) = true.
Proof.
  unfold normaliseOCRText. cbv zeta.
  unfold replace_all_with at 1. unfold replace_all.
  eapply trailing_removed. apply Nat.le_refl.
Qed.

(** Every address [extractEmails] returns is in lower case and has exactly
    one at sign: before it a local part that is not empty, of letters,
    digits and the signs "_.+-"; after it a domain of four characters or
    more, of letters, digits and the signs "_.-", with a dot in it.  No
    address is returned twice. *)
Theorem extractEmails_shape (text e : jsstring) :
  In e (extractEmails text) -> emailShape e /\ NoDup (extractEmails text).
Proof.
  intros H. split; [now apply (emails_shape text)|apply dedupe_NoDup].
Qed.

Lemma extractEmails_shape_witness :
  emailShape (str "joe.bloggs@acme.com") /\
  NoDup (extractEmails (str "Mail Joe.Bloggs@ACME.com or joe.bloggs@acme.COM")).
Proof.
  apply (extractEmails_shape (str "Mail Joe.Bloggs@ACME.com or joe.bloggs@acme.COM")).
  vm_compute. now left.
Defined.

(** Every phone number [extractPhones] returns consists of digits, plus
    signs, parentheses, spaces, tabs, hyphens and dots only, holds seven
    digits or more, and is not a ZIP+4 code (five digits, a hyphen, four
    digits).  No number is returned twice. *)
Theorem extractPhones_shape (text p : jsstring) :
  In p (extractPhones text) -> phoneShape p /\ NoDup (extractPhones text).
Proof.
  intros H. split; [now apply (phones_shape text)|apply dedupe_NoDup].
Qed.

Lemma extractPhones_shape_witness :
  phoneShape (str "(02) 9876 5432") /\
  NoDup (extractPhones (str "Ph (02) 9876 5432, Greer SC 29651-1500")).
Proof.
  apply (extractPhones_shape (str "Ph (02) 9876 5432, Greer SC 29651-1500")).
  vm_compute. now left.
Defined.

(** The contact details of a parsed record.  The supplier's phone number
    consists of digits, plus signs, parentheses, blanks, hyphens and dots,
    holds 7 to 15 digits, no run of eight digits, and is not a ZIP+4 code;
    the supplier's e-mail address is a lower-case address with one at sign;
    the supplier's web site holds no white space and starts with "http://",
    "https://" or "www."; the buyer's phone number and e-mail address have
    the shape of a phone number and of an address as well. *)
Theorem parse_contacts (now rawText : jsstring) (options : RuleBasedParserOptions)
                       (r : DataLiftResponse) :
  parse now rawText options = Exn.Ok r ->
  (forall p, phone (supplierContact (supplier r)) = Some p ->
             phoneShape p /\ length (filter is_digit p) <= 15 /\ ~ digitRun 8 p) /\
  (forall e, email (supplierContact (supplier r)) = Some e -> emailShape e) /\
  (forall u, website (supplierContact (supplier r)) = Some u -> urlShape u) /\
  (forall c, buyerContact (buyer r) = Some c ->
             (forall p, phone c = Some p -> phoneShape p) /\
             (forall e, email c = Some e -> emailShape e)).
Proof.
  unfold parse. cbv zeta. intros H.
  repeat match type of H with
         | Exn.bind (buildSupplier ?a ?b) _ = _ =>
             destruct (buildSupplier a b) as [s|] eqn:Es; cbn [Exn.bind] in H;
             [|discriminate]
         | Exn.bind (extractBuyer ?a ?b) _ = _ =>
             destruct (extractBuyer a b) as [b0|] eqn:Eb; cbn [Exn.bind] in H;
             [|discriminate]
         | Exn.bind ?m _ = _ => destruct m; cbn [Exn.bind] in H; [|discriminate]
         end.
  apply Ok_inj in H. subst r. cbn [supplier buyer].
  pose proof (buildSupplier_contact _ _ _ Es) as (Hp & He & Hu).
  assert (Hc : forall x, supplierContact
                 match x with
                 | Some full =>
                     Supplier (supplierName s) (supplierAddress s) (supplierContact s)
                              (Some (mergeTaxInformation (taxInformation s) full))
                 | None => s
                 end = supplierContact s) by (intros [full|]; reflexivity).
  rewrite Hc. split; [exact Hp|]. split; [exact He|]. split; [exact Hu|].
  intros c Hb. exact (extractBuyer_contact _ _ _ _ Eb Hb).
Qed.

Lemma parse_contacts_witness :
  exists r,
    parse NOW (str "ACME Pty Ltd sales@acme.com Ph (02) 9876 5432") (Options None None)
      = Exn.Ok r /\
    forall e, email (supplierContact (supplier r)) = Some e -> emailShape e.
Proof.
  destruct (parse NOW (str "ACME Pty Ltd sales@acme.com Ph (02) 9876 5432")
                  (Options None None)) as [r|] eqn:E;
    [|vm_compute in E; discriminate E].
  exists r. split; [reflexivity|].
  now destruct (parse_contacts _ _ _ _ E) as (_ & H & _).
Defined.

(** A text without a decimal digit gives a record without numbers: [parse]
    returns a record that has no part, the grand total 0 and no other
    amount in its totals, no invoice date, due date or transaction date,
    and no phone number of the supplier. *)
Theorem parse_text_without_digits (now rawText : jsstring)
                                  (options : RuleBasedParserOptions) :
  existsb is_digit rawText = false ->
  exists r,
    parse now rawText options = Exn.Ok r /\
    parts r = [] /\
    totals r = Totals None None None None None None (Fin 0) None None /\
    txInvoiceDate (transaction r) = None /\ txDueDate (transaction r) = None /\
    transactionDate (transaction r) = None /\
    phone (supplierContact (supplier r)) = None.
Proof.
  intros H. destruct (Totality.parse_ok now rawText options) as [r Hr].
  exists r. split; [exact Hr|]. now apply (parse_nodigit now rawText options).
Qed.

Lemma parse_text_without_digits_witness :
  exists r,
    parse NOW (str "Invoice Total: due on receipt, thank you") (Options None None)
      = Exn.Ok r /\
    parts r = [] /\ grandTotal (totals r) = Fin 0.
Proof.
  destruct (parse_text_without_digits NOW (str "Invoice Total: due on receipt, thank you")
                                      (Options None None))
    as (r & Hr & Hp & Ht & _); [reflexivity|].
  exists r. rewrite Ht. auto.
Defined.

(** The address [parseAddress] returns: the country, when there is one, is
    one of AU, US, GB, IN, CA, NZ, DE, FR and SG; the postal code, when
    there is one, is four digits, five digits or a ZIP+4 code, and a code of
    four digits goes with the country AU; the street, when there is one, is
    a line of more than five characters that begins with a digit. *)
Theorem parseAddress_shape (block : jsstring) (a : DataLiftAddress) :
  parseAddress block = Exn.Ok a ->
  (forall k, country a = Some k -> In k COUNTRIES) /\
  (forall pc, postalCode a = Some pc ->
     postalShape pc /\ (length pc = 4 -> country a = Some (str "AU"))) /\
  (forall st, street a = Some st ->
     5 < length st /\ exists d rest, st = d :: rest /\ is_digit d = true).
Proof. apply parseAddress_fields. Qed.

Lemma parseAddress_shape_witness :
  exists a,
    parseAddress (str "12 High Street, Richmond VIC 3121") = Exn.Ok a /\
    postalCode a = Some (str "3121") /\ postalShape (str "3121") /\
    country a = Some (str "AU").
Proof.
  destruct (parseAddress (str "12 High Street, Richmond VIC 3121")) as [a|] eqn:E;
    [|vm_compute in E; discriminate E].
  assert (Hp : postalCode a = Some (str "3121"))
    by (vm_compute in E; apply Ok_inj in E; now subst a).
  destruct (parseAddress_shape _ _ E) as (_ & H & _).
  destruct (H _ Hp) as [Hs Hc].
  exists a. split; [reflexivity|]. split; [exact Hp|]. split; [exact Hs|].
  apply Hc. reflexivity.
Defined.

(** The column table is read down to the first totals line only: when the
    header row of the table stands above a line that starts with "total",
    "subtotal", "tax" or another word of the footer pattern, the lines after
    that line add no item and change none. *)
Theorem column_table_stops_at_footer (pre post : list jsstring) (f : jsstring) :
  (exists i, i < length pre /\ 2 <= hits headerKws (toLowerCase (line_at pre i))) ->
  test tableFooterRx (trim f) = true ->
  extractFromColumnTable (pre ++ f :: post) = extractFromColumnTable pre.
Proof. apply table_stops_at_footer. Qed.

Lemma column_table_stops_at_footer_witness :
  extractFromColumnTable
    ([str "Description  Qty  Price"; str "Widget A  3  $9.99  $29.97"]
       ++ str "Total  $29.97" :: [str "Gadget B  1  $5.00  $5.00"])
  = extractFromColumnTable [str "Description  Qty  Price"; str "Widget A  3  $9.99  $29.97"].
Proof.
  apply column_table_stops_at_footer.
  - exists 0. split; [simpl; lia|]. vm_compute. lia.
  - vm_compute. reflexivity.
Defined.

(** The tax identifiers of the supplier in a parsed record have the shape
    of their kind: the ABN is "ABN: " and 11 digits, the ACN is 9 digits,
    both with single blanks as the only other characters; the tax id (EIN)
    is two digits, a hyphen and seven digits; the VAT number is two letters
    and 7 to 12 digits, without white space. *)
Theorem parse_tax_identifiers (now rawText : jsstring) (options : RuleBasedParserOptions)
                              (r : DataLiftResponse) (ti : DataLiftTaxInformation) :
  parse now rawText options = Exn.Ok r ->
  taxInformation (supplier r) = Some ti ->
  (forall v, abnNumber ti = Some v -> exists d, v = str "ABN: " ++ d /\ spacedDigits 11 d) /\
  (forall v, acnNumber ti = Some v -> spacedDigits 9 v) /\
  (forall v, taxId ti = Some v -> einShape v) /\
  (forall v, vatNumber ti = Some v -> vatShape v).
Proof. apply parse_tax. Qed.

Lemma parse_tax_identifiers_witness :
  exists r ti,
    parse NOW (str "ACME Pty Ltd ABN 12 345 678 901") (Options None None) = Exn.Ok r /\
    taxInformation (supplier r) = Some ti /\
    abnNumber ti = Some (str "ABN: 12345678901") /\
    spacedDigits 11 (str "12345678901").
Proof.
  destruct (parse NOW (str "ACME Pty Ltd ABN 12 345 678 901") (Options None None))
    as [r|] eqn:E; [|vm_compute in E; discriminate E].
  destruct (taxInformation (supplier r)) as [ti|] eqn:Et;
    [|vm_compute in E; apply Ok_inj in E; subst r; discriminate Et].
  assert (Ha : abnNumber ti = Some (str "ABN: 12345678901")).
  { vm_compute in E. apply Ok_inj in E. subst r. cbn [supplier taxInformation] in Et.
    injection Et as <-. reflexivity. }
  destruct (parse_tax_identifiers _ _ _ _ _ E Et) as (H & _).
  destruct (H _ Ha) as (d & Hd & Hs).
  exists r, ti. split; [reflexivity|]. split; [exact Et|]. split; [exact Ha|].
  change (str "ABN: 12345678901") with (str "ABN: " ++ str "12345678901") in Hd.
  apply app_inv_head in Hd. now subst d.
Defined.

End Extras.
